(** * UNITE: single-connection TCP demo programs (JSON exchange and line echo)

    A shallow embedding of the four Go programs of the repository:

    - the JSON client  ([src/Client/client.go], first program),
    - the echo server  ([src/Client/client.go], second program),
    - the JSON server  ([src/unnamed/part_000]),
    - the echo client  ([src/client.go]).

    The programs are a few lines each; what they do is decided by the Go
    library calls they make ([encoding/json], [bufio], [net], [unicode/utf8]).
    Those calls are embedded too, following the Go standard library
    function by function, so that the statements below talk about the bytes
    that really travel on the wire. *)

From Equations Require Import Equations.
From Stdlib Require Import List Arith ZArith Lia Bool Ascii String.
Import ListNotations.

Set Implicit Arguments.
Open Scope Z_scope.

(* ===================================================================== *)
(** * Bytes *)
(* ===================================================================== *)

(** A Go [byte] is an 8-bit value: [ascii].  A Go [string] and a Go [[]byte]
    are both byte sequences: [list byte].  [code] is the numeric value of a
    byte (what Go gets from [rune(b)] or [int(b)]), [byte_of] is the Go
    conversion [byte(x)], which keeps the low 8 bits. *)
Definition byte := ascii.
Bind Scope char_scope with byte.
Definition bytes := list byte.

Definition code (b : byte) : Z := Z.of_N (N_of_ascii b).
Definition byte_of (z : Z) : byte := ascii_of_N (Z.to_N (z mod 256)).

(** A string literal of the source as a byte sequence. *)
Definition B (s : string) : bytes := list_ascii_of_string s.

Definition beq (a b : byte) : bool := Ascii.eqb a b.

(** The double quote character, written by its code. *)
Definition dquote : byte := "034"%char.
Definition backslash : byte := "\"%char.
Definition newline : byte := "010"%char.

(** The loops below advance over their input by one byte or by several at
    once; what is left is always shorter than the input, which is the
    measure their definitions recurse on. *)
Lemma skipn_shorter (A : Type) (k : nat) (rest : list A) :
  (List.length (skipn k rest) < S (List.length rest))%nat.
Proof. rewrite List.length_skipn. lia. Qed.

(* ===================================================================== *)
(** * unicode/utf8 *)
(* ===================================================================== *)

Module utf8.

Definition rune := Z.

Definition RuneError : rune := 0xFFFD.
Definition RuneSelf : Z := 0x80.
Definition MaxRune : rune := 0x10FFFF.
Definition UTFMax : nat := 4.

Definition surrogateMin : Z := 0xD800.
Definition surrogateMax : Z := 0xDFFF.

Definition tx : Z := 0x80.
Definition t2 : Z := 0xC0.
Definition t3 : Z := 0xE0.
Definition t4 : Z := 0xF0.

Definition maskx : Z := 0x3F.
Definition mask2 : Z := 0x1F.
Definition mask3 : Z := 0x0F.
Definition mask4 : Z := 0x07.

Definition rune1Max : Z := 0x7F.
Definition rune2Max : Z := 0x7FF.
Definition rune3Max : Z := 0xFFFF.

Definition locb : Z := 0x80.
Definition hicb : Z := 0xBF.

(** Codes of the [first] table: the low three bits are the size of the
    sequence, the high four bits index [acceptRanges]. *)
Definition xx : Z := 0xF1.
Definition as_ : Z := 0xF0.
Definition s1 : Z := 0x02.
Definition s2 : Z := 0x13.
Definition s3 : Z := 0x03.
Definition s4 : Z := 0x23.
Definition s5 : Z := 0x34.
Definition s6 : Z := 0x04.
Definition s7 : Z := 0x44.

(** [first[p0]]: information about the first byte of a UTF-8 sequence. *)
Definition first (p0 : Z) : Z :=
  if p0 <? 0x80 then as_          (* 0x00-0x7F *)
  else if p0 <? 0xC2 then xx      (* 0x80-0xC1 *)
  else if p0 <? 0xE0 then s1      (* 0xC2-0xDF *)
  else if p0 =? 0xE0 then s2
  else if p0 <? 0xED then s3      (* 0xE1-0xEC *)
  else if p0 =? 0xED then s4
  else if p0 <? 0xF0 then s3      (* 0xEE-0xEF *)
  else if p0 =? 0xF0 then s5
  else if p0 <? 0xF4 then s6      (* 0xF1-0xF3 *)
  else if p0 =? 0xF4 then s7
  else xx.                        (* 0xF5-0xFF *)

(** [acceptRanges[i]]: the range of valid values of the second byte. *)
Definition acceptRanges (i : Z) : Z * Z :=
  if i =? 0 then (locb, hicb)
  else if i =? 1 then (0xA0, hicb)
  else if i =? 2 then (locb, 0x9F)
  else if i =? 3 then (0x90, hicb)
  else if i =? 4 then (locb, 0x8F)
  else (0, 0).

(** The value of a 32-bit signed integer after wrap-around. *)
Definition int32 (z : Z) : Z := (z + 2 ^ 31) mod 2 ^ 32 - 2 ^ 31.

Definition at_ (p : bytes) (i : nat) : Z := code (nth i p zero).

(** [utf8.DecodeRune]: the first rune of [p] and its width in bytes. *)
Definition DecodeRune (p : bytes) : rune * nat :=
  let n := List.length p in
  if (n <? 1)%nat then (RuneError, 0%nat) else
  let p0 := at_ p 0 in
  let x := first p0 in
  if x >=? as_ then
    let mask := Z.shiftr (int32 (Z.shiftl x 31)) 31 in
    (Z.lor (Z.ldiff p0 mask) (Z.land RuneError mask), 1%nat)
  else
  let sz := Z.to_nat (Z.land x 7) in
  let accept := acceptRanges (Z.shiftr x 4) in
  if (n <? sz)%nat then (RuneError, 1%nat) else
  let b1 := at_ p 1 in
  if (b1 <? fst accept) || (snd accept <? b1) then (RuneError, 1%nat) else
  if (sz <=? 2)%nat then
    (Z.lor (Z.shiftl (Z.land p0 mask2) 6) (Z.land b1 maskx), 2%nat)
  else
  let b2 := at_ p 2 in
  if (b2 <? locb) || (hicb <? b2) then (RuneError, 1%nat) else
  if (sz <=? 3)%nat then
    (Z.lor (Z.lor (Z.shiftl (Z.land p0 mask3) 12)
                  (Z.shiftl (Z.land b1 maskx) 6))
           (Z.land b2 maskx), 3%nat)
  else
  let b3 := at_ p 3 in
  if (b3 <? locb) || (hicb <? b3) then (RuneError, 1%nat) else
  (Z.lor (Z.lor (Z.lor (Z.shiftl (Z.land p0 mask4) 18)
                       (Z.shiftl (Z.land b1 maskx) 12))
                (Z.shiftl (Z.land b2 maskx) 6))
         (Z.land b3 maskx), 4%nat).

(** [utf8.AppendRune] on an empty destination (the bytes [utf8.EncodeRune]
    writes): [uint32(r)] makes a negative rune larger than [MaxRune]. *)
Definition uint32 (z : Z) : Z := z mod 2 ^ 32.

Definition EncodeRune (r : rune) : bytes :=
  let i := uint32 r in
  if i <=? rune1Max then [byte_of r]
  else if i <=? rune2Max then
    [byte_of (Z.lor t2 (code (byte_of (Z.shiftr r 6))));
     byte_of (Z.lor tx (Z.land (code (byte_of r)) maskx))]
  else
    let r := if (MaxRune <? i) || ((surrogateMin <=? i) && (i <=? surrogateMax))
             then RuneError else r in
    if (MaxRune <? i) || ((surrogateMin <=? i) && (i <=? surrogateMax))
       || (i <=? rune3Max)
    then
      [byte_of (Z.lor t3 (code (byte_of (Z.shiftr r 12))));
       byte_of (Z.lor tx (Z.land (code (byte_of (Z.shiftr r 6))) maskx));
       byte_of (Z.lor tx (Z.land (code (byte_of r)) maskx))]
    else
      [byte_of (Z.lor t4 (code (byte_of (Z.shiftr r 18))));
       byte_of (Z.lor tx (Z.land (code (byte_of (Z.shiftr r 12))) maskx));
       byte_of (Z.lor tx (Z.land (code (byte_of (Z.shiftr r 6))) maskx));
       byte_of (Z.lor tx (Z.land (code (byte_of r)) maskx))].

(** [utf8.Valid]: whether [p] consists entirely of valid UTF-8 encoded
    runes.  The loop advances by the width of the rune just decoded. *)
Equations? Valid (p : bytes) : bool by wf (List.length p) lt :=
  Valid [] := true;
  Valid (b :: rest) :=
    if code b <? RuneSelf then Valid rest
    else
      let '(r, size) := DecodeRune (b :: rest) in
      if (r =? RuneError) && (size =? 1)%nat then false
      else Valid (skipn (size - 1) rest).
Proof.
  all: cbn [List.length];
    first [apply skipn_shorter | apply Nat.lt_succ_diag_r].
Qed.

End utf8.

(* ===================================================================== *)
(** * Errors *)
(* ===================================================================== *)

(** The Go [error] values the programs can meet.  [SyntaxError] and
    [UnmarshalTypeError] come from [encoding/json]; [EOF] is [io.EOF];
    [OpError] stands for any failure reported by the [net] package (refused
    connection, reset by peer, address in use, ...); [Errorf] is an error
    made by [fmt.Errorf]. *)
Inductive error : Type :=
| EOF
| OpError (op : string)
| SyntaxError (c : option byte) (context : string)
| UnmarshalTypeError (Value : string)
| Errorf (msg : string).

(** The value a Go [panic] carries: an [error], or a message of the
    runtime or of a library. *)
Inductive panic_value : Type :=
| PanicError (e : error)
| PanicString (msg : string).

(** How a call ends: it returns, it panics, or the recursion bound of this
    embedding was used up (only the JSON decoder has such a bound, and
    [Unmarshal_fuel] below shows that it is never reached). *)
Inductive res (A : Type) : Type :=
| Ok (a : A)
| Panic (v : panic_value)
| OutOfFuel.
Arguments Ok {A} a.
Arguments Panic {A} v.
Arguments OutOfFuel {A}.

Definition bind {A C : Type} (r : res A) (k : A -> res C) : res C :=
  match r with
  | Ok a => k a
  | Panic v => Panic v
  | OutOfFuel => OutOfFuel
  end.

(* ===================================================================== *)
(** * encoding/json: the scanner ([scanner.go]) *)
(* ===================================================================== *)

Module json.

Import utf8.

(** Results of a scanner step. *)
Inductive opcode : Type :=
| scanContinue      (* uninteresting byte *)
| scanBeginLiteral  (* end implied by next result != scanContinue *)
| scanBeginObject   (* begin object *)
| scanObjectKey     (* just finished object key (string) *)
| scanObjectValue   (* just finished non-last object value *)
| scanEndObject     (* end object (implies scanObjectValue if possible) *)
| scanBeginArray    (* begin array *)
| scanArrayValue    (* just finished array value *)
| scanEndArray      (* end array (implies scanArrayValue if possible) *)
| scanSkipSpace     (* space byte; can skip *)
| scanEnd           (* top-level value ended before this byte *)
| scanError.        (* hit an error, scanner.err *)

Definition opcode_eqb (a b : opcode) : bool :=
  match a, b with
  | scanContinue, scanContinue | scanBeginLiteral, scanBeginLiteral
  | scanBeginObject, scanBeginObject | scanObjectKey, scanObjectKey
  | scanObjectValue, scanObjectValue | scanEndObject, scanEndObject
  | scanBeginArray, scanBeginArray | scanArrayValue, scanArrayValue
  | scanEndArray, scanEndArray | scanSkipSpace, scanSkipSpace
  | scanEnd, scanEnd | scanError, scanError => true
  | _, _ => false
  end.

(** The values stored on the [parseState] stack. *)
Inductive parse : Type :=
| parseObjectKey    (* parsing object key (before colon) *)
| parseObjectValue  (* parsing object value (after colon) *)
| parseArrayValue.  (* parsing array value *)

Definition maxNestingDepth : Z := 10000.

(** The scanner's [step] field is a function value in Go; here it is the
    name of that function, and [call] below dispatches on it. *)
Inductive state : Type :=
| StateBeginValueOrEmpty | StateBeginValue
| StateBeginStringOrEmpty | StateBeginString
| StateEndValue | StateEndTop
| StateInString | StateInStringEsc
| StateInStringEscU | StateInStringEscU1
| StateInStringEscU12 | StateInStringEscU123
| StateNeg | State1 | State0 | StateDot | StateDot0
| StateE | StateESign | StateE0
| StateT | StateTr | StateTru
| StateF | StateFa | StateFal | StateFals
| StateN | StateNu | StateNul
| StateError.

(** The [scanner] struct.  [parseState] is a stack; its top is the head of
    the list.  The [bytes] counter of the Go struct only feeds the offset
    printed in error messages and is left out. *)
Record scanner : Type := mkScanner {
  step : state;
  endTop : bool;
  parseState : list parse;
  err : option error
}.

Definition set_step (s : scanner) (f : state) : scanner :=
  mkScanner f (endTop s) (parseState s) (err s).

Definition set_top (s : scanner) (p : parse) : scanner :=
  mkScanner (step s) (endTop s) (p :: tl (parseState s)) (err s).

(** [s.reset()] *)
Definition reset : scanner := mkScanner StateBeginValue false [] None.

(** [s.error(c, context)]: record an error and switch to the error state. *)
Definition error_ (s : scanner) (c : byte) (context : string)
  : opcode * scanner :=
  (scanError,
   mkScanner StateError (endTop s) (parseState s)
             (Some (SyntaxError (Some c) context))).

(** [s.pushParseState(c, newParseState, successState)] *)
Definition pushParseState (s : scanner) (c : byte) (newParseState : parse)
    (successState : opcode) : opcode * scanner :=
  let s := mkScanner (step s) (endTop s) (newParseState :: parseState s)
                     (err s) in
  if Z.of_nat (List.length (parseState s)) <=? maxNestingDepth
  then (successState, s)
  else error_ s c "exceeded max depth".

(** [s.popParseState()] *)
Definition popParseState (s : scanner) : scanner :=
  let ps := tl (parseState s) in
  match ps with
  | [] => mkScanner StateEndTop true ps (err s)
  | _ :: _ => mkScanner StateEndValue (endTop s) ps (err s)
  end.

Definition between (lo hi c : byte) : bool :=
  (code lo <=? code c) && (code c <=? code hi).

Definition isSpace (c : byte) : bool :=
  (code c <=? code " ") &&
  (beq c " " || beq c "009" || beq c "013" || beq c "010").

(** [stateEndTop]: only space characters may follow the top-level value.
    A non-space byte records the error but the step still returns
    [scanEnd]; the error surfaces on the next call or at [eof]. *)
Definition stateEndTop (s : scanner) (c : byte) : opcode * scanner :=
  if negb (isSpace c)
  then (scanEnd, snd (error_ s c "after top-level value"))
  else (scanEnd, s).

(** [stateEndValue]: the state after completing a value. *)
Definition stateEndValue (s : scanner) (c : byte) : opcode * scanner :=
  match parseState s with
  | [] =>
      (* Completed top-level before the current byte. *)
      stateEndTop (mkScanner StateEndTop true (parseState s) (err s)) c
  | ps :: _ =>
      if isSpace c then (scanSkipSpace, set_step s StateEndValue)
      else match ps with
      | parseObjectKey =>
          if beq c ":" then
            (scanObjectKey,
             set_step (set_top s parseObjectValue) StateBeginValue)
          else error_ s c "after object key"
      | parseObjectValue =>
          if beq c "," then
            (scanObjectValue,
             set_step (set_top s parseObjectKey) StateBeginString)
          else if beq c "}" then (scanEndObject, popParseState s)
          else error_ s c "after object key:value pair"
      | parseArrayValue =>
          if beq c "," then (scanArrayValue, set_step s StateBeginValue)
          else if beq c "]" then (scanEndArray, popParseState s)
          else error_ s c "after array element"
      end
  end.

(** [stateBeginValue]: the state at the beginning of the input. *)
Definition stateBeginValue (s : scanner) (c : byte) : opcode * scanner :=
  if isSpace c then (scanSkipSpace, s)
  else if beq c "{" then
    pushParseState (set_step s StateBeginStringOrEmpty) c
                   parseObjectKey scanBeginObject
  else if beq c "[" then
    pushParseState (set_step s StateBeginValueOrEmpty) c
                   parseArrayValue scanBeginArray
  else if beq c dquote then (scanBeginLiteral, set_step s StateInString)
  else if beq c "-" then (scanBeginLiteral, set_step s StateNeg)
  else if beq c "0" then (scanBeginLiteral, set_step s State0)
  else if beq c "t" then (scanBeginLiteral, set_step s StateT)
  else if beq c "f" then (scanBeginLiteral, set_step s StateF)
  else if beq c "n" then (scanBeginLiteral, set_step s StateN)
  else if between "1" "9" c then (scanBeginLiteral, set_step s State1)
  else error_ s c "looking for beginning of value".

(** [stateBeginValueOrEmpty]: the state after reading `[`. *)
Definition stateBeginValueOrEmpty (s : scanner) (c : byte)
  : opcode * scanner :=
  if isSpace c then (scanSkipSpace, s)
  else if beq c "]" then stateEndValue s c
  else stateBeginValue s c.

(** [stateBeginString]: the state after reading `{"key": value,`. *)
Definition stateBeginString (s : scanner) (c : byte) : opcode * scanner :=
  if isSpace c then (scanSkipSpace, s)
  else if beq c dquote then (scanBeginLiteral, set_step s StateInString)
  else error_ s c "looking for beginning of object key string".

(** [stateBeginStringOrEmpty]: the state after reading `{`. *)
Definition stateBeginStringOrEmpty (s : scanner) (c : byte)
  : opcode * scanner :=
  if isSpace c then (scanSkipSpace, s)
  else if beq c "}" then stateEndValue (set_top s parseObjectValue) c
  else stateBeginString s c.

(** [stateInString]: the state after reading a quote. *)
Definition stateInString (s : scanner) (c : byte) : opcode * scanner :=
  if beq c dquote then (scanContinue, set_step s StateEndValue)
  else if beq c backslash then (scanContinue, set_step s StateInStringEsc)
  else if code c <? 0x20 then error_ s c "in string literal"
  else (scanContinue, s).

(** [stateInStringEsc]: the state after reading a backslash in a string. *)
Definition stateInStringEsc (s : scanner) (c : byte) : opcode * scanner :=
  if beq c "b" || beq c "f" || beq c "n" || beq c "r" || beq c "t"
     || beq c backslash || beq c "/" || beq c dquote
  then (scanContinue, set_step s StateInString)
  else if beq c "u" then (scanContinue, set_step s StateInStringEscU)
  else error_ s c "in string escape code".

Definition isHex (c : byte) : bool :=
  between "0" "9" c || between "a" "f" c || between "A" "F" c.

(** [stateInStringEscU], [..U1], [..U12], [..U123]: the states after
    reading `\u` and zero to three hexadecimal digits. *)
Definition stateInStringEscU_ (next : state) (s : scanner) (c : byte)
  : opcode * scanner :=
  if isHex c then (scanContinue, set_step s next)
  else error_ s c "in \u hexadecimal character escape".

Definition stateInStringEscU := stateInStringEscU_ StateInStringEscU1.
Definition stateInStringEscU1 := stateInStringEscU_ StateInStringEscU12.
Definition stateInStringEscU12 := stateInStringEscU_ StateInStringEscU123.
Definition stateInStringEscU123 := stateInStringEscU_ StateInString.

(** [stateNeg]: the state after reading `-` during a number. *)
Definition stateNeg (s : scanner) (c : byte) : opcode * scanner :=
  if beq c "0" then (scanContinue, set_step s State0)
  else if between "1" "9" c then (scanContinue, set_step s State1)
  else error_ s c "in numeric literal".

(** [state0]: the state after reading `0` during a number. *)
Definition state0 (s : scanner) (c : byte) : opcode * scanner :=
  if beq c "." then (scanContinue, set_step s StateDot)
  else if beq c "e" || beq c "E" then (scanContinue, set_step s StateE)
  else stateEndValue s c.

(** [state1]: the state after reading a non-zero integer during a number. *)
Definition state1 (s : scanner) (c : byte) : opcode * scanner :=
  if between "0" "9" c then (scanContinue, set_step s State1)
  else state0 s c.

(** [stateDot]: the state after reading the integer and decimal point. *)
Definition stateDot (s : scanner) (c : byte) : opcode * scanner :=
  if between "0" "9" c then (scanContinue, set_step s StateDot0)
  else error_ s c "after decimal point in numeric literal".

(** [stateDot0]: the state after reading a digit after the point. *)
Definition stateDot0 (s : scanner) (c : byte) : opcode * scanner :=
  if between "0" "9" c then (scanContinue, s)
  else if beq c "e" || beq c "E" then (scanContinue, set_step s StateE)
  else stateEndValue s c.

(** [stateESign]: the state after reading the mantissa, e, and sign. *)
Definition stateESign (s : scanner) (c : byte) : opcode * scanner :=
  if between "0" "9" c then (scanContinue, set_step s StateE0)
  else error_ s c "in exponent of numeric literal".

(** [stateE]: the state after reading the mantissa and e. *)
Definition stateE (s : scanner) (c : byte) : opcode * scanner :=
  if beq c "+" || beq c "-" then (scanContinue, set_step s StateESign)
  else stateESign s c.

(** [stateE0]: the state after reading mantissa, e, optional sign and at
    least one digit of the exponent. *)
Definition stateE0 (s : scanner) (c : byte) : opcode * scanner :=
  if between "0" "9" c then (scanContinue, s)
  else stateEndValue s c.

(** The states inside the literals [true], [false] and [null]: one
    expected letter each. *)
Definition stateLit (expect : byte) (next : state) (context : string)
    (s : scanner) (c : byte) : opcode * scanner :=
  if beq c expect then (scanContinue, set_step s next)
  else error_ s c context.

Definition stateT := stateLit "r" StateTr "in literal true (expecting 'r')".
Definition stateTr := stateLit "u" StateTru "in literal true (expecting 'u')".
Definition stateTru :=
  stateLit "e" StateEndValue "in literal true (expecting 'e')".
Definition stateF := stateLit "a" StateFa "in literal false (expecting 'a')".
Definition stateFa := stateLit "l" StateFal "in literal false (expecting 'l')".
Definition stateFal :=
  stateLit "s" StateFals "in literal false (expecting 's')".
Definition stateFals :=
  stateLit "e" StateEndValue "in literal false (expecting 'e')".
Definition stateN := stateLit "u" StateNu "in literal null (expecting 'u')".
Definition stateNu := stateLit "l" StateNul "in literal null (expecting 'l')".
Definition stateNul :=
  stateLit "l" StateEndValue "in literal null (expecting 'l')".

(** [stateError]: the state after reaching a syntax error. *)
Definition stateError (s : scanner) (c : byte) : opcode * scanner :=
  (scanError, s).

(** [s.step(s, c)]: call the function the [step] field names. *)
Definition call (s : scanner) (c : byte) : opcode * scanner :=
  match step s with
  | StateBeginValueOrEmpty => stateBeginValueOrEmpty s c
  | StateBeginValue => stateBeginValue s c
  | StateBeginStringOrEmpty => stateBeginStringOrEmpty s c
  | StateBeginString => stateBeginString s c
  | StateEndValue => stateEndValue s c
  | StateEndTop => stateEndTop s c
  | StateInString => stateInString s c
  | StateInStringEsc => stateInStringEsc s c
  | StateInStringEscU => stateInStringEscU s c
  | StateInStringEscU1 => stateInStringEscU1 s c
  | StateInStringEscU12 => stateInStringEscU12 s c
  | StateInStringEscU123 => stateInStringEscU123 s c
  | StateNeg => stateNeg s c
  | State1 => state1 s c
  | State0 => state0 s c
  | StateDot => stateDot s c
  | StateDot0 => stateDot0 s c
  | StateE => stateE s c
  | StateESign => stateESign s c
  | StateE0 => stateE0 s c
  | StateT => stateT s c
  | StateTr => stateTr s c
  | StateTru => stateTru s c
  | StateF => stateF s c
  | StateFa => stateFa s c
  | StateFal => stateFal s c
  | StateFals => stateFals s c
  | StateN => stateN s c
  | StateNu => stateNu s c
  | StateNul => stateNul s c
  | StateError => stateError s c
  end.

(** [s.eof()]: tell the scanner that the end of input has been reached. *)
Definition eof (s : scanner) : opcode * scanner :=
  match err s with
  | Some _ => (scanError, s)
  | None =>
      if endTop s then (scanEnd, s)
      else
        let s := snd (call s " ") in
        if endTop s then (scanEnd, s)
        else match err s with
             | None =>
                 (scanError,
                  mkScanner (step s) (endTop s) (parseState s)
                    (Some (SyntaxError None "unexpected end of JSON input")))
             | Some _ => (scanError, s)
             end
  end.

(** The loop of [checkValid]: feed every byte to the scanner and stop at
    the first [scanError]. *)
Fixpoint checkValid_loop (data : bytes) (scan : scanner)
  : option error + scanner :=
  match data with
  | [] => inr scan
  | c :: data' =>
      let '(op, scan) := call scan c in
      if opcode_eqb op scanError then inl (err scan)
      else checkValid_loop data' scan
  end.

(** [checkValid(data, scan)]: whether [data] is a valid JSON encoded value;
    [None] is Go's [nil] error. *)
Definition checkValid (data : bytes) : option error :=
  match checkValid_loop data reset with
  | inl e => e
  | inr scan =>
      let '(op, scan) := eof scan in
      if opcode_eqb op scanError then err scan else None
  end.

(* ===================================================================== *)
(** * encoding/json: the encoder ([encode.go], [tables.go]) *)
(* ===================================================================== *)

(** The struct both JSON programs declare:
    [type Message struct { User string `json:"user"`; Text string `json:"text"` }] *)
Record Message : Type := mkMessage { User : bytes; Text : bytes }.

(** The two fields of [Message], and what [reflect] does with them. *)
Inductive field : Type := FUser | FText.

Definition name (f : field) : bytes :=
  match f with FUser => B "user" | FText => B "text" end.

Definition get (f : field) (m : Message) : bytes :=
  match f with FUser => User m | FText => Text m end.

Definition set (f : field) (m : Message) (v : bytes) : Message :=
  match f with
  | FUser => mkMessage v (Text m)
  | FText => mkMessage (User m) v
  end.

(** The field list [cachedTypeFields] computes for [Message], in
    declaration order. *)
Definition fields : list field := [FUser; FText].

(** [safeSet[b]]: the ASCII characters that need no escaping in a JSON
    string: everything printable except the double quote and the
    backslash. *)
Definition safeSet (b : byte) : bool :=
  (0x20 <=? code b) && (code b <? 0x80)
  && negb (beq b dquote) && negb (beq b backslash).

(** [htmlSafeSet[b]]: as [safeSet], and also without [<], [>] and [&]. *)
Definition htmlSafeSet (b : byte) : bool :=
  safeSet b && negb (beq b "<") && negb (beq b ">") && negb (beq b "&").

(** [hex[i]] for [hex = "0123456789abcdef"]. *)
Definition hex (i : Z) : byte := nth (Z.to_nat i) (B "0123456789abcdef") zero.

(** The body of the loop of [appendString(dst, src, escapeHTML)]: the bytes
    written between the two quotes.  Bytes that need no escaping are
    copied; in Go that happens in runs ([dst = append(dst, src[start:i]...)]),
    here byte by byte. *)
Equations? appendString_loop (escapeHTML : bool) (src : bytes) : bytes
  by wf (List.length src) lt :=
  appendString_loop _ [] := [];
  appendString_loop escapeHTML (b :: rest) :=
    if code b <? RuneSelf then
      if htmlSafeSet b || (negb escapeHTML && safeSet b) then
        b :: appendString_loop escapeHTML rest
      else
        (if beq b backslash || beq b dquote then [backslash; b]
         else if beq b "008" then B "\b"
         else if beq b "012" then B "\f"
         else if beq b "010" then B "\n"
         else if beq b "013" then B "\r"
         else if beq b "009" then B "\t"
         else
           (* This encodes bytes < 0x20 except for \b, \f, \n, \r and \t.
              If escapeHTML is set, it also escapes <, >, and &. *)
           B "\u00" ++ [hex (Z.shiftr (code b) 4); hex (Z.land (code b) 0xF)])
        ++ appendString_loop escapeHTML rest
    else
      let '(c, size) := DecodeRune (firstn UTFMax (b :: rest)) in
      if (c =? RuneError) && (size =? 1)%nat then
        B "\ufffd" ++ appendString_loop escapeHTML rest
      else if (c =? 0x2028) || (c =? 0x2029) then
        (* U+2028 is LINE SEPARATOR, U+2029 is PARAGRAPH SEPARATOR. *)
        (B "\u202" ++ [hex (Z.land c 0xF)])
        ++ appendString_loop escapeHTML (skipn (size - 1) rest)
      else
        firstn size (b :: rest)
        ++ appendString_loop escapeHTML (skipn (size - 1) rest).
Proof.
  all: cbn [List.length];
    first [apply skipn_shorter | apply Nat.lt_succ_diag_r].
Qed.

(** [appendString(nil, src, escapeHTML)] *)
Definition appendString (src : bytes) (escapeHTML : bool) : bytes :=
  [dquote] ++ appendString_loop escapeHTML src ++ [dquote].

(** [f.nameEscHTML]: the quoted field name followed by a colon. *)
Definition nameEscHTML (f : field) : bytes :=
  [dquote] ++ name f ++ [dquote] ++ B ":".

(** The loop of [structEncoder.encode]: [next] is the separator to write
    before the next field, an opening brace for the first one. *)
Fixpoint structEncoder_loop (fs : list field) (next : byte) (v : Message)
    (escapeHTML : bool) : bytes * byte :=
  match fs with
  | [] => ([], next)
  | f :: fs' =>
      let '(out, next') := structEncoder_loop fs' "," v escapeHTML in
      ([next] ++ nameEscHTML f ++ appendString (get f v) escapeHTML ++ out,
       next')
  end.

Definition structEncoder (v : Message) (escapeHTML : bool) : bytes :=
  let '(out, next) := structEncoder_loop fields "{" v escapeHTML in
  if beq next "{" then B "{}" else out ++ B "}".

(** [json.Marshal(v)] for a [Message]: the encoder escapes HTML and cannot
    fail on a struct of strings, so the error is always [nil]. *)
Definition Marshal (v : Message) : bytes * option error :=
  (structEncoder v true, None).

(* ===================================================================== *)
(** * encoding/json: the decoder ([decode.go], [fold.go]) *)
(* ===================================================================== *)

(** ** unicode/utf16 *)

Definition surr1 : Z := 0xd800.
Definition surr2 : Z := 0xdc00.
Definition surr3 : Z := 0xe000.
Definition surrSelf : Z := 0x10000.
Definition ReplacementChar : rune := 0xFFFD.

(** [utf16.IsSurrogate(r)] *)
Definition utf16_IsSurrogate (r : rune) : bool := (surr1 <=? r) && (r <? surr3).

(** [utf16.DecodeRune(r1, r2)]: the code point of a surrogate pair, or
    U+FFFD when the pair is not valid. *)
Definition utf16_DecodeRune (r1 r2 : rune) : rune :=
  if (surr1 <=? r1) && (r1 <? surr2) && (surr2 <=? r2) && (r2 <? surr3)
  then Z.lor (Z.shiftl (r1 - surr1) 10) (r2 - surr2) + surrSelf
  else ReplacementChar.

(** ** Unquoting a JSON string literal *)

Fixpoint getu4_loop (cs : bytes) (r : rune) : rune :=
  match cs with
  | [] => r
  | c :: cs' =>
      if between "0" "9" c then
        getu4_loop cs' (r * 16 + (code c - code "0"))
      else if between "a" "f" c then
        getu4_loop cs' (r * 16 + (code c - code "a" + 10))
      else if between "A" "F" c then
        getu4_loop cs' (r * 16 + (code c - code "A" + 10))
      else -1
  end.

(** [getu4(s)]: decode [\uXXXX] from the beginning of [s], returning the
    hex value, or -1. *)
Definition getu4 (s : bytes) : rune :=
  if (List.length s <? 6)%nat
     || negb (beq (nth 0 s zero) backslash)
     || negb (beq (nth 1 s zero) "u")
  then -1
  else getu4_loop (firstn 4 (skipn 2 s)) 0.

(** The first loop of [unquoteBytes]: the index of the first "unusual"
    byte (backslash, quote, control character, invalid UTF-8), or the
    length of [s] when there is none. *)
Equations? unquote_scan (s : bytes) : nat by wf (List.length s) lt :=
  unquote_scan [] := 0%nat;
  unquote_scan (c :: rest) :=
    if beq c backslash || beq c dquote || (code c <? code " ") then 0%nat
    else if code c <? RuneSelf then S (unquote_scan rest)
    else
      let '(rr, size) := DecodeRune (c :: rest) in
      if (rr =? RuneError) && (size =? 1)%nat then 0%nat
      else (size + unquote_scan (skipn (size - 1) rest))%nat.
Proof.
  all: cbn [List.length];
    first [apply skipn_shorter | apply Nat.lt_succ_diag_r].
Qed.

(** The second loop of [unquoteBytes]: decode escapes and coerce the rest
    to well-formed UTF-8.  [None] is the [ok = false] result. *)
Equations? unquote_loop (s : bytes) : option bytes
  by wf (List.length s) lt :=
  unquote_loop [] := Some [];
  unquote_loop (c :: rest) :=
    if beq c backslash then
      if (List.length rest <? 1)%nat then None else
      let e := nth 0 rest zero in
      if beq e dquote || beq e backslash || beq e "/" || beq e "'" then
        option_map (cons e) (unquote_loop (skipn 1 rest))
      else if beq e "b" then
        option_map (cons "008"%char) (unquote_loop (skipn 1 rest))
      else if beq e "f" then
        option_map (cons "012"%char) (unquote_loop (skipn 1 rest))
      else if beq e "n" then
        option_map (cons "010"%char) (unquote_loop (skipn 1 rest))
      else if beq e "r" then
        option_map (cons "013"%char) (unquote_loop (skipn 1 rest))
      else if beq e "t" then
        option_map (cons "009"%char) (unquote_loop (skipn 1 rest))
      else if beq e "u" then
        let rr := getu4 (c :: rest) in
        if rr <? 0 then None else
        if utf16_IsSurrogate rr then
          let rr1 := getu4 (skipn 5 rest) in
          let dec := utf16_DecodeRune rr rr1 in
          if negb (dec =? ReplacementChar) then
            (* A valid pair; consume. *)
            option_map (app (EncodeRune dec)) (unquote_loop (skipn 11 rest))
          else
            (* Invalid surrogate; fall back to replacement rune. *)
            option_map (app (EncodeRune ReplacementChar))
                       (unquote_loop (skipn 5 rest))
        else
          option_map (app (EncodeRune rr)) (unquote_loop (skipn 5 rest))
      else None
    else if beq c dquote || (code c <? code " ") then
      (* Quote, control characters are invalid. *)
      None
    else if code c <? RuneSelf then
      (* ASCII *)
      option_map (cons c) (unquote_loop rest)
    else
      (* Coerce to well-formed UTF-8. *)
      let '(rr, size) := DecodeRune (c :: rest) in
      option_map (app (EncodeRune rr)) (unquote_loop (skipn (size - 1) rest)).
Proof.
  all: first [ apply skipn_shorter | apply Nat.lt_succ_diag_r
             | exact (skipn_shorter 1 rest) | exact (skipn_shorter 5 rest)
             | exact (skipn_shorter 11 rest) ].
Qed.

(** [unquoteBytes(s)]: the contents of the quoted string literal [s]. *)
Definition unquoteBytes (s : bytes) : option bytes :=
  if (List.length s <? 2)%nat
     || negb (beq (nth 0 s zero) dquote)
     || negb (beq (nth (List.length s - 1) s zero) dquote)
  then None
  else
    let s := firstn (List.length s - 2) (skipn 1 s) in
    let r := unquote_scan s in
    if (r =? List.length s)%nat then Some s
    else option_map (app (firstn r s)) (unquote_loop (skipn r s)).

(** ** Case folding of object keys ([fold.go]) *)

(** [foldRune(r)]: the smallest rune among those that fold to the same
    rune as [r].  Go computes it by iterating [unicode.SimpleFold] over the
    case tables of the [unicode] package; the tables are data of the Go
    distribution, so the function is a parameter of the decoder. *)
Class CaseTables : Type := { foldRune : rune -> rune }.

Fixpoint bytes_eqb (a b : bytes) : bool :=
  match a, b with
  | [], [] => true
  | x :: a', y :: b' => beq x y && bytes_eqb a' b'
  | _, _ => false
  end.

Section Decoder.

Context {tables : CaseTables}.

(** [foldName(in)]: a folded name such that [foldName(x) == foldName(y)]
    exactly when [x] and [y] are equal under Unicode case folding. *)
Equations? foldName (s : bytes) : bytes by wf (List.length s) lt :=
  foldName [] := [];
  foldName (c :: rest) :=
    if code c <? RuneSelf then
      (* Handle single-byte ASCII. *)
      (if between "a" "z" c
       then byte_of (code c - (code "a" - code "A")) else c)
      :: foldName rest
    else
      (* Handle multi-byte Unicode. *)
      let '(r, n) := DecodeRune (c :: rest) in
      EncodeRune (foldRune r) ++ foldName (skipn (n - 1) rest).
Proof.
  all: cbn [List.length];
    first [apply skipn_shorter | apply Nat.lt_succ_diag_r].
Qed.

(** The field a key names: [fields.byExactName[key]], and when there is
    none [fields.byFoldedName[foldName(key)]]. *)
Definition lookup (key : bytes) : option field :=
  match find (fun f => bytes_eqb (name f) key) fields with
  | Some f => Some f
  | None =>
      find (fun f => bytes_eqb (foldName (name f)) (foldName key)) fields
  end.

(** ** The decoder state *)

(** The [reflect.Value] a JSON value is decoded into: the [Message] struct
    itself, one of its string fields, or the invalid Value that makes the
    decoder skip the input value. *)
Inductive target : Type :=
| TStruct
| TField (f : field)
| TInvalid.

Definition IsValid (v : target) : bool :=
  match v with TInvalid => false | _ => true end.

(** [decodeState]: [unread] is [d.data[d.off:]], the bytes not yet given
    to the scanner, and [last] is [d.data[d.off-1]], the byte that produced
    [opcode]. *)
Record decodeState : Type := mkDecodeState {
  unread : bytes;
  last : byte;
  opcode_ : opcode;
  scan : scanner;
  savedError : option error
}.

Definition phasePanicMsg : string :=
  "JSON decoder out of sync - data changing underfoot?".

(** [d.init(data)] *)
Definition init (data : bytes) : decodeState :=
  mkDecodeState data zero scanContinue reset None.

(** [d.saveError(err)]: keep the first error. *)
Definition saveError (d : decodeState) (e : error) : decodeState :=
  match savedError d with
  | None => mkDecodeState (unread d) (last d) (opcode_ d) (scan d) (Some e)
  | Some _ => d
  end.

(** [d.scanNext()]: process the byte at [d.off]. *)
Definition scanNext (d : decodeState) : decodeState :=
  match unread d with
  | c :: u =>
      let '(op, sc) := call (scan d) c in
      mkDecodeState u c op sc (savedError d)
  | [] =>
      let '(op, sc) := eof (scan d) in
      mkDecodeState [] (last d) op sc (savedError d)
  end.

Fixpoint scanWhile_loop (op : opcode) (sc : scanner) (u : bytes) (l : byte)
  : bytes * byte * opcode * scanner :=
  match u with
  | [] => let '(o, sc) := eof sc in ([], l, o, sc)
  | c :: u' =>
      let '(newOp, sc) := call sc c in
      if negb (opcode_eqb newOp op) then (u', c, newOp, sc)
      else scanWhile_loop op sc u' c
  end.

(** [d.scanWhile(op)]: process bytes until the scanner returns a code
    other than [op]. *)
Definition scanWhile (op : opcode) (d : decodeState) : decodeState :=
  let '(u, l, o, sc) := scanWhile_loop op (scan d) (unread d) (last d) in
  mkDecodeState u l o sc (savedError d).

Fixpoint skip_loop (depth : nat) (sc : scanner) (u : bytes)
  : option (bytes * byte * opcode * scanner) :=
  match u with
  | [] => None
  | c :: u' =>
      let '(op, sc) := call sc c in
      if (List.length (parseState sc) <? depth)%nat then Some (u', c, op, sc)
      else skip_loop depth sc u'
  end.

(** [d.skip()]: scan to the end of what was started. *)
Definition skip (d : decodeState) : res decodeState :=
  match skip_loop (List.length (parseState (scan d))) (scan d) (unread d) with
  | Some (u, l, op, sc) => Ok (mkDecodeState u l op sc (savedError d))
  | None => Panic (PanicString "index out of range")
  end.

(** The string case of [rescanLiteral]: the bytes up to and including the
    closing quote, and the bytes after it.  A backslash makes the loop
    step over the next byte. *)
Fixpoint rescan_string (u : bytes) : bytes * bytes :=
  match u with
  | [] => ([], [])
  | c :: u' =>
      if beq c backslash then
        match u' with
        | [] => ([c], [])
        | e :: u'' =>
            let '(lit, after) := rescan_string u'' in (c :: e :: lit, after)
        end
      else if beq c dquote then ([c], u')
      else let '(lit, after) := rescan_string u' in (c :: lit, after)
  end.

(** The number case of [rescanLiteral]. *)
Fixpoint rescan_number (u : bytes) : bytes * bytes :=
  match u with
  | [] => ([], [])
  | c :: u' =>
      if between "0" "9" c || beq c "." || beq c "e" || beq c "E"
         || beq c "+" || beq c "-"
      then let '(lit, after) := rescan_number u' in (c :: lit, after)
      else ([], u)
  end.

(** [d.rescanLiteral()]: a literal has just been begun by the byte [last];
    find its end without the scanner.  Returns the literal
    [d.data[start:d.readIndex()]] along with the new state. *)
Definition rescanLiteral (d : decodeState) : bytes * decodeState :=
  let c := last d in
  let '(lit, after) :=
    if beq c dquote then rescan_string (unread d)
    else if between "0" "9" c || beq c "-" then rescan_number (unread d)
    else if beq c "t" then (firstn 3 (unread d), skipn 3 (unread d))
    else if beq c "f" then (firstn 4 (unread d), skipn 4 (unread d))
    else if beq c "n" then (firstn 3 (unread d), skipn 3 (unread d))
    else ([], unread d) in
  match after with
  | c' :: u =>
      let '(op, sc) := stateEndValue (scan d) c' in
      (c :: lit, mkDecodeState u c' op sc (savedError d))
  | [] =>
      (c :: lit, mkDecodeState [] (last d) scanEnd (scan d) (savedError d))
  end.

(** [d.literalStore(item, v, false)]: decode a literal stored in [item]
    into [v], which is the struct or one of its string fields. *)
Definition literalStore (item : bytes) (v : target) (d : decodeState)
    (m : Message) : res (decodeState * Message) :=
  match item with
  | [] =>
      (* Empty string given. *)
      Ok (saveError d (Errorf "json: invalid use of ,string struct tag"), m)
  | c :: _ =>
      if beq c "n" then
        (* null: ignored for a struct and for a string *)
        Ok (d, m)
      else if beq c "t" || beq c "f" then
        Ok (saveError d (UnmarshalTypeError "bool"), m)
      else if beq c dquote then
        match unquoteBytes item with
        | None => Panic (PanicString phasePanicMsg)
        | Some s =>
            match v with
            | TField f => Ok (d, set f m s)
            | _ => Ok (saveError d (UnmarshalTypeError "string"), m)
            end
        end
      else if negb (beq c "-") && negb (between "0" "9" c) then
        Panic (PanicString phasePanicMsg)
      else Ok (saveError d (UnmarshalTypeError "number"), m)
  end.

(** [d.array(v)] for the kinds of [v] that occur here: none of them is an
    array or a slice, so the error is recorded and the array skipped. *)
Definition array (v : target) (d : decodeState) : res decodeState :=
  skip (saveError d (UnmarshalTypeError "array")).

Notation "x <- r ;; k" := (bind r (fun x => k))
  (at level 61, r at next level, right associativity).
Notation "' p <- r ;; k" := (bind r (fun x => let p := x in k))
  (at level 61, p pattern, r at next level, right associativity).

Definition skipSpace (d : decodeState) : decodeState :=
  if opcode_eqb (opcode_ d) scanSkipSpace
  then scanWhile scanSkipSpace d else d.

(** [d.value(v)], [d.object(v)] and the loop of [d.object]: consume a JSON
    value from the data and store it into [v].  [fuel] bounds the depth of
    the calls. *)
Fixpoint value (fuel : nat) (v : target) (d : decodeState) (m : Message)
  : res (decodeState * Message) :=
  match fuel with
  | O => OutOfFuel
  | S fuel =>
      match opcode_ d with
      | scanBeginArray =>
          d <- (if IsValid v then array v d else skip d) ;;
          Ok (scanNext d, m)
      | scanBeginObject =>
          '(d, m) <- (if IsValid v then object fuel v d m
                       else d <- skip d ;; Ok (d, m)) ;;
          Ok (scanNext d, m)
      | scanBeginLiteral =>
          (* All bytes inside literal return scanContinue op code. *)
          let '(item, d) := rescanLiteral d in
          if IsValid v then literalStore item v d m else Ok (d, m)
      | _ => Panic (PanicString phasePanicMsg)
      end
  end

with object (fuel : nat) (v : target) (d : decodeState) (m : Message)
  : res (decodeState * Message) :=
  match fuel with
  | O => OutOfFuel
  | S fuel =>
      match v with
      | TStruct => object_loop fuel d m
      | _ =>
          d <- skip (saveError d (UnmarshalTypeError "object")) ;;
          Ok (d, m)
      end
  end

with object_loop (fuel : nat) (d : decodeState) (m : Message)
  : res (decodeState * Message) :=
  match fuel with
  | O => OutOfFuel
  | S fuel =>
      (* Read opening quote of string key or closing brace. *)
      let d := scanWhile scanSkipSpace d in
      if opcode_eqb (opcode_ d) scanEndObject then
        (* closing brace - can only happen on first iteration. *)
        Ok (d, m)
      else if negb (opcode_eqb (opcode_ d) scanBeginLiteral) then
        Panic (PanicString phasePanicMsg)
      else
      (* Read key. *)
      let '(item, d) := rescanLiteral d in
      match unquoteBytes item with
      | None => Panic (PanicString phasePanicMsg)
      | Some key =>
          (* Figure out field corresponding to key. *)
          let subv :=
            match lookup key with
            | Some f => TField f
            | None => TInvalid
            end in
          (* Read : before value. *)
          let d := skipSpace d in
          if negb (opcode_eqb (opcode_ d) scanObjectKey) then
            Panic (PanicString phasePanicMsg)
          else
          let d := scanWhile scanSkipSpace d in
          '(d, m) <- value fuel subv d m ;;
          (* Next token must be , or closing brace. *)
          let d := skipSpace d in
          if opcode_eqb (opcode_ d) scanEndObject then Ok (d, m)
          else if negb (opcode_eqb (opcode_ d) scanObjectValue) then
            Panic (PanicString phasePanicMsg)
          else object_loop fuel d m
      end
  end.

(** [d.unmarshal(v)] for [v] a non-nil [*Message]. *)
Definition unmarshal (fuel : nat) (d : decodeState) (m : Message)
  : res (Message * option error) :=
  let d := mkDecodeState (unread d) (last d) (opcode_ d) reset
                         (savedError d) in
  let d := scanWhile scanSkipSpace d in
  '(d, m) <- value fuel TStruct d m ;;
  Ok (m, savedError d).

(** [json.Unmarshal(data, &m)]: check well-formedness first, so that no
    part of [m] is written when the input is not valid JSON.  The result
    is the value of [m] afterwards and the error returned. *)
Definition Unmarshal (data : bytes) (m : Message)
  : res (Message * option error) :=
  match checkValid data with
  | Some e => Ok (m, Some e)
  | None => unmarshal (4 + List.length data) (init data) m
  end.

End Decoder.

End json.

(* ===================================================================== *)
(** * The world of a program: net, bufio, fmt *)
(* ===================================================================== *)

(** ** The environment *)

(** What the other end of a connection does: the address it connects
    from, the chunks of bytes it sends (each chunk is what one [Read] of
    the connection finds available), the error that ends the stream
    ([EOF] when the peer closes the connection), and the results of the
    successive [Write] calls on the connection ([None] for success; writes
    beyond the list succeed). *)
Record Peer : Type := mkPeer {
  peer_addr : bytes;
  peer_sends : list bytes;
  peer_end : error;
  peer_acks : list (option error)
}.

(** What the operating system answers: to [net.Listen], to the successive
    calls of [Accept] (counted from 0), and to [net.Dial]. *)
Record Env : Type := mkEnv {
  listen_result : option error;
  accept_result : nat -> error + Peer;
  dial_result : error + Peer
}.

(** ** The state *)

(** A [net.Conn] is the index of its state in the world. *)
Definition Conn : Type := nat.
Bind Scope nat_scope with Conn.

Record ConnState : Type := mkConnState {
  remote : bytes;              (* conn.RemoteAddr() *)
  pending : list bytes;        (* chunks sent by the peer and not yet read *)
  read_end : error;            (* what Read returns after the last chunk *)
  write_results : list (option error);
  delivered : list bytes       (* the data of the successful writes *)
}.

(** What a program does, as seen from outside, in the order of time. *)
Inductive event : Type :=
| EvListen (addr : bytes) (err : option error)
| EvAccept (c : Conn) (err : option error)
| EvDial (addr : bytes) (c : Conn) (err : option error)
| EvRead (c : Conn) (data : bytes) (err : option error)
| EvReadString (c : Conn) (line : bytes) (err : option error)
| EvWrite (c : Conn) (data : bytes)
| EvClose (c : Conn)
| EvCloseListener
| EvPrint (out : bytes).

Record World : Type := mkWorld {
  conns : list ConnState;
  accepts : nat;               (* number of calls of Accept so far *)
  trace : list event
}.

Definition start : World := mkWorld [] 0 [].

(** A Go function body: it runs in a world, changes it, and returns,
    panics (or runs out of fuel, see [res]). *)
Definition M (A : Type) : Type := World -> res A * World.

Definition ret {A : Type} (a : A) : M A := fun w => (Ok a, w).

Definition bindM {A C : Type} (m : M A) (k : A -> M C) : M C :=
  fun w =>
    match m w with
    | (Ok a, w') => k a w'
    | (Panic v, w') => (Panic v, w')
    | (OutOfFuel, w') => (OutOfFuel, w')
    end.

(** [panic(v)] *)
Definition panic {A : Type} (v : panic_value) : M A := fun w => (Panic v, w).

(** [defer d] followed by [body]: the deferred call runs when the body
    returns and also when it panics; the panic then goes on. *)
Definition defer {A : Type} (d : M unit) (body : M A) : M A :=
  fun w =>
    let '(r, w') := body w in
    let '(_, w'') := d w' in
    (r, w'').

Declare Scope go_scope.
Delimit Scope go_scope with go.
Notation "x <- m ;; k" := (bindM m (fun x => k))
  (at level 61, m at next level, right associativity) : go_scope.
Notation "' p <- m ;; k" := (bindM m (fun x => let p := x in k))
  (at level 61, p pattern, m at next level, right associativity) : go_scope.
Notation "m ;; k" := (bindM m (fun _ => k))
  (at level 61, right associativity) : go_scope.

Definition log (e : event) : M unit :=
  fun w => (Ok tt, mkWorld (conns w) (accepts w) (trace w ++ [e])).

Definition closed_conn : ConnState :=
  mkConnState [] [] (OpError "use of closed network connection") [] [].

Definition conn_state (c : Conn) (w : World) : ConnState :=
  nth c (conns w) closed_conn.

Fixpoint update {A : Type} (i : nat) (x : A) (l : list A) : list A :=
  match l, i with
  | [], _ => []
  | _ :: l', O => x :: l'
  | y :: l', S i' => y :: update i' x l'
  end.

Definition set_conn (c : Conn) (st : ConnState) : M unit :=
  fun w => (Ok tt, mkWorld (update c st (conns w)) (accepts w) (trace w)).

Definition open_conn (p : Peer) : M Conn :=
  fun w =>
    (Ok (List.length (conns w)),
     mkWorld (conns w ++ [mkConnState (peer_addr p) (peer_sends p)
                                      (peer_end p) (peer_acks p) []])
             (accepts w) (trace w)).

(** ** net *)

Section Net.

Variable env : Env.

(** [net.Listen("tcp", addr)]: the error, [None] for [nil]. *)
Definition Listen (addr : bytes) : M (option error) :=
  (log (EvListen addr (listen_result env)) ;;
   ret (listen_result env))%go.

(** [ln.Close()] *)
Definition ln_Close : M unit := log EvCloseListener.

(** [ln.Accept()]: waits for and returns the next connection to the
    listener. *)
Definition Accept : M (Conn * option error) :=
  fun w =>
    let w1 := mkWorld (conns w) (S (accepts w)) (trace w) in
    match accept_result env (accepts w) with
    | inl e => (log (EvAccept 0%nat (Some e)) ;; ret (0%nat, Some e))%go w1
    | inr p =>
        (c <- open_conn p ;; log (EvAccept c None) ;; ret (c, None))%go w1
    end.

(** [net.Dial("tcp", addr)] *)
Definition Dial (addr : bytes) : M (Conn * option error) :=
  match dial_result env with
  | inl e => (log (EvDial addr 0%nat (Some e)) ;; ret (0%nat, Some e))%go
  | inr p =>
      (c <- open_conn p ;; log (EvDial addr c None) ;; ret (c, None))%go
  end.

End Net.

(** [conn.RemoteAddr()] *)
Definition RemoteAddr (c : Conn) : M bytes :=
  fun w => (Ok (remote (conn_state c w)), w).

(** [conn.Read(buf)]: reads what is available, at most [len(buf)] bytes,
    into the beginning of [buf].  Returns the number of bytes read, the
    buffer afterwards and the error. *)
Definition Read (c : Conn) (buf : bytes) : M (nat * bytes * option error) :=
  fun w =>
    let st := conn_state c w in
    match pending st with
    | [] =>
        (log (EvRead c [] (Some (read_end st))) ;;
         ret (0%nat, buf, Some (read_end st)))%go w
    | chunk :: later =>
        let data := firstn (List.length buf) chunk in
        let left := skipn (List.length buf) chunk in
        let n := List.length data in
        (set_conn c (mkConnState (remote st)
                       (match left with [] => later | _ => left :: later end)
                       (read_end st) (write_results st) (delivered st)) ;;
         log (EvRead c data None) ;;
         ret (n, data ++ skipn n buf, None))%go w
    end.

(** [conn.Write(data)]: the number of bytes written and the error.  A
    write that fails is taken to fail before any byte goes out, as on a
    connection that the peer has closed or reset: it returns 0 and the
    error.  None of the four programs looks at the count.  [delivered]
    collects the data of the writes that returned no error. *)
Definition Write (c : Conn) (data : bytes) : M (nat * option error) :=
  fun w =>
    let st := conn_state c w in
    match write_results st with
    | Some e :: later =>
        (set_conn c (mkConnState (remote st) (pending st) (read_end st)
                                 later (delivered st)) ;;
         log (EvWrite c data) ;;
         ret (0%nat, Some e))%go w
    | _ =>
        (set_conn c (mkConnState (remote st) (pending st) (read_end st)
                                 (tl (write_results st))
                                 (delivered st ++ [data])) ;;
         log (EvWrite c data) ;;
         ret (List.length data, None))%go w
    end.

(** [conn.Close()] *)
Definition Close (c : Conn) : M unit := log (EvClose c).

(** ** fmt *)

(** [fmt.Print] and its variants, given the text they format. *)
Definition Print (out : bytes) : M unit := log (EvPrint out).

(** ** bufio *)

(** A [bufio.Reader]: the connection it reads from and the bytes it has
    read from it and not yet handed out. *)
Record Reader : Type := mkReader { rd : Conn; buffered : bytes }.

(** [bufio.NewReader(conn)] *)
Definition NewReader (c : Conn) : Reader := mkReader c [].

(** The bytes up to and including the first [delim], and the bytes after
    it. *)
Fixpoint cut (delim : byte) (s : bytes) : option (bytes * bytes) :=
  match s with
  | [] => None
  | b :: s' =>
      if beq b delim then Some ([b], s')
      else match cut delim s' with
           | Some (line, after) => Some (b :: line, after)
           | None => None
           end
  end.

(** Filling the buffer until [delim] shows up: the line so far, whether it
    ends in [delim], the bytes read beyond it and the chunks not yet
    read. *)
Fixpoint fill (delim : byte) (line : bytes) (chunks : list bytes)
  : bytes * bool * bytes * list bytes :=
  match chunks with
  | [] => (line, false, [], [])
  | chunk :: later =>
      match cut delim chunk with
      | Some (pre, post) => (line ++ pre, true, post, later)
      | None => fill delim (line ++ chunk) later
      end
  end.

(** [reader.ReadString(delim)]: reads until the first occurrence of
    [delim] in the input, returning the data up to and including the
    delimiter.  If it encounters an error before finding a delimiter, it
    returns the data read before the error and the error itself.  Returns
    the line, the error and the reader afterwards. *)
Definition ReadString (r : Reader) (delim : byte)
  : M (bytes * option error * Reader) :=
  match cut delim (buffered r) with
  | Some (line, after) =>
      (log (EvReadString (rd r) line None) ;;
       ret (line, None, mkReader (rd r) after))%go
  | None =>
      fun w =>
        let st := conn_state (rd r) w in
        let '(line, found, after, later) :=
          fill delim (buffered r) (pending st) in
        let err := if found then None else Some (read_end st) in
        (set_conn (rd r) (mkConnState (remote st) later (read_end st)
                                      (write_results st) (delivered st)) ;;
         log (EvReadString (rd r) line err) ;;
         ret (line, err, mkReader (rd r) after))%go w
  end.

(** The bytes a reader can still hand out. *)
Definition remaining (r : Reader) (w : World) : nat :=
  List.length (buffered r ++ List.concat (pending (conn_state (rd r) w))).

(* ===================================================================== *)
(** * The four programs *)
(* ===================================================================== *)

Module programs.

Import json.

(** [host := "127.0.0.1:5000"] in all four programs. *)
Definition host : bytes := B "127.0.0.1:5000".

(** [fmt.Println(a, b)]: the operands separated by a space, and a
    newline. *)
Definition Println (a b : bytes) : M unit :=
  Print (a ++ B " " ++ b ++ [newline]).

(** The text [%+v] prints for a [Message]. *)
Definition format_plus_v (m : Message) : bytes :=
  B "{User:" ++ User m ++ B " Text:" ++ Text m ++ B "}".

(** [make([]byte, n)] *)
Definition make (n : nat) : bytes := repeat zero n.

(** The zero value of [Message], what [var msg Message] declares. *)
Definition zeroMessage : Message := mkMessage [] [].

(** ** Termination of the echo loop *)

(** A successful [ReadString] hands out at least the delimiter, so the
    reader has less left afterwards; printing and writing leave what is
    left as it is.  This is the measure the echo loop recurses on. *)

Lemma cut_length (delim : byte) (s line after : bytes) :
  cut delim s = Some (line, after) ->
  s = line ++ after /\ (0 < List.length line)%nat.
Proof.
  revert line after. induction s as [|b s IH]; intros line after; simpl.
  - discriminate.
  - destruct (beq b delim).
    + intros [= <- <-]. simpl. split; [reflexivity | lia].
    + destruct (cut delim s) as [[l a]|]; [|discriminate].
      intros [= <- <-]. destruct (IH l a eq_refl) as [-> _].
      simpl. split; [reflexivity | lia].
Qed.

Lemma fill_length (delim : byte) (chunks : list bytes) :
  forall line line' after later,
  fill delim line chunks = (line', true, after, later) ->
  line ++ List.concat chunks = line' ++ after ++ List.concat later /\
  (0 < List.length line')%nat.
Proof.
  induction chunks as [|chunk chunks IH]; intros line line' after later;
    simpl.
  - discriminate.
  - destruct (cut delim chunk) as [[pre post]|] eqn:E.
    + intros [= <- <- <-]. apply cut_length in E as [-> Hpos].
      rewrite <- !app_assoc. split; [reflexivity|].
      rewrite List.length_app. lia.
    + intros H. apply IH in H as [H Hpos].
      rewrite <- app_assoc in H. now split.
Qed.

Lemma nth_update (A : Type) (i : nat) (x d : A) (l : list A) :
  (i < List.length l)%nat -> nth i (update i x l) d = x.
Proof.
  revert i. induction l as [|y l IH]; intros [|i]; simpl; try lia; auto.
  intros H. apply IH. lia.
Qed.

Lemma nth_update_other (A : Type) (i j : nat) (x d : A) (l : list A) :
  i <> j -> nth j (update i x l) d = nth j l d.
Proof.
  revert i j. induction l as [|y l IH]; intros [|i] [|j]; simpl; auto;
    congruence.
Qed.

Lemma nth_update_beyond (A : Type) (i : nat) (x : A) (l : list A) :
  (List.length l <= i)%nat -> update i x l = l.
Proof.
  revert i. induction l as [|y l IH]; intros [|i]; simpl; try lia; auto.
  intros H. f_equal. apply IH. lia.
Qed.

Lemma ReadString_remaining (r r' : Reader) (delim : byte) (line : bytes)
    (w w' : World) :
  ReadString r delim w = (Ok (line, None, r'), w') ->
  (remaining r' w' < remaining r w)%nat.
Proof.
  unfold ReadString, remaining.
  destruct (cut delim (buffered r)) as [[l a]|] eqn:E.
  - cbn. intros [= <- <- <-]. cbn.
    apply cut_length in E as [-> Hpos].
    unfold conn_state. cbn. rewrite <- app_assoc, !List.length_app. lia.
  - destruct (fill delim (buffered r) (pending (conn_state (rd r) w)))
      as [[[l found] a] later] eqn:F.
    destruct found; cbn; [|discriminate].
    intros [= <- <- <-]. cbn.
    apply fill_length in F as [F Hpos].
    destruct (Nat.lt_ge_cases (rd r) (List.length (conns w))) as [Hin|Hout].
    + unfold conn_state at 1. cbn. rewrite nth_update by assumption. cbn.
      rewrite F, !List.length_app. lia.
    + unfold conn_state in F. rewrite nth_overflow in F by assumption.
      cbn in F. rewrite app_nil_r in F.
      unfold conn_state. cbn. rewrite nth_update_beyond by assumption.
      rewrite nth_overflow by assumption. cbn.
      rewrite F, !List.length_app. lia.
Qed.

Lemma remaining_Print_Write (r : Reader) (c : Conn) (out data : bytes)
    (w : World) :
  remaining r (snd ((Print out ;; _ <- Write c data ;; ret tt)%go w))
  = remaining r w.
Proof.
  unfold remaining, Print, Write, log, bindM, conn_state. cbn.
  destruct (write_results (nth c (conns w) closed_conn)) as [|[e|] later];
    cbn.
  all: destruct (Nat.eq_dec c (rd r)) as [<-|Hne];
    [ destruct (Nat.lt_ge_cases c (List.length (conns w)));
      [ rewrite nth_update by assumption; reflexivity
      | rewrite nth_update_beyond by assumption; reflexivity ]
    | rewrite nth_update_other by assumption; reflexivity ].
Qed.

Definition inspect {A : Type} (a : A) : {b : A | a = b} :=
  exist _ a eq_refl.

(** ** The echo server ([src/Client/client.go], second program) *)

(** The loop
[[
    for {
        msg, err := reader.ReadString('\n')
        if err != nil {
            break
        }
        fmt.Printf("Received: %s", msg)
        conn.Write([]byte(msg)) // Echo back
    }
]]
    The result of [conn.Write] is dropped by the source. *)
Equations? echo_loop (conn : Conn) (reader : Reader) (w : World)
  : res unit * World by wf (remaining reader w) lt :=
  echo_loop conn reader w with inspect (ReadString reader newline w) := {
    | exist _ (Ok (msg, None, reader'), w') Heq :=
        echo_loop conn reader'
          (snd ((Print (B "Received: " ++ msg) ;;
                 _ <- Write conn msg ;;
                 ret tt)%go w'));
    | exist _ (Ok (_, Some _, _), w') _ := (Ok tt, w');
    | exist _ (Panic v, w') _ := (Panic v, w');
    | exist _ (OutOfFuel, w') _ := (OutOfFuel, w') }.
Proof.
  rewrite remaining_Print_Write.
  now apply ReadString_remaining with (delim := newline) (line := msg).
Qed.

Section Programs.

Variable env : Env.

Definition echo_server_main : M unit :=
  (err <- Listen env host ;;
   match err with
   | Some e => panic (PanicError e)
   | None =>
   defer ln_Close
     (Println (B "Server listening on") host ;;
      '(conn, err) <- Accept env ;;
      match err with
      | Some e => panic (PanicError e)
      | None =>
      defer (Close conn)
        (addr <- RemoteAddr conn ;;
         Println (B "Connected by") addr ;;
         let reader := NewReader conn in
         echo_loop conn reader)
      end)
   end)%go.

(** ** The echo client ([src/client.go]) *)

(** The errors of [conn.Write] and of [reader.ReadString] are dropped by
    the source. *)
Definition echo_client_main : M unit :=
  ('(conn, err) <- Dial env host ;;
   match err with
   | Some e => panic (PanicError e)
   | None =>
   defer (Close conn)
     (let msg := B "Hello local server!" ++ [newline] in
      _ <- Write conn msg ;;
      let reader := NewReader conn in
      '(resp, _, _) <- ReadString reader newline ;;
      Print (B "Received: " ++ resp))
   end)%go.

(** ** The JSON client ([src/Client/client.go], first program) *)

(** The program sends a fixed message; [json_client] is its body for any
    message. *)
Definition json_client (msg : Message) : M unit :=
  ('(conn, err) <- Dial env host ;;
   match err with
   | Some e => panic (PanicError e)
   | None =>
   defer (Close conn)
     (let '(data, err) := Marshal msg in
      match err with
      | Some e => panic (PanicError e)
      | None =>
      (* send JSON as binary *)
      '(_, err) <- Write conn data ;;
      match err with
      | Some e => panic (PanicError e)
      | None => Print (B "JSON sent!" ++ [newline])
      end
      end)
   end)%go.

Definition json_client_main : M unit :=
  json_client (mkMessage (B "Alice") (B "Hello server!")).

(** ** The JSON server ([src/unnamed/part_000]) *)

Context {tables : CaseTables}.

(** [json.Unmarshal(data, &msg)] as a step of a program: a panic of the
    decoder is a panic of the program. *)
Definition json_Unmarshal (data : bytes) (msg : Message)
  : M (Message * option error) :=
  fun w => (Unmarshal data msg, w).

(** The program allocates its buffer with [make([]byte, 1024)];
    [json_server] is its body for any initial contents of the buffer. *)
Definition json_server (buf : bytes) : M unit :=
  (err <- Listen env host ;;
   match err with
   | Some e => panic (PanicError e)
   | None =>
   defer ln_Close
     (Println (B "Server listening on") host ;;
      '(conn, err) <- Accept env ;;
      match err with
      | Some e => panic (PanicError e)
      | None =>
      defer (Close conn)
        (addr <- RemoteAddr conn ;;
         Println (B "Connected by") addr ;;
         '(n, buf, err) <- Read conn buf ;;
         match err with
         | Some e => panic (PanicError e)
         | None =>
         '(msg, err) <- json_Unmarshal (firstn n buf) zeroMessage ;;
         match err with
         | Some e => panic (PanicError e)
         | None =>
             Print (B "Received JSON: " ++ format_plus_v msg ++ [newline])
         end
         end)
      end)
   end)%go.

Definition json_server_main : M unit := json_server (make 1024).

End Programs.

(** The run of a program from the initial world: how it ends and the
    world it leaves. *)
Definition run (prog : M unit) : res unit * World := prog start.

(** ** Observations on a trace *)

(** The data of the [Write] calls, in order. *)
Fixpoint writes (t : list event) : list bytes :=
  match t with
  | [] => []
  | EvWrite _ data :: t' => data :: writes t'
  | _ :: t' => writes t'
  end.

(** The texts printed, in order. *)
Fixpoint prints (t : list event) : list bytes :=
  match t with
  | [] => []
  | EvPrint out :: t' => out :: prints t'
  | _ :: t' => prints t'
  end.

(** The number of calls of [Accept], of [conn.Read]. *)
Definition is_accept (e : event) : bool :=
  match e with EvAccept _ _ => true | _ => false end.
Definition is_read (e : event) : bool :=
  match e with EvRead _ _ _ => true | _ => false end.
Definition count (p : event -> bool) (t : list event) : nat :=
  List.length (filter p t).

(** The connections that have been accepted and not yet closed. *)
Fixpoint active (t : list event) (open : list Conn) : list Conn :=
  match t with
  | [] => open
  | EvAccept c None :: t' => active t' (c :: open)
  | EvClose c :: t' => active t' (remove Nat.eq_dec c open)
  | _ :: t' => active t' open
  end.

(** The states of the echo server of the specification, read off the
    events: the server is [Listening] once it listens, [Connected] once a
    connection is accepted, [Echoing] once a line has been read, [Closed]
    once a read has failed or something has been closed. *)
Inductive phase : Type := Starting | Listening | Connected | Echoing | Closed.

Definition phase_step (p : phase) (e : event) : phase :=
  match e with
  | EvListen _ None => Listening
  | EvListen _ (Some _) => Closed
  | EvAccept _ None => Connected
  | EvAccept _ (Some _) => Closed
  | EvReadString _ _ None => Echoing
  | EvReadString _ _ (Some _) => Closed
  | EvRead _ _ (Some _) => Closed
  | EvClose _ => Closed
  | EvCloseListener => Closed
  | _ => p
  end.

Definition phase_of (t : list event) : phase := fold_left phase_step t Starting.

End programs.

(* ===================================================================== *)
(** * Shapes of byte sequences used in the statements and proofs *)
(* ===================================================================== *)

Import utf8.

(** [rune_at p r n]: [p] begins with a well-formed UTF-8 sequence of [n]
    bytes that encodes the rune [r] (Unicode, table 3-7). *)
Definition cont (b : byte) : Prop := 0x80 <= code b <= 0xBF.

Inductive rune_at : bytes -> rune -> nat -> Prop :=
| rune_at1 b t :
    code b < 0x80 -> rune_at (b :: t) (code b) 1
| rune_at2 p0 b1 t :
    0xC2 <= code p0 <= 0xDF -> cont b1 ->
    rune_at (p0 :: b1 :: t) ((code p0 - 0xC0) * 64 + (code b1 - 0x80)) 2
| rune_at3 p0 b1 b2 t :
    0xE0 <= code p0 <= 0xEF -> cont b1 -> cont b2 ->
    (code p0 = 0xE0 -> 0xA0 <= code b1) ->
    (code p0 = 0xED -> code b1 <= 0x9F) ->
    rune_at (p0 :: b1 :: b2 :: t)
      ((code p0 - 0xE0) * 4096 + (code b1 - 0x80) * 64 + (code b2 - 0x80)) 3
| rune_at4 p0 b1 b2 b3 t :
    0xF0 <= code p0 <= 0xF4 -> cont b1 -> cont b2 -> cont b3 ->
    (code p0 = 0xF0 -> 0x90 <= code b1) ->
    (code p0 = 0xF4 -> code b1 <= 0x8F) ->
    rune_at (p0 :: b1 :: b2 :: b3 :: t)
      ((code p0 - 0xF0) * 262144 + (code b1 - 0x80) * 4096
       + (code b2 - 0x80) * 64 + (code b3 - 0x80)) 4.


Import json.

(** The escape sequence [appendString] writes for an ASCII byte that is
    not in the safe set. *)
Definition escape (b : byte) : bytes :=
  if beq b backslash || beq b dquote then [backslash; b]
  else if beq b "008" then B "\b"
  else if beq b "012" then B "\f"
  else if beq b "010" then B "\n"
  else if beq b "013" then B "\r"
  else if beq b "009" then B "\t"
  else B "\u00" ++ [hex (Z.shiftr (code b) 4); hex (Z.land (code b) 0xF)].

(** [encoded src out]: [out] is what [appendString] writes between the
    quotes for [src] when it escapes HTML, one constructor for each way
    through the body of its loop. *)
Inductive encoded : bytes -> bytes -> Prop :=
| encoded_nil : encoded [] []
| encoded_safe b s o :
    htmlSafeSet b = true -> encoded s o -> encoded (b :: s) (b :: o)
| encoded_escape b s o :
    code b < RuneSelf -> htmlSafeSet b = false -> encoded s o ->
    encoded (b :: s) (escape b ++ o)
| encoded_invalid b s o :
    RuneSelf <= code b -> DecodeRune (b :: s) = (RuneError, 1%nat) ->
    encoded s o -> encoded (b :: s) (B "\ufffd" ++ o)
| encoded_separator p r n o :
    rune_at p r n -> r = 0x2028 \/ r = 0x2029 ->
    encoded (skipn n p) o ->
    encoded p (B "\u202" ++ [hex (Z.land r 0xF)] ++ o)
| encoded_rune p r n o :
    rune_at p r n -> (2 <= n)%nat -> r <> 0x2028 -> r <> 0x2029 ->
    encoded (skipn n p) o ->
    encoded p (firstn n p ++ o).

(** The contents of a JSON string literal as the scanner accepts them:
    plain bytes, two-byte escapes, and [\u] escapes with four hexadecimal
    digits. *)
Definition plain (b : byte) : bool :=
  negb (beq b dquote) && negb (beq b backslash) && (0x20 <=? code b).

Definition simple_escape (e : byte) : bool :=
  beq e "b" || beq e "f" || beq e "n" || beq e "r" || beq e "t"
  || beq e backslash || beq e "/" || beq e dquote.

Inductive body : bytes -> Prop :=
| body_nil : body []
| body_plain b t : plain b = true -> body t -> body (b :: t)
| body_escape e t :
    simple_escape e = true -> body t -> body (backslash :: e :: t)
| body_u h1 h2 h3 h4 t :
    isHex h1 = true -> isHex h2 = true -> isHex h3 = true ->
    isHex h4 = true -> body t ->
    body (backslash :: "u"%char :: h1 :: h2 :: h3 :: h4 :: t).

(** The byte a two-character escape of a JSON string stands for, as
    [unquoteBytes] reads it. *)
Definition simple_decode (e : byte) : option byte :=
  if beq e dquote || beq e backslash || beq e "/" || beq e "'" then Some e
  else if beq e "b" then Some "008"%char
  else if beq e "f" then Some "012"%char
  else if beq e "n" then Some "010"%char
  else if beq e "r" then Some "013"%char
  else if beq e "t" then Some "009"%char
  else None.

Import programs.

(** The newline-terminated lines of a byte stream, each with its newline,
    and what follows the last newline. *)
Fixpoint lines (s : bytes) : list bytes * bytes :=
  match s with
  | [] => ([], [])
  | b :: s' =>
      let '(ls, partial) := lines s' in
      if beq b newline then ([b] :: ls, partial)
      else match ls with
           | [] => ([], b :: partial)
           | l :: ls' => ((b :: l) :: ls', partial)
           end
  end.

(** What the echo server does with a line: it reads it, prints it and
    writes it back. *)
Fixpoint echo_events (c : Conn) (ls : list bytes) : list event :=
  match ls with
  | [] => []
  | l :: ls' =>
      [EvReadString c l None; EvPrint (B "Received: " ++ l); EvWrite c l]
      ++ echo_events c ls'
  end.

(** What the peer gets of the lines written back: every write takes the
    next of the results the environment holds for the connection. *)
Fixpoint deliver (acks : list (option error)) (got : list bytes)
    (ls : list bytes) : list (option error) * list bytes :=
  match ls with
  | [] => (acks, got)
  | l :: ls' =>
      match acks with
      | Some _ :: later => deliver later got ls'
      | _ => deliver (tl acks) (got ++ [l]) ls'
      end
  end.

(** The events of a whole run of the echo server that gets a connection
    from [addr] on which the bytes [s] arrive before the read error
    [e]. *)
Definition echo_session (addr s : bytes) (e : error) : list event :=
  [EvListen host None;
   EvPrint (B "Server listening on 127.0.0.1:5000" ++ [newline]);
   EvAccept 0%nat None;
   EvPrint (B "Connected by " ++ addr ++ [newline])]
  ++ echo_events 0%nat (fst (lines s))
  ++ [EvReadString 0%nat (snd (lines s)) (Some e);
      EvClose 0%nat;
      EvCloseListener].

(** The events of a run of the JSON server that gets a connection from
    [addr] and reads [data] from it; [tail] is what it does with the
    data. *)
Definition json_session (addr data : bytes) (tail : list event)
  : list event :=
  [EvListen host None;
   EvPrint (B "Server listening on 127.0.0.1:5000" ++ [newline]);
   EvAccept 0%nat None;
   EvPrint (B "Connected by " ++ addr ++ [newline]);
   EvRead 0%nat data None]
  ++ tail
  ++ [EvClose 0%nat; EvCloseListener].

(** The case tables restricted to the orbits that contain an ASCII letter:
    U+017F (long s) folds to [S] and U+212A (Kelvin sign) to [K]. *)
#[export] Instance ascii_tables : CaseTables :=
  {| foldRune r := if r =? 0x17F then code "S"
                   else if r =? 0x212A then code "K" else r |}.

(** An environment in which the peer of every connection sends [chunks]
    and then closes the connection. *)
Definition one_peer (chunks : list bytes) (acks : list (option error)) : Env :=
  mkEnv None
        (fun _ => inr (mkPeer (B "127.0.0.1:40000") chunks EOF acks))
        (inr (mkPeer (B "127.0.0.1:5000") chunks EOF acks)).

(** How the JSON server ends, and what it prints, given what
    [json.Unmarshal] returned. *)
Definition json_result (r : res (Message * option error)) : res unit :=
  match r with
  | Ok (_, None) => Ok tt
  | Ok (_, Some e) => Panic (PanicError e)
  | Panic v => Panic v
  | OutOfFuel => OutOfFuel
  end.

Definition json_tail (r : res (Message * option error)) : list event :=
  match r with
  | Ok (msg, None) =>
      [EvPrint (B "Received JSON: " ++ format_plus_v msg ++ [newline])]
  | _ => []
  end.

(** The state of a connection, field by field. *)
Definition conn1 (addr : bytes) (pend : list bytes) (e : error)
    (acks : list (option error)) (got : list bytes) : ConnState :=
  mkConnState addr pend e acks got.

(** The two parts of the events of a run of the echo server: up to the
    first read, and from there on. *)
Definition echo_head (addr : bytes) : list event :=
  [EvListen host None;
   EvPrint (B "Server listening on 127.0.0.1:5000" ++ [newline]);
   EvAccept 0 None;
   EvPrint (B "Connected by " ++ addr ++ [newline])].

Definition echo_rest (s : bytes) (e : error) : list event :=
  echo_events 0 (fst (lines s))
  ++ [EvReadString 0 (snd (lines s)) (Some e); EvClose 0; EvCloseListener].

(** Events other than calls of [Listen] and [Accept]. *)
Definition quiet (e : event) : bool :=
  match e with
  | EvListen _ _ | EvAccept _ _ => false
  | _ => true
  end.


(** A message whose encoding has more than 1024 bytes. *)
Definition long_message : Message := mkMessage (repeat "a"%char 1100) [].

(** A quoted string literal, and a line. *)
Definition q (s : string) : bytes := [dquote] ++ B s ++ [dquote].

Definition nl (s : string) : bytes := B s ++ [newline].

(** The scanner states inside a string literal. *)
Definition in_string (f : state) : bool :=
  match f with
  | StateInString | StateInStringEsc | StateInStringEscU
  | StateInStringEscU1 | StateInStringEscU12 | StateInStringEscU123 => true
  | _ => false
  end.

(** A scanner with its step function replaced. *)
Definition with_step (sc : scanner) (f : state) : scanner :=
  mkScanner f (endTop sc) (parseState sc) (err sc).

(** The fixed parts of the encoding of a [Message]. *)
Definition seg0 : bytes := B "{" ++ [dquote] ++ B "user" ++ [dquote] ++ B ":" ++ [dquote].
Definition seg1 : bytes := [dquote] ++ B "," ++ [dquote] ++ B "text" ++ [dquote] ++ B ":" ++ [dquote].
Definition seg2 : bytes := [dquote] ++ B "}".

(** The verdict of [checkValid] from the result of its loop. *)
Definition finish (r : option error + scanner) : option error :=
  match r with
  | inl e => e
  | inr scan =>
      let '(op, scan) := eof scan in
      if opcode_eqb op scanError then err scan else None
  end.

(** The scanner states between the segments of an encoded message. *)
Definition in_value : scanner :=
  mkScanner StateInString false [parseObjectValue] None.

(** The number of bytes a decoder has not read yet. *)
Definition len (d : decodeState) : nat := List.length (unread d).

(** The connections that have been opened, by [Accept] or by [Dial], and
    not yet closed. *)
Fixpoint live (t : list event) (open : list Conn) : list Conn :=
  match t with
  | [] => open
  | EvAccept c None :: t' => live t' (c :: open)
  | EvDial _ c None :: t' => live t' (c :: open)
  | EvClose c :: t' => live t' (remove Nat.eq_dec c open)
  | _ :: t' => live t' open
  end.

(** Whether the listener is open after the events [t], [l] telling
    whether it was before. *)
Fixpoint listening (t : list event) (l : bool) : bool :=
  match t with
  | [] => l
  | EvListen _ None :: t' => listening t' true
  | EvCloseListener :: t' => listening t' false
  | _ :: t' => listening t' l
  end.


(** The number of bytes of the encoding of a message besides the two
    string bodies. *)
Definition overhead : nat := List.length (seg0 ++ seg1 ++ seg2).

(** A string with every byte that begins no well-formed UTF-8 sequence
    replaced by the three bytes of U+FFFD, the replacement character;
    well-formed sequences are kept. *)
Equations? coerce (p : bytes) : bytes by wf (List.length p) lt :=
  coerce [] := [];
  coerce (b :: rest) :=
    if code b <? RuneSelf then b :: coerce rest
    else
      let '(r, size) := DecodeRune (b :: rest) in
      if (r =? RuneError) && (size =? 1)%nat then
        EncodeRune RuneError ++ coerce rest
      else firstn size (b :: rest) ++ coerce (skipn (size - 1) rest).
Proof.
  all: cbn [List.length];
    first [apply skipn_shorter | apply Nat.lt_succ_diag_r].
Qed.
Example DecodeRune_ex1 : utf8.DecodeRune (B "A") = (65, 1%nat).
Proof. reflexivity. Qed.

(* ===================================================================== *)
(** * Facts about bytes and UTF-8 *)
(* ===================================================================== *)

Lemma code_range (b : byte) : 0 <= code b < 256.
Proof.
  unfold code. pose proof (N_ascii_bounded b). lia.
Qed.

Lemma byte_of_code (b : byte) : byte_of (code b) = b.
Proof.
  unfold byte_of. rewrite Z.mod_small by apply code_range.
  unfold code. rewrite N2Z.id. apply ascii_N_embedding.
Qed.

Lemma code_byte_of (z : Z) : code (byte_of z) = z mod 256.
Proof.
  unfold code, byte_of.
  assert (H : 0 <= z mod 256 < 256) by (apply Z.mod_pos_bound; lia).
  rewrite N_ascii_embedding by lia. lia.
Qed.

Lemma byte_of_small (z : Z) (b : byte) : z = code b -> byte_of z = b.
Proof. intros ->. apply byte_of_code. Qed.

Lemma code_inj (a b : byte) : code a = code b -> a = b.
Proof.
  intros H. rewrite <- (byte_of_code a), <- (byte_of_code b). now rewrite H.
Qed.

Lemma land_mask (x : Z) (n : Z) : 0 <= n -> Z.land x (Z.ones n) = x mod 2 ^ n.
Proof. intros. now apply Z.land_ones. Qed.

(** [lor] of a multiple of [2^n] and a value below [2^n] is their sum. *)
Lemma lor_add (a b n : Z) :
  0 <= n -> 0 <= b < 2 ^ n -> Z.lor (a * 2 ^ n) b = a * 2 ^ n + b.
Proof.
  intros Hn Hb.
  rewrite <- Z.lxor_lor, <- Z.add_nocarry_lxor; try reflexivity.
  all: apply Z.bits_inj'; intros i Hi; rewrite Z.land_spec, Z.bits_0.
  all: destruct (Z.lt_ge_cases i n) as [Hlt | Hge].
  all: try (rewrite Z.mul_pow2_bits_low by lia; reflexivity).
  all: destruct (Z.eq_dec b 0) as [-> | Hnz];
    [ rewrite Z.bits_0; apply andb_false_r | ].
  all: rewrite (Z.bits_above_log2 b i); [ apply andb_false_r | lia | ].
  all: apply Z.log2_lt_pow2; try lia.
  all: apply Z.lt_le_trans with (2 ^ n); try lia.
  all: apply Z.pow_le_mono_r; lia.
Qed.

Import utf8.

Lemma first_cases (p0 : Z) : 0 <= p0 < 256 ->
  (p0 < 0x80 /\ first p0 = as_) \/
  ((0x80 <= p0 < 0xC2 \/ 0xF5 <= p0) /\ first p0 = xx) \/
  (0xC2 <= p0 < 0xE0 /\ first p0 = s1) \/
  (p0 = 0xE0 /\ first p0 = s2) \/
  ((0xE1 <= p0 < 0xED \/ 0xEE <= p0 < 0xF0) /\ first p0 = s3) \/
  (p0 = 0xED /\ first p0 = s4) \/
  (p0 = 0xF0 /\ first p0 = s5) \/
  (0xF1 <= p0 < 0xF4 /\ first p0 = s6) \/
  (p0 = 0xF4 /\ first p0 = s7).
Proof.
  intros H. unfold first.
  repeat match goal with
  | |- context [if ?c <? ?d then _ else _] => destruct (Z.ltb_spec c d)
  | |- context [if ?c =? ?d then _ else _] => destruct (Z.eqb_spec c d)
  end; lia || tauto || (intuition lia).
Qed.

Lemma land_low (x : Z) (k : Z) (m : Z) :
  m = Z.ones k -> 0 <= k -> Z.land x m = x mod 2 ^ k.
Proof. intros -> Hk. now apply Z.land_ones. Qed.

Lemma shiftl_lor (a b n : Z) :
  0 <= n -> 0 <= b < 2 ^ n -> Z.lor (Z.shiftl a n) b = a * 2 ^ n + b.
Proof. intros. rewrite Z.shiftl_mul_pow2 by lia. now apply lor_add. Qed.

Ltac first_split p0 :=
  let H := fresh "Hf" in
  destruct (first_cases (code_range p0)) as
    [[? H]|[[? H]|[[? H]|[[? H]|[[? H]|[[? H]|[[? H]|[[? H]|[? H]]]]]]]]];
  rewrite H.


Lemma lor_add' (x b n : Z) :
  0 <= n -> 0 <= b < 2 ^ n -> x mod 2 ^ n = 0 -> Z.lor x b = x + b.
Proof.
  intros Hn Hb Hx.
  assert (Hp : 0 < 2 ^ n) by (apply Z.pow_pos_nonneg; lia).
  rewrite (Z.div_mod x (2 ^ n)) by lia. rewrite Hx, Z.add_0_r.
  rewrite (Z.mul_comm (2 ^ n)). now apply lor_add.
Qed.

(** Masks and shifts as arithmetic. *)
Lemma land_maskx x : Z.land x maskx = x mod 64.
Proof. now apply (@land_low x 6). Qed.
Lemma land_mask2 x : Z.land x mask2 = x mod 32.
Proof. now apply (@land_low x 5). Qed.
Lemma land_mask3 x : Z.land x mask3 = x mod 16.
Proof. now apply (@land_low x 4). Qed.
Lemma land_mask4 x : Z.land x mask4 = x mod 8.
Proof. now apply (@land_low x 3). Qed.

Lemma shl6 x : Z.shiftl x 6 = x * 64.
Proof. now rewrite Z.shiftl_mul_pow2. Qed.
Lemma shl12 x : Z.shiftl x 12 = x * 4096.
Proof. now rewrite Z.shiftl_mul_pow2. Qed.
Lemma shl18 x : Z.shiftl x 18 = x * 262144.
Proof. now rewrite Z.shiftl_mul_pow2. Qed.
Lemma shr6 x : Z.shiftr x 6 = x / 64.
Proof. now rewrite Z.shiftr_div_pow2. Qed.
Lemma shr12 x : Z.shiftr x 12 = x / 4096.
Proof. now rewrite Z.shiftr_div_pow2. Qed.
Lemma shr18 x : Z.shiftr x 18 = x / 262144.
Proof. now rewrite Z.shiftr_div_pow2. Qed.

Lemma lor6 x b : 0 <= b < 64 -> x mod 64 = 0 -> Z.lor x b = x + b.
Proof. intros. now apply (@lor_add' x b 6). Qed.
Lemma lor12 x b : 0 <= b < 4096 -> x mod 4096 = 0 -> Z.lor x b = x + b.
Proof. intros. now apply (@lor_add' x b 12). Qed.
Lemma lor18 x b : 0 <= b < 262144 -> x mod 262144 = 0 -> Z.lor x b = x + b.
Proof. intros. now apply (@lor_add' x b 18). Qed.

Ltac arith := unfold cont, locb, hicb, RuneSelf in *; Z.div_mod_to_equations; lia.

Ltac unmask :=
  rewrite ?land_maskx, ?land_mask2, ?land_mask3, ?land_mask4,
          ?shl6, ?shl12, ?shl18.

Ltac cond_lia :=
  repeat match goal with
  | |- context [?a <? ?b] => destruct (Z.ltb_spec a b); try (exfalso; arith)
  | |- context [?a <=? ?b] => destruct (Z.leb_spec a b); try (exfalso; arith)
  end; cbn [orb andb].

Lemma DecodeRune_sound p r n : rune_at p r n -> DecodeRune p = (r, n).
Proof.
  intros H. destruct H; unfold DecodeRune, at_; cbn [List.length nth Nat.ltb Nat.leb]. 
  - first_split b; try lia. vm_compute (_ >=? _). cbv iota. 
    vm_compute (Z.shiftr _ _). rewrite Z.ldiff_0_r, Z.land_0_r, Z.lor_0_r. reflexivity.
  - first_split p0; try lia. vm_compute (_ >=? _). cbv iota.
    vm_compute (Z.to_nat _). vm_compute (acceptRanges _). cbn [fst snd Nat.ltb Nat.leb].
    cond_lia. unmask. rewrite lor6 by arith. f_equal. arith.
  - pose proof (code_range b1). pose proof (code_range b2).
    first_split p0; try lia; vm_compute (_ >=? _); cbv iota;
    vm_compute (Z.to_nat _); vm_compute (acceptRanges _); cbn [fst snd Nat.ltb Nat.leb];
    cond_lia; unmask; rewrite (@lor12 (_ * 4096)) by arith; rewrite lor6 by arith; f_equal; arith.
  - pose proof (code_range b1). pose proof (code_range b2). pose proof (code_range b3).
    first_split p0; try lia; vm_compute (_ >=? _); cbv iota;
    vm_compute (Z.to_nat _); vm_compute (acceptRanges _); cbn [fst snd Nat.ltb Nat.leb];
    cond_lia; unmask; rewrite (@lor18 (_ * 262144)) by arith;
    rewrite (@lor12 (_ + _)) by arith; rewrite lor6 by arith; f_equal; arith.
Qed.

Ltac cond_in H :=
  repeat match type of H with
  | context [?a <? ?b] => destruct (Z.ltb_spec a b)
  | context [?a <=? ?b] => destruct (Z.leb_spec a b)
  end; cbn [orb andb] in H.

Lemma DecodeRune_complete p0 t r n :
  DecodeRune (p0 :: t) = (r, n) ->
  rune_at (p0 :: t) r n \/ (r = RuneError /\ n = 1%nat).
Proof.
  intros H0. pose proof H0 as H.
  unfold DecodeRune, at_ in H. cbn [List.length nth Nat.ltb Nat.leb] in H.
  pose proof (code_range p0) as Hp0.
  destruct (first_cases Hp0) as
    [[? Hf]|[[? Hf]|[[? Hf]|[[? Hf]|[[? Hf]|[[? Hf]|[[? Hf]|[[? Hf]|[? Hf]]]]]]]]];
  rewrite Hf in H; vm_compute (_ >=? _) in H; cbv iota in H;
  try (vm_compute (Z.to_nat _) in H; vm_compute (acceptRanges _) in H;
       cbn [fst snd] in H).
  1: { left. rewrite (DecodeRune_sound (rune_at1 p0 t ltac:(lia))) in H0.
    inversion H0; subst. now constructor. }
  1: { right. vm_compute (Z.shiftr _ _) in H.
    rewrite Z.ldiff_m1_r, Z.land_m1_r, Z.lor_0_l in H. now inversion H. }
  1: { destruct t as [|b1 t]; cbn [List.length nth Nat.ltb Nat.leb] in H;
      [right; now inversion H|].
    cond_in H; try (right; now inversion H).
    assert (R : rune_at (p0 :: b1 :: t) ((code p0 - 0xC0) * 64 + (code b1 - 0x80)) 2)
      by (constructor; arith).
    rewrite (DecodeRune_sound R) in H0. inversion H0; subst. now left. }
  all: try (destruct t as [|b1 [|b2 t]]; cbn [List.length nth Nat.ltb Nat.leb] in H;
      try (right; now inversion H);
    cond_in H; try (right; now inversion H);
    assert (R : rune_at (p0 :: b1 :: b2 :: t)
      ((code p0 - 0xE0) * 4096 + (code b1 - 0x80) * 64 + (code b2 - 0x80)) 3)
      by (constructor; arith);
    rewrite (DecodeRune_sound R) in H0; inversion H0; subst; now left).
  all: destruct t as [|b1 [|b2 [|b3 t]]]; cbn [List.length nth Nat.ltb Nat.leb] in H;
      try (right; now inversion H);
    cond_in H; try (right; now inversion H);
    assert (R : rune_at (p0 :: b1 :: b2 :: b3 :: t)
      ((code p0 - 0xF0) * 262144 + (code b1 - 0x80) * 4096
       + (code b2 - 0x80) * 64 + (code b3 - 0x80)) 4)
      by (constructor; arith);
    rewrite (DecodeRune_sound R) in H0; inversion H0; subst; now left.
Qed.


Ltac byte_ranges :=
  repeat match goal with
  | b : byte |- _ =>
    lazymatch goal with
    | H : 0 <= code b < 256 |- _ => fail
    | _ => pose proof (code_range b)
    end
  end.

Lemma rune_at_range p r n : rune_at p r n -> 0 <= r <= MaxRune.
Proof.
  destruct 1;
  byte_ranges; unfold MaxRune; arith.
Qed.

Ltac enc_byte n :=
  apply byte_of_small;
  rewrite ?code_byte_of, ?shr6, ?shr12, ?shr18, ?land_maskx;
  first [ rewrite (@lor_add' _ _ n) by (try reflexivity; arith); arith ].

Ltac list_eq := repeat match goal with |- _ :: _ = _ :: _ => f_equal end.

Lemma EncodeRune_rune_at p r n : rune_at p r n -> EncodeRune r = firstn n p.
Proof.
  intros H. pose proof (rune_at_range H) as Hr. unfold MaxRune in Hr.
  destruct H; cbn [firstn]; unfold EncodeRune, uint32;
  byte_ranges;
  rewrite Z.mod_small by lia;
  unfold rune1Max, rune2Max, rune3Max, MaxRune, surrogateMin, surrogateMax, tx, t2, t3, t4;
  match goal with |- context [?r <=? 127] => remember r as r' eqn:Er end.
  - cond_lia. f_equal. now apply byte_of_small.
  - cond_lia. list_eq; enc_byte 6.
  - cond_lia; (list_eq; [enc_byte 4 | enc_byte 6 | enc_byte 6]).
  - cond_lia; (list_eq; [enc_byte 3 | enc_byte 6 | enc_byte 6 | enc_byte 6]).
Qed.


Example Marshal_ex1 :
  json.Marshal (json.mkMessage (B "Alice") (B "Hello server!")) =
  (B "{" ++ q "user" ++ B ":" ++ q "Alice" ++ B "," ++ q "text" ++ B ":" ++ q "Hello server!" ++ B "}", None).
Proof. vm_compute. reflexivity. Qed.

Example Marshal_ex2 :
  json.Marshal (json.mkMessage (B "<a&b>")
    [dquote; backslash; newline; "001"%char; "255"%char;
     "226"%char; "128"%char; "168"%char; "195"%char; "169"%char]) =
  (B "{" ++ q "user" ++ B ":" ++ q "\u003ca\u0026b\u003e" ++ B ","
   ++ q "text" ++ B ":" ++ [dquote] ++ B "\" ++ [dquote]
   ++ B "\\\n\u0001\ufffd\u2028" ++ ["195"%char; "169"%char] ++ [dquote]
   ++ B "}", None).
Proof. vm_compute. reflexivity. Qed.

Example checkValid_ex1 :
  json.checkValid (fst (json.Marshal (json.mkMessage (B "Alice") (B "Hello server!")))) = None.
Proof. vm_compute. reflexivity. Qed.

Example checkValid_ex2 :
  json.checkValid (B "{} x") = Some (SyntaxError (Some "x"%char) "after top-level value").
Proof. vm_compute. reflexivity. Qed.

Example checkValid_ex3 :
  json.checkValid (B "[1, 2.5e+3, true, null, {}]  ") = None.
Proof. vm_compute. reflexivity. Qed.

Example checkValid_ex4 :
  json.checkValid (B "[1, 2.5e+3, true, null, {}") = Some (SyntaxError None "unexpected end of JSON input").
Proof. vm_compute. reflexivity. Qed.

(* ===================================================================== *)
(** * The JSON codec on concrete inputs *)
(* ===================================================================== *)

Import json.

Example Unmarshal_ex1 :
  Unmarshal (fst (Marshal (mkMessage (B "Alice") (B "Hello server!"))))
            zeroMessage
  = Ok (mkMessage (B "Alice") (B "Hello server!"), None).
Proof. vm_compute. reflexivity. Qed.

Example Unmarshal_ex2 :
  Unmarshal (B "null") zeroMessage = Ok (zeroMessage, None).
Proof. vm_compute. reflexivity. Qed.

Example Unmarshal_ex3 :
  Unmarshal (B " { " ++ q "USER" ++ B " : " ++ q "xA\n" ++ B ", "
             ++ q "other" ++ B ":[1,{},[" ++ q "]" ++ B "]] ,"
             ++ [dquote; "t"; "E"; "x"; "t"; dquote]%char ++ B ":" ++ q "b"
             ++ B "} ") zeroMessage
  = Ok (mkMessage (B "xA" ++ [newline]) (B "b"), None).
Proof. vm_compute. reflexivity. Qed.

Example Unmarshal_ex4 :
  Unmarshal (B "{" ++ q "user" ++ B ":1," ++ q "text" ++ B ":" ++ q "t" ++ B "}")
            zeroMessage
  = Ok (mkMessage [] (B "t"), Some (UnmarshalTypeError "number")).
Proof. vm_compute. reflexivity. Qed.

Example Unmarshal_ex5 :
  Unmarshal (B "[1]") zeroMessage
  = Ok (zeroMessage, Some (UnmarshalTypeError "array")).
Proof. vm_compute. reflexivity. Qed.

Example Unmarshal_ex6 :
  Unmarshal (B "{" ++ [dquote; "u"; "197"; "191"; "e"; "r"; dquote]%char
             ++ B ":" ++ q "long s" ++ B "}") zeroMessage
  = Ok (mkMessage (B "long s") [], None).
Proof. vm_compute. reflexivity. Qed.

Example Unmarshal_ex7 :
  Unmarshal (B "{" ++ q "user" ++ B ":" ++ q "\ud83d\ude00 \ud800x" ++ B "}")
            zeroMessage
  = Ok (mkMessage (["240"; "159"; "152"; "128"; " "; "239"; "191"; "189"; "x"]%char) [], None).
Proof. vm_compute. reflexivity. Qed.

Example Unmarshal_ex8 :
  Unmarshal (B "{" ++ q "user" ++ B ":" ++ q "a" ++ B "}{") zeroMessage
  = Ok (zeroMessage, Some (SyntaxError (Some "{"%char) "after top-level value")).
Proof. vm_compute. reflexivity. Qed.

(* ===================================================================== *)
(** * The programs on concrete environments *)
(* ===================================================================== *)

Import programs.


Example echo_server_ex1 :
  run (echo_server_main (one_peer [nl "Hello local server!"] [])) =
  (Ok tt,
   mkWorld
     [mkConnState (B "127.0.0.1:40000") [] EOF [] [nl "Hello local server!"]]
     1
     [EvListen host None;
      EvPrint (nl "Server listening on 127.0.0.1:5000");
      EvAccept 0%nat None;
      EvPrint (nl "Connected by 127.0.0.1:40000");
      EvReadString 0%nat (nl "Hello local server!") None;
      EvPrint (B "Received: " ++ nl "Hello local server!");
      EvWrite 0%nat (nl "Hello local server!");
      EvReadString 0%nat [] (Some EOF);
      EvClose 0%nat;
      EvCloseListener]).
Proof. vm_compute. reflexivity. Qed.

Example echo_client_ex1 :
  run (echo_client_main (one_peer [nl "Hello local server!"] [])) =
  (Ok tt,
   mkWorld
     [mkConnState (B "127.0.0.1:5000") [] EOF []
                  [nl "Hello local server!"]]
     0
     [EvDial host 0%nat None;
      EvWrite 0%nat (nl "Hello local server!");
      EvReadString 0%nat (nl "Hello local server!") None;
      EvPrint (B "Received: " ++ nl "Hello local server!");
      EvClose 0%nat]).
Proof. vm_compute. reflexivity. Qed.

Example json_server_ex1 :
  run (json_server_main
         (one_peer [fst (Marshal (mkMessage (B "Alice") (B "Hello server!")))]
                   [])) =
  (Ok tt,
   mkWorld
     [mkConnState (B "127.0.0.1:40000") [] EOF [] []]
     1
     [EvListen host None;
      EvPrint (nl "Server listening on 127.0.0.1:5000");
      EvAccept 0%nat None;
      EvPrint (nl "Connected by 127.0.0.1:40000");
      EvRead 0%nat (fst (Marshal (mkMessage (B "Alice") (B "Hello server!"))))
             None;
      EvPrint (nl "Received JSON: {User:Alice Text:Hello server!}");
      EvClose 0%nat;
      EvCloseListener]).
Proof. vm_compute. reflexivity. Qed.

(* ===================================================================== *)
(** * The JSON codec: what the encoder writes and how it is read back *)
(* ===================================================================== *)

Unset Implicit Arguments.

Lemma rune_at_size p r n : rune_at p r n -> (1 <= n <= 4)%nat /\ (n <= List.length p)%nat.
Proof. destruct 1; cbn [List.length]; lia. Qed.

Lemma rune_at_ext p q r n :
  rune_at p r n -> firstn n p = firstn n q -> rune_at q r n.
Proof.
  destruct 1; cbn [firstn]; intros E.
  - destruct q as [|q0 q]; inversion E; subst. now constructor.
  - destruct q as [|q0 [|q1 q]]; inversion E; subst. now constructor.
  - destruct q as [|q0 [|q1 [|q2 q]]]; inversion E; subst. now constructor.
  - destruct q as [|q0 [|q1 [|q2 [|q3 q]]]]; inversion E; subst.
    now constructor.
Qed.

Lemma firstn_firstn_le (A : Type) (n k : nat) (l : list A) :
  (n <= k)%nat -> firstn n (firstn k l) = firstn n l.
Proof. intros. rewrite firstn_firstn. f_equal. lia. Qed.

Lemma DecodeRune_firstn p : DecodeRune (firstn UTFMax p) = DecodeRune p.
Proof.
  destruct p as [|b p]; [reflexivity|].
  destruct (DecodeRune (b :: p)) as [r n] eqn:E.
  destruct (DecodeRune_complete _ _ E) as [R | [-> ->]].
  - apply DecodeRune_sound. eapply rune_at_ext; [exact R|].
    symmetry. apply firstn_firstn_le. apply (rune_at_size _ _ _ R).
  - destruct (DecodeRune (firstn UTFMax (b :: p))) as [r2 n2] eqn:E2.
    change (firstn UTFMax (b :: p)) with (b :: firstn 3 p) in E2.
    destruct (DecodeRune_complete _ _ E2) as [R | [-> ->]]; [|reflexivity].
    rewrite <- E. symmetry. apply DecodeRune_sound.
    eapply rune_at_ext; [exact R|].
    change (b :: firstn 3 p) with (firstn UTFMax (b :: p)).
    apply firstn_firstn_le. apply (rune_at_size _ _ _ R).
Qed.

Lemma bytes_suffix_ind (P : bytes -> Prop) :
  P [] ->
  (forall b rest, (forall k, P (skipn k rest)) -> P (b :: rest)) ->
  forall s, P s.
Proof.
  intros Hnil Hcons s.
  remember (List.length s) as n eqn:Hn.
  revert s Hn. induction n as [n IH] using lt_wf_ind. intros [|b rest] Hn.
  - exact Hnil.
  - apply Hcons. intros k. apply (IH (List.length (skipn k rest))); [|reflexivity].
    subst n. apply skipn_shorter.
Qed.

Lemma rune_at_multi b rest r n :
  rune_at (b :: rest) r n -> RuneSelf <= code b -> (2 <= n)%nat.
Proof. unfold RuneSelf. inversion 1; subst; lia. Qed.

Lemma skipn_pred (A : Type) (n : nat) (b : A) (rest : list A) :
  (1 <= n)%nat -> skipn (n - 1) rest = skipn n (b :: rest).
Proof. destruct n; [lia|]. intros _. simpl. now rewrite Nat.sub_0_r. Qed.

Lemma encoded_appendString (s : bytes) : encoded s (appendString_loop true s).
Proof.
  induction s as [|b rest IH] using bytes_suffix_ind.
  - rewrite appendString_loop_equation_1. constructor.
  - rewrite appendString_loop_equation_2.
    destruct (Z.ltb_spec (code b) RuneSelf) as [Hlt|Hge].
    + destruct (htmlSafeSet b) eqn:Hs; cbn [orb negb andb].
      * apply encoded_safe; [assumption | apply (IH 0%nat)].
      * apply encoded_escape; [assumption | assumption | apply (IH 0%nat)].
    + rewrite DecodeRune_firstn.
      destruct (DecodeRune (b :: rest)) as [c size] eqn:D.
      destruct (DecodeRune_complete _ _ D) as [R | [-> ->]].
      * pose proof (rune_at_multi _ _ _ _ R Hge) as Hn.
        replace ((size =? 1)%nat) with false
          by (symmetry; apply Nat.eqb_neq; lia).
        rewrite andb_false_r.
        rewrite (skipn_pred _ size b rest) by lia.
        assert (IH' := IH (size - 1)%nat). rewrite (skipn_pred _ size b rest) in IH' by lia.
        destruct (Z.eqb_spec c 0x2028) as [E1|N1]; cbn [orb].
        { eapply encoded_separator; [exact R | now left | apply IH']. }
        destruct (Z.eqb_spec c 0x2029) as [E2|N2].
        { eapply encoded_separator; [exact R | now right | apply IH']. }
        now apply (encoded_rune R).
      * rewrite Z.eqb_refl. cbn [andb Nat.eqb].
        apply encoded_invalid; [assumption | assumption | apply (IH 0%nat)].
Qed.

Ltac byte_cases b := destruct b as [[] [] [] [] [] [] [] []].

Lemma safe_plain b : htmlSafeSet b = true -> plain b = true.
Proof. byte_cases b; vm_compute; congruence. Qed.

Lemma safe_ascii b : htmlSafeSet b = true -> (code b <? RuneSelf) = true.
Proof. byte_cases b; vm_compute; congruence. Qed.

Lemma high_plain b : RuneSelf <= code b -> plain b = true.
Proof.
  intros H. apply Z.leb_le in H. revert H.
  byte_cases b; vm_compute; congruence.
Qed.

Lemma hex_digit i : 0 <= i < 16 -> isHex (hex i) = true.
Proof.
  intros H.
  assert (E : i = 0 \/ i = 1 \/ i = 2 \/ i = 3 \/ i = 4 \/ i = 5 \/ i = 6 \/
              i = 7 \/ i = 8 \/ i = 9 \/ i = 10 \/ i = 11 \/ i = 12 \/
              i = 13 \/ i = 14 \/ i = 15) by lia.
  repeat destruct E as [-> | E]; try subst i; reflexivity.
Qed.

Lemma body_app t u : body t -> body u -> body (t ++ u).
Proof.
  induction 1; intros Hu; cbn [app]; auto.
  - apply body_plain; auto.
  - apply body_escape; auto.
  - apply body_u; auto.
Qed.

Lemma body_escape_ascii b :
  code b < RuneSelf -> htmlSafeSet b = false -> body (escape b).
Proof.
  intros H. apply Z.ltb_lt in H. revert H.
  byte_cases b; vm_compute; try congruence; intros _ _.
  all: first [ apply body_escape; [reflexivity | constructor]
             | apply body_u; (reflexivity || constructor) ].
Qed.

Lemma rune_at_high p r n :
  rune_at p r n -> (2 <= n)%nat ->
  Forall (fun b => RuneSelf <= code b) (firstn n p).
Proof.
  unfold RuneSelf. destruct 1; intros Hn; cbn [firstn]; try lia.
  all: unfold cont in *; repeat constructor; lia.
Qed.

Lemma body_high l : Forall (fun b => RuneSelf <= code b) l -> body l.
Proof.
  induction 1; constructor; auto using high_plain.
Qed.

Lemma encoded_body s o : encoded s o -> body o.
Proof.
  induction 1.
  - constructor.
  - constructor; auto using safe_plain.
  - apply body_app; auto using body_escape_ascii.
  - apply (body_app (B "\ufffd") _); [|assumption].
    apply body_u; (reflexivity || constructor).
  - change (body ((B "\u202" ++ [hex (Z.land r 15)]) ++ o)).
    apply body_app; [|assumption].
    destruct H0; subst r; apply body_u; (reflexivity || constructor).
  - apply body_app; [|assumption].
    apply body_high. now apply rune_at_high with (r := r).
Qed.

(** Scanner over a string body *)



Lemma step_plain sc b :
  plain b = true ->
  call (with_step sc StateInString) b
  = (scanContinue, with_step sc StateInString).
Proof.
  intros H. unfold call, stateInString; cbn.
  unfold plain in H. apply andb_prop in H as [H H3].
  apply andb_prop in H as [H1 H2].
  apply negb_true_iff in H1, H2. rewrite H1, H2.
  apply Z.leb_le in H3. destruct (Z.ltb_spec (code b) 32); [lia|reflexivity].
Qed.

Lemma step_backslash sc :
  call (with_step sc StateInString) backslash
  = (scanContinue, with_step sc StateInStringEsc).
Proof. reflexivity. Qed.

Lemma step_escape sc e :
  simple_escape e = true ->
  call (with_step sc StateInStringEsc) e
  = (scanContinue, with_step sc StateInString).
Proof.
  intros H. unfold call, stateInStringEsc; cbn.
  unfold simple_escape in H. now rewrite H.
Qed.

Lemma step_u sc :
  call (with_step sc StateInStringEsc) "u"
  = (scanContinue, with_step sc StateInStringEscU).
Proof. reflexivity. Qed.

Lemma step_hex sc h :
  isHex h = true ->
  call (with_step sc StateInStringEscU) h
  = (scanContinue, with_step sc StateInStringEscU1) /\
  call (with_step sc StateInStringEscU1) h
  = (scanContinue, with_step sc StateInStringEscU12) /\
  call (with_step sc StateInStringEscU12) h
  = (scanContinue, with_step sc StateInStringEscU123) /\
  call (with_step sc StateInStringEscU123) h
  = (scanContinue, with_step sc StateInString).
Proof.
  intros H. unfold call; cbn.
  unfold stateInStringEscU, stateInStringEscU1, stateInStringEscU12,
         stateInStringEscU123, stateInStringEscU_. now rewrite H.
Qed.

Lemma with_step_same sc : with_step sc (step sc) = sc.
Proof. now destruct sc. Qed.

Lemma loop_continue c data sc sc' :
  call sc c = (scanContinue, sc') ->
  checkValid_loop (c :: data) sc = checkValid_loop data sc'.
Proof. intros H. cbn [checkValid_loop]. now rewrite H. Qed.

Lemma scan_body t :
  body t -> forall sc rest,
  checkValid_loop (t ++ rest) (with_step sc StateInString)
  = checkValid_loop rest (with_step sc StateInString).
Proof.
  induction 1; intros sc rest; cbn [app].
  - reflexivity.
  - rewrite (loop_continue _ _ _ _ (step_plain sc b H)). apply IHbody.
  - rewrite (loop_continue _ _ _ _ (step_backslash sc)).
    rewrite (loop_continue _ _ _ _ (step_escape sc e H)). apply IHbody.
  - rewrite (loop_continue _ _ _ _ (step_backslash sc)).
    rewrite (loop_continue _ _ _ _ (step_u sc)).
    destruct (step_hex sc h1 H) as (E1 & _).
    destruct (step_hex sc h2 H0) as (_ & E2 & _).
    destruct (step_hex sc h3 H1) as (_ & _ & E3 & _).
    destruct (step_hex sc h4 H2) as (_ & _ & _ & E4).
    rewrite (loop_continue _ _ _ _ E1), (loop_continue _ _ _ _ E2),
            (loop_continue _ _ _ _ E3), (loop_continue _ _ _ _ E4).
    apply IHbody.
Qed.


Lemma Marshal_shape m :
  fst (Marshal m) =
  seg0 ++ appendString_loop true (User m) ++ seg1
       ++ appendString_loop true (Text m) ++ seg2.
Proof.
  unfold Marshal, structEncoder, fields, structEncoder_loop, nameEscHTML, appendString.
  cbn [fst get name beq Ascii.eqb Bool.eqb].
  unfold seg0, seg1, seg2. rewrite app_nil_r.
  repeat rewrite <- app_assoc. reflexivity.
Qed.


Lemma checkValid_finish data :
  checkValid data = finish (checkValid_loop data reset).
Proof. reflexivity. Qed.

Lemma checkValid_loop_app a b sc :
  checkValid_loop (a ++ b) sc =
  match checkValid_loop a sc with
  | inl e => inl e
  | inr sc' => checkValid_loop b sc'
  end.
Proof.
  revert sc. induction a as [|c a IH]; intros sc; cbn [app checkValid_loop].
  - reflexivity.
  - destruct (call sc c) as [op sc']. destruct (opcode_eqb op scanError); auto.
Qed.

Lemma scan_body_firstn t :
  body t -> forall n sc, exists f,
  in_string f = true /\
  checkValid_loop (firstn n t) (with_step sc StateInString)
  = inr (with_step sc f).
Proof.
  induction 1; intros n sc.
  - exists StateInString. now rewrite firstn_nil.
  - destruct n as [|n]; [now exists StateInString|]. cbn [firstn].
    rewrite (loop_continue _ _ _ _ (step_plain sc b H)). apply IHbody.
  - destruct n as [|[|n]];
      [now exists StateInString | now exists StateInStringEsc |].
    cbn [firstn].
    rewrite (loop_continue _ _ _ _ (step_backslash sc)).
    rewrite (loop_continue _ _ _ _ (step_escape sc e H)). apply IHbody.
  - destruct (step_hex sc h1 H) as (E1 & _).
    destruct (step_hex sc h2 H0) as (_ & E2 & _).
    destruct (step_hex sc h3 H1) as (_ & _ & E3 & _).
    destruct (step_hex sc h4 H2) as (_ & _ & _ & E4).
    destruct n as [|[|[|[|[|[|n]]]]]]; cbn [firstn];
      repeat first
        [ rewrite (loop_continue _ _ _ _ (step_backslash sc))
        | rewrite (loop_continue _ _ _ _ (step_u sc))
        | rewrite (loop_continue _ _ _ _ E1)
        | rewrite (loop_continue _ _ _ _ E2)
        | rewrite (loop_continue _ _ _ _ E3)
        | rewrite (loop_continue _ _ _ _ E4) ];
      [ now exists StateInString | now exists StateInStringEsc
      | now exists StateInStringEscU | now exists StateInStringEscU1
      | now exists StateInStringEscU12 | now exists StateInStringEscU123
      | apply IHbody ].
Qed.

Lemma eof_in_string sc f :
  in_string f = true -> endTop sc = false -> err sc = None ->
  exists c ctx, finish (inr (with_step sc f)) = Some (SyntaxError c ctx).
Proof.
  destruct sc as [f0 en ps er]. cbn. intros Hf -> ->.
  destruct f; try discriminate; cbn; eauto.
Qed.

Lemma firstn_app_cases (A : Type) (n : nat) (a b : list A) :
  ((n <= List.length a)%nat /\ firstn n (a ++ b) = firstn n a) \/
  (exists k, n = (List.length a + k)%nat /\ firstn n (a ++ b) = a ++ firstn k b).
Proof.
  destruct (Nat.le_gt_cases n (List.length a)) as [H|H].
  - left. split; [assumption|]. rewrite firstn_app.
    replace (n - List.length a)%nat with 0%nat by lia.
    cbn. apply app_nil_r.
  - right. exists (n - List.length a)%nat. split; [lia|].
    rewrite firstn_app. f_equal. apply firstn_all2. lia.
Qed.


Lemma scan_seg0 : checkValid_loop seg0 reset = inr in_value.
Proof. reflexivity. Qed.

Lemma scan_seg1 : checkValid_loop seg1 in_value = inr in_value.
Proof. reflexivity. Qed.

Lemma scan_body_value t rest :
  body t ->
  checkValid_loop (t ++ rest) in_value = checkValid_loop rest in_value.
Proof. intros H. apply (scan_body t H in_value rest). Qed.

Lemma scan_body_value_firstn t n :
  body t ->
  exists c ctx,
  finish (checkValid_loop (firstn n t) in_value) = Some (SyntaxError c ctx).
Proof.
  intros H. destruct (scan_body_firstn t H n in_value) as (f & Hf & E).
  change (with_step in_value StateInString) with in_value in E.
  rewrite E. now apply eof_in_string.
Qed.

Ltac small_prefix n :=
  do 11 (try (destruct n as [|n]; [vm_compute; eauto|]));
  exfalso; lia.

Lemma checkValid_truncated (m : Message) (n : nat) :
  (n < List.length (fst (Marshal m)))%nat ->
  exists c ctx,
  checkValid (firstn n (fst (Marshal m))) = Some (SyntaxError c ctx).
Proof.
  rewrite Marshal_shape, checkValid_finish.
  pose proof (encoded_body _ _ (encoded_appendString (User m))) as B1.
  pose proof (encoded_body _ _ (encoded_appendString (Text m))) as B2.
  set (b1 := appendString_loop true (User m)) in *.
  set (b2 := appendString_loop true (Text m)) in *.
  rewrite !List.length_app. intros Hn.
  destruct (firstn_app_cases _ n seg0 (b1 ++ seg1 ++ b2 ++ seg2))
    as [[Hle ->] | (n1 & -> & ->)].
  { clear Hn. change (List.length seg0) with 9%nat in Hle.
    small_prefix n. }
  rewrite checkValid_loop_app, scan_seg0.
  destruct (firstn_app_cases _ n1 b1 (seg1 ++ b2 ++ seg2))
    as [[Hle ->] | (n2 & -> & ->)].
  { now apply scan_body_value_firstn. }
  rewrite scan_body_value by assumption.
  destruct (firstn_app_cases _ n2 seg1 (b2 ++ seg2))
    as [[Hle ->] | (n3 & -> & ->)].
  { clear Hn. change (List.length seg1) with 10%nat in Hle.
    small_prefix n2. }
  rewrite checkValid_loop_app, scan_seg1.
  destruct (firstn_app_cases _ n3 b2 seg2)
    as [[Hle ->] | (n4 & -> & ->)].
  { now apply scan_body_value_firstn. }
  rewrite scan_body_value by assumption.
  change (List.length seg2) with 2%nat in Hn.
  assert (H4 : (n4 < 2)%nat) by lia. clear Hn.
  small_prefix n4.
Qed.

(** rescanLiteral over a string body *)

Lemma plain_facts b :
  plain b = true ->
  beq b backslash = false /\ beq b dquote = false /\
  (code b <? code " ") = false.
Proof. byte_cases b; vm_compute; intuition congruence. Qed.

Lemma hex_plain h : isHex h = true -> plain h = true.
Proof. byte_cases h; vm_compute; congruence. Qed.

Lemma rescan_plain b u :
  plain b = true ->
  rescan_string (b :: u) =
  let '(lit, after) := rescan_string u in (b :: lit, after).
Proof.
  intros H. destruct (plain_facts b H) as (H1 & H2 & _).
  cbn [rescan_string]. now rewrite H1, H2.
Qed.

Lemma rescan_backslash e u :
  rescan_string (backslash :: e :: u) =
  let '(lit, after) := rescan_string u in (backslash :: e :: lit, after).
Proof. reflexivity. Qed.

Lemma rescan_body t rest :
  body t -> rescan_string (t ++ dquote :: rest) = (t ++ [dquote], rest).
Proof.
  induction 1; cbn [app].
  - reflexivity.
  - rewrite (rescan_plain b _ H), IHbody. reflexivity.
  - now rewrite rescan_backslash, IHbody.
  - rewrite rescan_backslash.
    rewrite (rescan_plain h1 _ (hex_plain h1 H)),
            (rescan_plain h2 _ (hex_plain h2 H0)),
            (rescan_plain h3 _ (hex_plain h3 H1)),
            (rescan_plain h4 _ (hex_plain h4 H2)), IHbody.
    reflexivity.
Qed.

(** Unquoting *)

Lemma option_map_app_nil (x : option bytes) : option_map (app []) x = x.
Proof. now destruct x. Qed.

Lemma option_map_cons_app b l (x : option bytes) :
  option_map (cons b) (option_map (app l) x) = option_map (app (b :: l)) x.
Proof. now destruct x. Qed.

Lemma option_map_app_app l1 l2 (x : option bytes) :
  option_map (app l1) (option_map (app l2) x) = option_map (app (l1 ++ l2)) x.
Proof. destruct x; cbn; [now rewrite app_assoc | reflexivity]. Qed.

Lemma firstn_add (A : Type) (a b : nat) (l : list A) :
  firstn (a + b) l = firstn a l ++ firstn b (skipn a l).
Proof.
  revert l. induction a as [|a IH]; intros [|x l]; cbn; auto.
  - now rewrite firstn_nil.
  - now rewrite IH.
Qed.

Lemma skipn_add (A : Type) (a b : nat) (l : list A) :
  skipn (a + b) l = skipn b (skipn a l).
Proof.
  revert l. induction a as [|a IH]; intros [|x l]; cbn; auto.
  now rewrite skipn_nil.
Qed.

Lemma unquote_fast t :
  unquote_loop t =
  option_map (app (firstn (unquote_scan t) t))
             (unquote_loop (skipn (unquote_scan t) t)).
Proof.
  induction t as [|c rest IH] using bytes_suffix_ind.
  - now rewrite unquote_scan_equation_1.
  - rewrite unquote_scan_equation_2.
    destruct (beq c backslash || beq c dquote || (code c <? code " ")) eqn:Hu.
    { cbn [firstn skipn]. now rewrite option_map_app_nil. }
    apply orb_false_elim in Hu as [Hu H3].
    apply orb_false_elim in Hu as [H1 H2].
    destruct (code c <? RuneSelf) eqn:Ha.
    { rewrite unquote_loop_equation_2, H1, H2, H3, Ha. cbn [orb].
      cbn [firstn skipn]. rewrite (IH 0%nat) at 1. cbn [skipn].
      apply option_map_cons_app. }
    destruct (DecodeRune (c :: rest)) as [rr size] eqn:D.
    destruct (DecodeRune_complete _ _ D) as [R | [-> ->]].
    + apply Z.ltb_ge in Ha.
      pose proof (rune_at_multi _ _ _ _ R Ha) as Hn.
      replace ((size =? 1)%nat) with false
        by (symmetry; apply Nat.eqb_neq; lia).
      rewrite andb_false_r.
      pose proof (IH (size - 1)%nat) as IHt.
      pose proof (skipn_pred _ size c rest ltac:(lia)) as Et.
      set (tail := skipn (size - 1) rest) in *.
      rewrite unquote_loop_equation_2 at 1.
      rewrite H1, H2, H3, D. cbn [orb].
      replace (code c <? RuneSelf) with false by (symmetry; now apply Z.ltb_ge).
      fold tail.
      rewrite firstn_add, skipn_add, <- Et.
      rewrite IHt at 1.
      rewrite option_map_app_app.
      now rewrite (EncodeRune_rune_at R).
    + rewrite Z.eqb_refl. cbn [andb Nat.eqb firstn skipn].
      now rewrite option_map_app_nil.
Qed.

Lemma unquoteBytes_quoted t :
  unquoteBytes (dquote :: t ++ [dquote]) = unquote_loop t.
Proof.
  unfold unquoteBytes. set (s := dquote :: t ++ [dquote]).
  assert (L : List.length s = S (S (List.length t)))
    by (unfold s; cbn; rewrite List.length_app; cbn; lia).
  assert (N0 : nth 0 s zero = dquote) by reflexivity.
  assert (N1 : nth (List.length s - 1) s zero = dquote).
  { rewrite L. replace (S (S (List.length t)) - 1)%nat
      with (S (List.length t)) by lia.
    unfold s. cbn [nth]. rewrite app_nth2 by lia. now rewrite Nat.sub_diag. }
  assert (F : firstn (List.length s - 2) (skipn 1 s) = t).
  { rewrite L. unfold s. cbn [skipn].
    replace (S (S (List.length t)) - 2)%nat with (List.length t) by lia.
    rewrite firstn_app, Nat.sub_diag, firstn_all. cbn. now rewrite app_nil_r. }
  rewrite N0, N1, F, L.
  change ((S (S (List.length t)) <? 2)%nat || negb (beq dquote dquote)
          || negb (beq dquote dquote)) with false.
  cbv iota. rewrite (unquote_fast t) at 1.
  destruct (Nat.eqb_spec (unquote_scan t) (List.length t)) as [E|_];
    [|reflexivity].
  rewrite E, firstn_all, skipn_all, unquote_loop_equation_1. cbn.
  now rewrite app_nil_r.
Qed.


(** ** Unquoting what [appendString] wrote *)

Lemma Valid_rune_at p r n :
  rune_at p r n -> Valid p = Valid (skipn n p).
Proof.
  intros R. destruct p as [|b rest]; [inversion R|].
  rewrite Valid_equation_2.
  destruct (Z.ltb_spec (code b) RuneSelf) as [Hlt|Hge].
  - inversion R; subst; unfold RuneSelf in *; try lia. reflexivity.
  - pose proof (rune_at_multi _ _ _ _ R Hge) as Hn.
    rewrite (DecodeRune_sound R).
    replace ((n =? 1)%nat) with false by (symmetry; apply Nat.eqb_neq; lia).
    rewrite andb_false_r. now rewrite (skipn_pred _ n b rest) by lia.
Qed.

Lemma safe_facts b :
  htmlSafeSet b = true ->
  beq b backslash = false /\ beq b dquote = false /\
  (code b <? code " ") = false /\ (code b <? RuneSelf) = true.
Proof. byte_cases b; vm_compute; intuition congruence. Qed.

Lemma high_facts b :
  RuneSelf <= code b ->
  beq b backslash = false /\ beq b dquote = false /\
  (code b <? code " ") = false /\ (code b <? RuneSelf) = false.
Proof.
  intros H. apply Z.leb_le in H. revert H.
  byte_cases b; vm_compute; intuition congruence.
Qed.

Lemma unquote_loop_simple e c rest :
  simple_decode e = Some c ->
  unquote_loop (backslash :: e :: rest) = option_map (cons c) (unquote_loop rest).
Proof.
  rewrite unquote_loop_equation_2.
  change (beq backslash backslash) with true. cbv iota zeta.
  cbn [List.length Nat.ltb Nat.leb nth skipn].
  unfold simple_decode.
  repeat match goal with
  | |- (if ?c then _ else _) = _ -> _ =>
      destruct c; [intros [= <-]; reflexivity|]
  end.
  discriminate.
Qed.

Lemma unquote_loop_u h1 h2 h3 h4 rest rr :
  getu4_loop [h1; h2; h3; h4] 0 = rr -> (rr <? 0) = false ->
  utf16_IsSurrogate rr = false ->
  unquote_loop (backslash :: "u"%char :: h1 :: h2 :: h3 :: h4 :: rest)
  = option_map (app (EncodeRune rr)) (unquote_loop rest).
Proof.
  intros G Hpos Hs.
  rewrite unquote_loop_equation_2.
  change (getu4 (backslash :: "u"%char :: h1 :: h2 :: h3 :: h4 :: rest))
    with (getu4_loop [h1; h2; h3; h4] 0).
  rewrite G. cbv zeta.
  change (beq backslash backslash) with true. cbv iota.
  cbn [List.length Nat.ltb Nat.leb nth skipn].
  change (beq "u" dquote || beq "u" backslash || beq "u" "/" || beq "u" "'") with false.
  change (beq "u" "b") with false. change (beq "u" "f") with false.
  change (beq "u" "n") with false. change (beq "u" "r") with false.
  change (beq "u" "t") with false. change (beq "u" "u") with true.
  cbv iota. now rewrite Hpos, Hs.
Qed.

Lemma escape_shape b :
  code b < RuneSelf -> htmlSafeSet b = false ->
  (exists e, escape b = [backslash; e] /\ simple_decode e = Some b) \/
  (exists h1 h2, escape b = [backslash; "u"; "0"; "0"; h1; h2]%char /\
                 getu4_loop ["0"; "0"; h1; h2]%char 0 = code b).
Proof.
  intros H. apply Z.ltb_lt in H. revert H.
  destruct b as [[] [] [] [] [] [] [] []]; intros H1 H2;
    vm_compute in H1; vm_compute in H2; try discriminate; clear H1 H2.
  all: first [ left; eexists; split; reflexivity
             | right; do 2 eexists; split; reflexivity ].
Qed.

Lemma EncodeRune_ascii b : code b < RuneSelf -> EncodeRune (code b) = [b].
Proof.
  intros H. pose proof (code_range b). unfold EncodeRune, uint32.
  rewrite Z.mod_small by lia. unfold rune1Max, RuneSelf in *.
  destruct (Z.leb_spec (code b) 127); [|lia]. now rewrite byte_of_code.
Qed.

Lemma unquote_escape b o :
  code b < RuneSelf -> htmlSafeSet b = false ->
  unquote_loop (escape b ++ o) = option_map (cons b) (unquote_loop o).
Proof.
  intros H Hs. pose proof (code_range b) as Hr.
  destruct (escape_shape b H Hs) as [(e & -> & D) | (h1 & h2 & -> & G)].
  - now apply unquote_loop_simple.
  - cbn [app]. rewrite (unquote_loop_u _ _ _ _ _ (code b) G).
    + now rewrite (EncodeRune_ascii b H).
    + apply Z.ltb_ge. lia.
    + unfold utf16_IsSurrogate, surr1, RuneSelf in *.
      destruct (Z.leb_spec 55296 (code b)); [lia|reflexivity].
Qed.

Lemma unquote_separator r o :
  r = 0x2028 \/ r = 0x2029 ->
  unquote_loop (B "\u202" ++ [hex (Z.land r 15)] ++ o)
  = option_map (app (EncodeRune r)) (unquote_loop o).
Proof.
  intros [-> | ->]; cbn [B list_ascii_of_string app];
    now apply unquote_loop_u.
Qed.

Lemma rune_at_app p r n o :
  rune_at p r n -> rune_at (firstn n p ++ o) r n.
Proof.
  intros R. apply (rune_at_ext _ _ _ _ R).
  rewrite firstn_app.
  rewrite firstn_firstn, Nat.min_id.
  rewrite List.length_firstn.
  destruct (rune_at_size _ _ _ R) as [_ Hl].
  replace (n - Nat.min n (List.length p))%nat with 0%nat by lia.
  cbn. now rewrite app_nil_r.
Qed.

Lemma unquote_rune p r n o :
  rune_at p r n -> (2 <= n)%nat ->
  unquote_loop (firstn n p ++ o)
  = option_map (app (firstn n p)) (unquote_loop o).
Proof.
  intros R Hn. pose proof (rune_at_app _ _ _ o R) as R'.
  destruct (rune_at_size _ _ _ R) as [_ Hl].
  destruct p as [|c rest]; [inversion R|].
  assert (Hc : RuneSelf <= code c)
    by (inversion R; subst; unfold RuneSelf, cont in *; lia).
  destruct (high_facts c Hc) as (H1 & H2 & H3 & H4).
  destruct n as [|n]; [lia|].
  rewrite <- (EncodeRune_rune_at R) at 2.
  change (firstn (S n) (c :: rest)) with (c :: firstn n rest) in *.
  cbn [app] in *.
  rewrite unquote_loop_equation_2, H1, H2, H3, H4. cbn [orb].
  rewrite (DecodeRune_sound R').
  replace (S n - 1)%nat with n by lia.
  rewrite skipn_app, List.length_firstn.
  cbn [List.length] in Hl.
  replace (n - Nat.min n (List.length rest))%nat with 0%nat by lia.
  rewrite skipn_firstn_comm. replace (n - n)%nat with 0%nat by lia.
  reflexivity.
Qed.

Lemma unquote_encoded s o :
  encoded s o -> Valid s = true -> unquote_loop o = Some s.
Proof.
  induction 1; intros V.
  - now rewrite unquote_loop_equation_1.
  - destruct (safe_facts b H) as (H1 & H2 & H3 & H4).
    rewrite Valid_equation_2, H4 in V.
    rewrite unquote_loop_equation_2, H1, H2, H3, H4. cbn [orb].
    now rewrite (IHencoded V).
  - rewrite Valid_equation_2 in V.
    apply Z.ltb_lt in H. rewrite H in V. apply Z.ltb_lt in H.
    rewrite (unquote_escape b o H H0). now rewrite (IHencoded V).
  - rewrite Valid_equation_2 in V.
    apply Z.ltb_ge in H. rewrite H, H0 in V. discriminate V.
  - rewrite (Valid_rune_at _ _ _ H) in V.
    rewrite (unquote_separator r o H0), (IHencoded V), (EncodeRune_rune_at H). cbn.
    now rewrite firstn_skipn.
  - rewrite (Valid_rune_at _ _ _ H) in V.
    rewrite (unquote_rune _ _ _ o H H0), (IHencoded V). cbn.
    now rewrite firstn_skipn.
Qed.

(** ** A whole message: validity, round trip, recursion bound *)

Lemma scan_seg2 : finish (checkValid_loop seg2 in_value) = None.
Proof. reflexivity. Qed.

Lemma checkValid_Marshal m : checkValid (fst (Marshal m)) = None.
Proof.
  rewrite Marshal_shape, checkValid_finish.
  pose proof (encoded_body _ _ (encoded_appendString (User m))) as B1.
  pose proof (encoded_body _ _ (encoded_appendString (Text m))) as B2.
  rewrite checkValid_loop_app, scan_seg0.
  rewrite scan_body_value by assumption.
  rewrite checkValid_loop_app, scan_seg1.
  rewrite scan_body_value by assumption.
  apply scan_seg2.
Qed.

Lemma unquote_key_user :
  unquoteBytes (dquote :: B "user" ++ [dquote]) = Some (B "user").
Proof. vm_compute. reflexivity. Qed.

Lemma unquote_key_text :
  unquoteBytes (dquote :: B "text" ++ [dquote]) = Some (B "text").
Proof. vm_compute. reflexivity. Qed.

Lemma rescanLiteral_string t c' u op0 sc se :
  body t ->
  rescanLiteral (mkDecodeState (t ++ dquote :: c' :: u) dquote op0 sc se)
  = (dquote :: t ++ [dquote],
     mkDecodeState u c' (fst (stateEndValue sc c'))
                   (snd (stateEndValue sc c')) se).
Proof.
  intros H. unfold rescanLiteral. cbn [last unread scan savedError].
  change (beq dquote dquote) with true. cbv iota.
  rewrite (rescan_body t _ H).
  now destruct (stateEndValue sc c').
Qed.

Section Roundtrip.
Context {tables : CaseTables}.

Lemma lookup_user : lookup (B "user") = Some FUser.
Proof. reflexivity. Qed.

Lemma lookup_text : lookup (B "text") = Some FText.
Proof. reflexivity. Qed.

Lemma Unmarshal_Marshal m :
  Valid (User m) = true -> Valid (Text m) = true ->
  Unmarshal (fst (Marshal m)) (mkMessage [] []) = Ok (m, None).
Proof.
  intros V1 V2. unfold Unmarshal. rewrite checkValid_Marshal.
  rewrite Marshal_shape.
  pose proof (encoded_appendString (User m)) as E1.
  pose proof (encoded_appendString (Text m)) as E2.
  pose proof (encoded_body _ _ E1) as B1.
  pose proof (encoded_body _ _ E2) as B2.
  apply unquote_encoded in E1; [|assumption].
  apply unquote_encoded in E2; [|assumption].
  set (b1 := appendString_loop true (User m)) in *.
  set (b2 := appendString_loop true (Text m)) in *.
  unfold seg0. cbn [B list_ascii_of_string app List.length Nat.add].
  unfold unmarshal, init.
  cbn -[b1 b2 unquoteBytes lookup].
  change [dquote; "u"; "s"; "e"; "r"; dquote]%char
    with (dquote :: B "user" ++ [dquote]).
  rewrite unquote_key_user, lookup_user.
  cbn -[b1 b2 unquoteBytes lookup].
  rewrite (rescanLiteral_string b1 _ _ _ _ _ B1).
  cbn -[b1 b2 unquoteBytes lookup].
  rewrite unquoteBytes_quoted, E1.
  cbn -[b1 b2 unquoteBytes lookup].
  change [dquote; "t"; "e"; "x"; "t"; dquote]%char
    with (dquote :: B "text" ++ [dquote]).
  rewrite unquote_key_text, lookup_text.
  cbn -[b1 b2 unquoteBytes lookup].
  rewrite (rescanLiteral_string b2 _ _ _ _ _ B2).
  cbn -[b1 b2 unquoteBytes lookup].
  rewrite unquoteBytes_quoted, E2.
  cbn -[b1 b2 unquoteBytes lookup].
  now destruct m.
Qed.

(** *** The recursion bound of the decoder is never reached *)


Lemma eof_opcode sc : fst (eof sc) = scanEnd \/ fst (eof sc) = scanError.
Proof.
  unfold eof. destruct (err sc); cbn; auto.
  destruct (endTop sc); cbn; auto.
  destruct (endTop (snd (call sc " "))); cbn; auto.
  destruct (err (snd (call sc " "))); cbn; auto.
Qed.

Lemma scanWhile_loop_len op sc u l :
  let '(u', _, o, _) := scanWhile_loop op sc u l in
  match u with
  | [] => u' = [] /\ (o = scanEnd \/ o = scanError)
  | _ :: _ => (List.length u' < List.length u)%nat
  end.
Proof.
  revert sc l. induction u as [|c u IH]; intros sc l; cbn [scanWhile_loop].
  - pose proof (eof_opcode sc). destruct (eof sc) as [o sc']. cbn in *. auto.
  - destruct (call sc c) as [newOp sc'].
    destruct (negb (opcode_eqb newOp op)); cbn [List.length]; [lia|].
    specialize (IH sc' c).
    destruct (scanWhile_loop op sc' u c) as [[[u' l'] o] sc''].
    destruct u; [destruct IH as [-> _]; cbn; lia | cbn [List.length] in *; lia].
Qed.

Lemma scanWhile_len op d :
  match unread d with
  | [] => len (scanWhile op d) = 0%nat /\
          (opcode_ (scanWhile op d) = scanEnd \/
           opcode_ (scanWhile op d) = scanError)
  | _ :: _ => (len (scanWhile op d) < len d)%nat
  end.
Proof.
  unfold scanWhile, len.
  pose proof (scanWhile_loop_len op (scan d) (unread d) (last d)) as H.
  destruct (scanWhile_loop op (scan d) (unread d) (last d)) as [[[u' l'] o] sc'].
  cbn [unread opcode_]. destruct (unread d); [|assumption].
  destruct H as [-> H]. auto.
Qed.

Lemma scanWhile_le op d : (len (scanWhile op d) <= len d)%nat.
Proof.
  pose proof (scanWhile_len op d) as H. unfold len in *.
  destruct (unread d); cbn [List.length] in *; [destruct H; lia | lia].
Qed.

Lemma skipSpace_le d : (len (skipSpace d) <= len d)%nat.
Proof.
  unfold skipSpace. destruct (opcode_eqb (opcode_ d) scanSkipSpace);
    [apply scanWhile_le | lia].
Qed.

Lemma scanNext_le d : (len (scanNext d) <= len d)%nat.
Proof.
  unfold scanNext, len. destruct (unread d) as [|c u].
  - destruct (eof (scan d)). cbn. lia.
  - destruct (call (scan d) c). cbn. lia.
Qed.

Lemma rescan_string_le u :
  (List.length (snd (rescan_string u)) <= List.length u)%nat.
Proof.
  induction u as [|c u IH] using bytes_suffix_ind; [cbn; lia|].
  cbn [rescan_string]. destruct (beq c backslash).
  - destruct u as [|e u']; [cbn; lia|].
    specialize (IH 1%nat). cbn [skipn] in IH.
    destruct (rescan_string u'). cbn [snd List.length] in *. lia.
  - destruct (beq c dquote); [cbn; lia|].
    specialize (IH 0%nat). cbn [skipn] in IH.
    destruct (rescan_string u). cbn [snd List.length] in *. lia.
Qed.

Lemma rescan_number_le u :
  (List.length (snd (rescan_number u)) <= List.length u)%nat.
Proof.
  induction u as [|c u IH]; cbn [rescan_number]; [cbn; lia|].
  destruct (between "0" "9" c || beq c "." || beq c "e" || beq c "E"
            || beq c "+" || beq c "-"); [|cbn; lia].
  destruct (rescan_number u). cbn [snd List.length] in *. lia.
Qed.

Lemma rescanLiteral_le d : (len (snd (rescanLiteral d)) <= len d)%nat.
Proof.
  unfold rescanLiteral, len.
  pose proof (rescan_string_le (unread d)).
  pose proof (rescan_number_le (unread d)).
  pose proof (List.length_skipn 3 (unread d)).
  pose proof (List.length_skipn 4 (unread d)).
  set (r := if beq (last d) dquote then rescan_string (unread d) else _).
  assert (Hr : (List.length (snd r) <= List.length (unread d))%nat).
  { unfold r. repeat match goal with
    | |- context [if ?c then _ else _] => destruct c
    end; cbn [snd]; lia. }
  destruct r as [lit after]. cbn [snd] in Hr.
  destruct after as [|c' u]; [cbn; lia|].
  destruct (stateEndValue (scan d) c'). cbn [snd unread List.length] in *. lia.
Qed.

Lemma skip_loop_le depth sc u r :
  skip_loop depth sc u = Some r ->
  (List.length (fst (fst (fst r))) <= List.length u)%nat.
Proof.
  revert sc. induction u as [|c u IH]; intros sc; cbn [skip_loop];
    [discriminate|].
  destruct (call sc c) as [op sc'].
  destruct (List.length (parseState sc') <? depth)%nat.
  - intros [= <-]. cbn. lia.
  - intros H. apply IH in H. cbn [List.length]. lia.
Qed.

Lemma skip_le d d' : skip d = Ok d' -> (len d' <= len d)%nat.
Proof.
  unfold skip, len.
  destruct (skip_loop _ (scan d) (unread d)) as [[[[u l] op] sc]|] eqn:E;
    [|discriminate].
  intros [= <-]. apply skip_loop_le in E. exact E.
Qed.

Lemma skip_fuel d : skip d <> OutOfFuel.
Proof.
  unfold skip.
  destruct (skip_loop _ (scan d) (unread d)) as [[[[u l] op] sc]|];
    discriminate.
Qed.

Lemma saveError_len d e : len (saveError d e) = len d.
Proof. unfold saveError, len. now destruct (savedError d). Qed.

Lemma literalStore_len item v d m d' m' :
  literalStore item v d m = Ok (d', m') -> len d' = len d.
Proof.
  unfold literalStore. destruct item as [|c item].
  - intros [= <- <-]. apply saveError_len.
  - repeat match goal with
    | |- context [if ?c then _ else _] => destruct c
    | |- context [match unquoteBytes ?i with _ => _ end] =>
        destruct (unquoteBytes i)
    | |- context [match v with _ => _ end] => destruct v
    end; try discriminate; intros [= <- <-];
    rewrite ?saveError_len; reflexivity.
Qed.

Lemma literalStore_fuel item v d m : literalStore item v d m <> OutOfFuel.
Proof.
  unfold literalStore. destruct item as [|c item]; [discriminate|].
  repeat match goal with
  | |- context [if ?c then _ else _] => destruct c
  | |- context [match unquoteBytes ?i with _ => _ end] =>
      destruct (unquoteBytes i)
  | |- context [match v with _ => _ end] => destruct v
  end; discriminate.
Qed.

(** A value stored into a field, or skipped, needs two units of fuel. *)
Lemma value_leaf fuel v d m :
  v <> TStruct ->
  value (S (S fuel)) v d m <> OutOfFuel /\
  forall d' m', value (S (S fuel)) v d m = Ok (d', m') ->
                (len d' <= len d)%nat.
Proof.
  intros Hv. cbn [value object].
  destruct (opcode_ d); try (split; [discriminate|discriminate]).
  - (* literal *)
    pose proof (rescanLiteral_le d) as Hl.
    destruct (rescanLiteral d) as [item d1]. cbn [snd] in Hl.
    destruct (IsValid v).
    + split; [apply literalStore_fuel|].
      intros d' m' H. apply literalStore_len in H. lia.
    + split; [discriminate|]. intros d' m' [= <- <-]. exact Hl.
  - (* object *)
    destruct v as [|f|]; [congruence| |]; cbn [IsValid].
    + pose proof (skip_fuel (saveError d (UnmarshalTypeError "object"))) as Hf.
      pose proof (skip_le (saveError d (UnmarshalTypeError "object"))) as Hl.
      destruct (skip (saveError d (UnmarshalTypeError "object"))) as [d1| |];
        cbn [bind]; [|split; discriminate|congruence].
      split; [discriminate|]. intros d' m' [= <- <-].
      specialize (Hl d1 eq_refl). rewrite saveError_len in Hl.
      pose proof (scanNext_le d1). lia.
    + pose proof (skip_fuel d) as Hf. pose proof (skip_le d) as Hl.
      destruct (skip d) as [d1| |]; cbn [bind];
        [|split; discriminate|congruence].
      split; [discriminate|]. intros d' m' [= <- <-].
      specialize (Hl d1 eq_refl). pose proof (scanNext_le d1). lia.
  - (* array *)
    unfold array.
    set (d0 := if IsValid v then _ else _).
    assert (H0 : d0 <> OutOfFuel /\ forall d1, d0 = Ok d1 -> (len d1 <= len d)%nat).
    { unfold d0. destruct (IsValid v).
      - split; [apply skip_fuel|]. intros d1 H. apply skip_le in H.
        rewrite saveError_len in H. exact H.
      - split; [apply skip_fuel|]. apply skip_le. }
    destruct H0 as [Hf Hl]. destruct d0 as [d1| |]; cbn [bind];
      [|split; discriminate|congruence].
    split; [discriminate|]. intros d' m' [= <- <-].
    specialize (Hl d1 eq_refl). pose proof (scanNext_le d1). lia.
Qed.

Lemma opcode_eqb_eq a b : opcode_eqb a b = true -> a = b.
Proof. destruct a, b; cbn; congruence. Qed.

Lemma scanWhile_begin op d o :
  opcode_ (scanWhile op d) = o -> o <> scanEnd -> o <> scanError ->
  (len (scanWhile op d) < len d)%nat.
Proof.
  intros Ho H1 H2. pose proof (scanWhile_len op d) as H.
  destruct (unread d); [|assumption].
  destruct H as [_ [H|H]]; congruence.
Qed.

Lemma object_loop_fuel fuel :
  forall d m, (len d + 3 <= fuel)%nat -> object_loop fuel d m <> OutOfFuel.
Proof.
  induction fuel as [|fuel IH]; intros d m Hf; [lia|].
  cbn [object_loop].
  set (d1 := scanWhile scanSkipSpace d).
  destruct (opcode_eqb (opcode_ d1) scanEndObject); [discriminate|].
  destruct (opcode_eqb (opcode_ d1) scanBeginLiteral) eqn:Hb;
    cbn [negb]; [|discriminate].
  apply opcode_eqb_eq in Hb.
  assert (H1 : (len d1 < len d)%nat)
    by (apply (scanWhile_begin _ _ _ Hb); discriminate).
  pose proof (rescanLiteral_le d1) as H2.
  destruct (rescanLiteral d1) as [item d2]. cbn [snd] in H2.
  destruct (unquoteBytes item) as [key|]; [|discriminate].
  set (subv := match lookup key with Some f => TField f | None => TInvalid end).
  assert (Hs : subv <> TStruct) by (unfold subv; destruct (lookup key); discriminate).
  pose proof (skipSpace_le d2) as H3.
  destruct (negb (opcode_eqb (opcode_ (skipSpace d2)) scanObjectKey));
    [discriminate|].
  pose proof (scanWhile_le scanSkipSpace (skipSpace d2)) as H4.
  set (d4 := scanWhile scanSkipSpace (skipSpace d2)) in *.
  destruct fuel as [|[|fuel']]; try lia.
  destruct (value_leaf fuel' subv d4 m Hs) as [Hv Hl].
  destruct (value (S (S fuel')) subv d4 m) as [[d5 m5]| |];
    cbn [bind]; [|discriminate|congruence].
  specialize (Hl d5 m5 eq_refl).
  pose proof (skipSpace_le d5) as H6.
  destruct (opcode_eqb (opcode_ (skipSpace d5)) scanEndObject); [discriminate|].
  destruct (negb (opcode_eqb (opcode_ (skipSpace d5)) scanObjectValue));
    [discriminate|].
  apply IH. lia.
Qed.

(** [Unmarshal] always returns or panics: its recursion bound suffices
    for every input. *)
Lemma Unmarshal_fuel data m : Unmarshal data m <> OutOfFuel.
Proof.
  unfold Unmarshal. destruct (checkValid data); [discriminate|].
  unfold unmarshal.
  set (d0 := mkDecodeState _ _ _ reset _).
  assert (L0 : len d0 = List.length data) by reflexivity.
  set (d1 := scanWhile scanSkipSpace d0).
  assert (R : value (4 + List.length data) TStruct d1 m <> OutOfFuel).
  { cbn [Nat.add value object]. destruct (opcode_ d1) eqn:Ho; try discriminate.
    - pose proof (rescanLiteral_le d1).
      destruct (rescanLiteral d1) as [item d2]. cbn [IsValid].
      apply literalStore_fuel.
    - cbn [IsValid].
      assert (H1 : (len d1 < len d0)%nat)
        by (apply (scanWhile_begin _ _ _ Ho); discriminate).
      pose proof (object_loop_fuel (2 + List.length data) d1 m ltac:(lia)) as Hf.
      cbn [Nat.add] in Hf.
      destruct (object_loop (S (S (List.length data))) d1 m) as [[d2 m2]| |];
        cbn [bind]; [discriminate|discriminate|congruence].
    - cbn [IsValid]. unfold array.
      pose proof (skip_fuel (saveError d1 (UnmarshalTypeError "array"))) as Hf.
      destruct (skip (saveError d1 (UnmarshalTypeError "array")));
        cbn [bind]; [discriminate|discriminate|congruence]. }
  destruct (value (4 + List.length data) TStruct d1 m) as [[d2 m2]| |];
    cbn [bind]; [discriminate|discriminate|congruence].
Qed.

End Roundtrip.


(* ===================================================================== *)
(** * The echo loop and the runs of the programs *)
(* ===================================================================== *)

Import programs.


Lemma cut_app_some delim a b line after :
  cut delim a = Some (line, after) ->
  cut delim (a ++ b) = Some (line, after ++ b).
Proof.
  revert line after. induction a as [|x a IH]; intros line after; cbn.
  - discriminate.
  - destruct (beq x delim); [now intros [= <- <-]|].
    destruct (cut delim a) as [[l r]|]; [|discriminate].
    intros [= <- <-]. now rewrite (IH l r eq_refl).
Qed.

Lemma cut_app_none delim a b :
  cut delim a = None ->
  cut delim (a ++ b) =
  match cut delim b with
  | Some (line, after) => Some (a ++ line, after)
  | None => None
  end.
Proof.
  induction a as [|x a IH]; cbn.
  - intros _. now destruct (cut delim b) as [[l r]|].
  - destruct (beq x delim); [discriminate|].
    destruct (cut delim a) as [[l r]|]; [discriminate|].
    intros _. rewrite (IH eq_refl). now destruct (cut delim b) as [[l r]|].
Qed.

Lemma fill_cut delim chunks :
  forall line, cut delim line = None ->
  match cut delim (line ++ List.concat chunks) with
  | Some (l, after) =>
      exists buf later,
      fill delim line chunks = (l, true, buf, later) /\
      buf ++ List.concat later = after
  | None => fill delim line chunks = (line ++ List.concat chunks, false, [], [])
  end.
Proof.
  induction chunks as [|chunk chunks IH]; intros line Hl; cbn [fill List.concat].
  - rewrite app_nil_r, Hl. reflexivity.
  - rewrite app_assoc.
    destruct (cut delim chunk) as [[pre post]|] eqn:E.
    + rewrite (cut_app_some delim (line ++ chunk) _ (line ++ pre) post).
      * exists post, chunks. auto.
      * rewrite (cut_app_none _ _ _ Hl), E. reflexivity.
    + apply IH. now rewrite (cut_app_none _ _ _ Hl), E.
Qed.

Lemma lines_cut s :
  lines s =
  match cut newline s with
  | Some (l, after) => (l :: fst (lines after), snd (lines after))
  | None => ([], s)
  end.
Proof.
  induction s as [|b s IH]; cbn [lines cut]; [reflexivity|].
  destruct (beq b newline).
  - now destruct (lines s).
  - rewrite IH. destruct (cut newline s) as [[l after]|]; reflexivity.
Qed.

(** [ReadString] on the only connection of a world *)

Lemma ReadString_one addr pend e acks got a t buf :
  match cut newline (buf ++ List.concat pend) with
  | Some (line, after) =>
      exists buf' pend',
      ReadString (mkReader 0 buf) newline
                 (mkWorld [conn1 addr pend e acks got] a t)
      = (Ok (line, None, mkReader 0 buf'),
         mkWorld [conn1 addr pend' e acks got] a
                 (t ++ [EvReadString 0%nat line None])) /\
      buf' ++ List.concat pend' = after
  | None =>
      ReadString (mkReader 0 buf) newline
                 (mkWorld [conn1 addr pend e acks got] a t)
      = (Ok (buf ++ List.concat pend, Some e, mkReader 0 []),
         mkWorld [conn1 addr [] e acks got] a
                 (t ++ [EvReadString 0%nat (buf ++ List.concat pend)
                                     (Some e)]))
  end.
Proof.
  unfold ReadString. cbn [rd buffered].
  destruct (cut newline buf) as [[l r]|] eqn:C.
  - rewrite (cut_app_some _ _ _ _ _ C). exists r, pend. split; reflexivity.
  - pose proof (fill_cut newline pend buf C) as F.
    destruct (cut newline (buf ++ List.concat pend)) as [[l after]|].
    + destruct F as (buf' & later & F & E). exists buf', later.
      split; [|assumption]. cbn. rewrite F. reflexivity.
    + cbn. rewrite F. reflexivity.
Qed.

Lemma echo_loop_clause c r w x (e : ReadString r newline w = x) :
  echo_loop_unfold_clause_1 c r w (exist _ x e) =
  match x with
  | (Ok (msg, None, r'), w') =>
      echo_loop c r'
        (snd ((Print (B "Received: " ++ msg) ;;
               _ <- Write c msg ;; ret tt)%go w'))
  | (Ok (_, Some _, _), w') => (Ok tt, w')
  | (Panic v, w') => (Panic v, w')
  | (OutOfFuel, w') => (OutOfFuel, w')
  end.
Proof. destruct x as [[[[msg [err|]] r']|v|] w']; reflexivity. Qed.

Lemma echo_loop_unfold c r w :
  echo_loop c r w =
  match ReadString r newline w with
  | (Ok (msg, None, r'), w') =>
      echo_loop c r'
        (snd ((Print (B "Received: " ++ msg) ;;
               _ <- Write c msg ;; ret tt)%go w'))
  | (Ok (_, Some _, _), w') => (Ok tt, w')
  | (Panic v, w') => (Panic v, w')
  | (OutOfFuel, w') => (OutOfFuel, w')
  end.
Proof.
  rewrite echo_loop_equation_1. unfold inspect. apply echo_loop_clause.
Qed.

Lemma Print_Write_one addr pend e acks got a t out data :
  snd ((Print out ;; _ <- Write 0 data ;; ret tt)%go
         (mkWorld [conn1 addr pend e acks got] a t))
  = mkWorld [conn1 addr pend e (fst (deliver acks got [data]))
                   (snd (deliver acks got [data]))] a
            (t ++ [EvPrint out; EvWrite 0%nat data]).
Proof.
  unfold Print, Write, log, bindM. cbn.
  destruct acks as [|[err|] later]; cbn; rewrite <- app_assoc; reflexivity.
Qed.

Lemma deliver_cons acks got l ls :
  deliver acks got (l :: ls)
  = deliver (fst (deliver acks got [l])) (snd (deliver acks got [l])) ls.
Proof. cbn. now destruct acks as [|[err|] later]. Qed.

Lemma echo_loop_one addr e n :
  forall pend acks got a t buf,
  List.length (buf ++ List.concat pend) = n ->
  echo_loop 0 (mkReader 0 buf) (mkWorld [conn1 addr pend e acks got] a t)
  = (Ok tt,
     mkWorld
       [conn1 addr [] e
          (fst (deliver acks got (fst (lines (buf ++ List.concat pend)))))
          (snd (deliver acks got (fst (lines (buf ++ List.concat pend)))))]
       a
       (t ++ echo_events 0 (fst (lines (buf ++ List.concat pend)))
          ++ [EvReadString 0%nat (snd (lines (buf ++ List.concat pend)))
                           (Some e)])).
Proof.
  induction n as [n IH] using lt_wf_ind.
  intros pend acks got a t buf Hn.
  rewrite echo_loop_unfold, lines_cut.
  pose proof (ReadString_one addr pend e acks got a t buf) as R.
  destruct (cut newline (buf ++ List.concat pend)) as [[line after]|] eqn:C.
  - destruct R as (buf' & pend' & -> & E).
    rewrite Print_Write_one.
    apply cut_length in C as [C Hpos].
    rewrite (IH (List.length (buf' ++ List.concat pend')));
      [|rewrite E, <- Hn, C, List.length_app; lia|reflexivity].
    rewrite E. cbn [fst snd echo_events].
    rewrite (deliver_cons acks got line (fst (lines after))), <- !app_assoc.
    cbn [app]. reflexivity.
  - rewrite R. reflexivity.
Qed.

(** * Whole runs *)

Lemma echo_server_listen_error env e :
  listen_result env = Some e ->
  run (echo_server_main env)
  = (Panic (PanicError e), mkWorld [] 0 [EvListen host (Some e)]).
Proof.
  intros H. unfold run, echo_server_main, Listen, bindM, log, ret, start.
  cbn. rewrite H. reflexivity.
Qed.

Lemma echo_server_accept_error env e :
  listen_result env = None -> accept_result env 0 = inl e ->
  run (echo_server_main env)
  = (Panic (PanicError e),
     mkWorld [] 1
       [EvListen host None;
        EvPrint (B "Server listening on 127.0.0.1:5000" ++ [newline]);
        EvAccept 0 (Some e); EvCloseListener]).
Proof.
  intros H1 H2.
  unfold run, echo_server_main, Listen, Accept, defer, bindM, log, ret, start.
  cbn. rewrite H1. cbn. rewrite H2. reflexivity.
Qed.

Lemma echo_server_run env p :
  listen_result env = None -> accept_result env 0 = inr p ->
  run (echo_server_main env)
  = (Ok tt,
     mkWorld
       [conn1 (peer_addr p) [] (peer_end p)
          (fst (deliver (peer_acks p) []
                        (fst (lines (List.concat (peer_sends p))))))
          (snd (deliver (peer_acks p) []
                        (fst (lines (List.concat (peer_sends p))))))]
       1
       (echo_session (peer_addr p) (List.concat (peer_sends p)) (peer_end p))).
Proof.
  intros H1 H2.
  unfold run, echo_server_main, Listen, Accept, defer, bindM, log, ret, start.
  cbn -[echo_loop]. rewrite H1. cbn -[echo_loop]. rewrite H2.
  cbn -[echo_loop].
  unfold NewReader.
  rewrite (echo_loop_one _ _ _ _ _ _ _ _ _ eq_refl).
  cbn -[lines deliver echo_events]. unfold echo_session. cbn [app].
  rewrite <- ?app_assoc. reflexivity.
Qed.

Lemma echo_client_dial_error env e :
  dial_result env = inl e ->
  run (echo_client_main env)
  = (Panic (PanicError e), mkWorld [] 0 [EvDial host 0 (Some e)]).
Proof.
  intros H. unfold run, echo_client_main, Dial, bindM, log, ret, start.
  rewrite H. reflexivity.
Qed.

(** The response of the echo client: the first line of what the peer
    sends, or all of it together with the error when no line ends. *)
Lemma echo_client_run env p :
  dial_result env = inr p ->
  exists w,
  run (echo_client_main env) = (Ok tt, w) /\
  trace w =
  match cut newline (List.concat (peer_sends p)) with
  | Some (line, _) =>
      [EvDial host 0 None; EvWrite 0 (B "Hello local server!" ++ [newline]);
       EvReadString 0 line None;
       EvPrint (B "Received: " ++ line); EvClose 0]
  | None =>
      [EvDial host 0 None; EvWrite 0 (B "Hello local server!" ++ [newline]);
       EvReadString 0 (List.concat (peer_sends p)) (Some (peer_end p));
       EvPrint (B "Received: " ++ List.concat (peer_sends p)); EvClose 0]
  end.
Proof.
  intros H.
  unfold run, echo_client_main, Dial, defer, bindM, start. rewrite H.
  unfold open_conn, log, ret, Write, conn_state, set_conn, bindM, NewReader.
  cbn -[ReadString cut].
  destruct (peer_acks p) as [|[e|] later]; cbn -[ReadString cut].
  all: match goal with
       | |- context [ReadString _ _ (mkWorld [mkConnState ?a ?pe ?e ?ac ?g] ?n ?t)] =>
           pose proof (ReadString_one a pe e ac g n t []) as R
       end;
       cbn [app] in R; unfold conn1 in R;
       destruct (cut newline (List.concat (peer_sends p))) as [[line after]|];
       [ destruct R as (buf' & pend' & -> & _) | rewrite R ];
       cbn; eexists; split; reflexivity.
Qed.

Lemma firstn_exact (A : Type) (data rest : list A) :
  firstn (List.length data) (data ++ rest) = data.
Proof.
  rewrite firstn_app, Nat.sub_diag, firstn_all. cbn. apply app_nil_r.
Qed.

Section JSONRuns.
Context {tables : CaseTables}.

Lemma json_server_listen_error env buf e :
  listen_result env = Some e ->
  run (json_server env buf)
  = (Panic (PanicError e), mkWorld [] 0 [EvListen host (Some e)]).
Proof.
  intros H. unfold run, json_server, Listen, bindM, log, ret, start.
  cbn. rewrite H. reflexivity.
Qed.

Lemma json_server_accept_error env buf e :
  listen_result env = None -> accept_result env 0 = inl e ->
  run (json_server env buf)
  = (Panic (PanicError e),
     mkWorld [] 1
       [EvListen host None;
        EvPrint (B "Server listening on 127.0.0.1:5000" ++ [newline]);
        EvAccept 0 (Some e); EvCloseListener]).
Proof.
  intros H1 H2.
  unfold run, json_server, Listen, Accept, defer, bindM, log, ret, start.
  cbn. rewrite H1. cbn. rewrite H2. reflexivity.
Qed.

Lemma json_server_read_error env buf p :
  listen_result env = None -> accept_result env 0 = inr p ->
  peer_sends p = [] ->
  run (json_server env buf)
  = (Panic (PanicError (peer_end p)),
     mkWorld [conn1 (peer_addr p) [] (peer_end p) (peer_acks p) []] 1
       [EvListen host None;
        EvPrint (B "Server listening on 127.0.0.1:5000" ++ [newline]);
        EvAccept 0 None;
        EvPrint (B "Connected by " ++ peer_addr p ++ [newline]);
        EvRead 0 [] (Some (peer_end p));
        EvClose 0; EvCloseListener]).
Proof.
  intros H1 H2 H3.
  unfold run, json_server, Listen, Accept, defer, bindM, log, ret, start.
  cbn. rewrite H1. cbn. rewrite H2. cbn. rewrite H3. reflexivity.
Qed.

Lemma json_server_run env buf p chunk later :
  listen_result env = None -> accept_result env 0 = inr p ->
  peer_sends p = chunk :: later ->
  let data := firstn (List.length buf) chunk in
  run (json_server env buf)
  = (json_result (Unmarshal data zeroMessage),
     mkWorld
       [conn1 (peer_addr p)
          match skipn (List.length buf) chunk with
          | [] => later
          | _ :: _ => skipn (List.length buf) chunk :: later
          end
          (peer_end p) (peer_acks p) []]
       1
       (json_session (peer_addr p) data
                     (json_tail (Unmarshal data zeroMessage)))).
Proof.
  intros H1 H2 H3 data.
  unfold run, json_server, Listen, Accept, defer, bindM, log, ret, start.
  cbn -[Unmarshal firstn skipn]. rewrite H1.
  cbn -[Unmarshal firstn skipn]. rewrite H2.
  cbn -[Unmarshal firstn skipn]. rewrite H3.
  cbn -[Unmarshal firstn skipn].
  fold data. rewrite (firstn_exact _ data).
  unfold json_Unmarshal, json_session, conn1.
  destruct (Unmarshal data zeroMessage) as [[msg [e|]]|v|]; reflexivity.
Qed.

End JSONRuns.

(* ===================================================================== *)
(** * Lines, traces and phases *)
(* ===================================================================== *)

Lemma beq_eq a b : beq a b = true <-> a = b.
Proof. apply Ascii.eqb_eq. Qed.

Lemma beq_neq a b : beq a b = false <-> a <> b.
Proof. apply Ascii.eqb_neq. Qed.

Lemma lines_concat s : List.concat (fst (lines s)) ++ snd (lines s) = s.
Proof.
  induction s as [|b s IH]; cbn [lines]; [reflexivity|].
  destruct (lines s) as [ls partial]. cbn [fst snd] in IH.
  destruct (beq b newline); [cbn; now rewrite IH|].
  destruct ls as [|l ls]; cbn in *; now rewrite IH.
Qed.

Lemma lines_partial s : ~ In newline (snd (lines s)).
Proof.
  induction s as [|b s IH]; cbn [lines]; [auto|].
  destruct (lines s) as [ls partial]. cbn [fst snd] in IH.
  destruct (beq b newline) eqn:E; [exact IH|].
  destruct ls as [|l ls]; cbn [snd]; [|exact IH].
  intros [H|H]; [|auto]. apply beq_neq in E. congruence.
Qed.

Lemma lines_terminated s :
  Forall (fun l => exists l', l = l' ++ [newline] /\ ~ In newline l')
         (fst (lines s)).
Proof.
  induction s as [|b s IH]; cbn [lines]; [constructor|].
  destruct (lines s) as [ls partial]. cbn [fst snd] in IH.
  destruct (beq b newline) eqn:E.
  - constructor; [|exact IH]. apply beq_eq in E. subst b.
    exists []. split; [reflexivity | auto].
  - destruct ls as [|l ls]; [constructor|]. cbn [fst].
    inversion IH as [|? ? (l' & -> & Hn) Hls]; subst.
    constructor; [|exact Hls]. exists (b :: l'). split; [reflexivity|].
    intros [H|H]; [|auto]. apply beq_neq in E. congruence.
Qed.

Lemma lines_single L :
  ~ In newline L -> lines (L ++ [newline]) = ([L ++ [newline]], []).
Proof.
  induction L as [|b L IH]; intros H; cbn [app lines].
  - reflexivity.
  - rewrite IH by (intros H'; apply H; now right).
    destruct (beq b newline) eqn:E; [|reflexivity].
    apply beq_eq in E. exfalso. apply H. now left.
Qed.

Lemma cut_none_lines s : cut newline s = None <-> ~ In newline s.
Proof.
  induction s as [|b s IH]; cbn [cut]; [tauto|].
  destruct (beq b newline) eqn:E.
  - apply beq_eq in E. subst. split; [discriminate|]. intros H. exfalso. apply H. now left.
  - apply beq_neq in E. destruct (cut newline s) as [[l a]|].
    + split; [discriminate|]. intros H. exfalso.
      assert (Hs : ~ In newline s) by (intros H'; apply H; now right).
      apply IH in Hs. discriminate.
    + split; [|reflexivity]. intros _ [H|H]; [congruence|].
      now apply (proj1 IH).
Qed.

Lemma cut_single L rest :
  ~ In newline L ->
  cut newline (L ++ newline :: rest) = Some (L ++ [newline], rest).
Proof.
  induction L as [|b L IH]; intros H; cbn [app cut].
  - reflexivity.
  - destruct (beq b newline) eqn:E.
    + apply beq_eq in E. exfalso. apply H. now left.
    + rewrite IH; [reflexivity|]. intros H'. apply H. now right.
Qed.

Lemma writes_app t1 t2 : writes (t1 ++ t2) = writes t1 ++ writes t2.
Proof.
  induction t1 as [|e t1 IH]; [reflexivity|].
  destruct e; cbn; now rewrite IH.
Qed.

Lemma prints_app t1 t2 : prints (t1 ++ t2) = prints t1 ++ prints t2.
Proof.
  induction t1 as [|e t1 IH]; [reflexivity|].
  destruct e; cbn; now rewrite IH.
Qed.

Lemma writes_echo_events c ls : writes (echo_events c ls) = ls.
Proof. induction ls as [|l ls IH]; cbn; now rewrite ?IH. Qed.

Lemma prints_echo_events c ls :
  prints (echo_events c ls) = map (app (B "Received: ")) ls.
Proof. induction ls as [|l ls IH]; cbn; now rewrite ?IH. Qed.

Lemma writes_echo_session addr s e :
  writes (echo_session addr s e) = fst (lines s).
Proof.
  unfold echo_session. rewrite !writes_app, writes_echo_events.
  cbn. now rewrite app_nil_r.
Qed.

Lemma prints_echo_session addr s e :
  prints (echo_session addr s e)
  = [B "Server listening on 127.0.0.1:5000" ++ [newline];
     B "Connected by " ++ addr ++ [newline]]
    ++ map (app (B "Received: ")) (fst (lines s)).
Proof.
  unfold echo_session. rewrite !prints_app, prints_echo_events.
  cbn. now rewrite app_nil_r.
Qed.

Lemma quiet_echo_events c ls : forallb quiet (echo_events c ls) = true.
Proof. induction ls as [|l ls IH]; cbn; auto. Qed.

Lemma count_app p t1 t2 : count p (t1 ++ t2) = (count p t1 + count p t2)%nat.
Proof. unfold count. now rewrite filter_app, List.length_app. Qed.

Lemma count_accept_quiet t : forallb quiet t = true -> count is_accept t = 0%nat.
Proof.
  unfold count. induction t as [|e t IH]; [reflexivity|]. cbn.
  destruct e; cbn; try discriminate; auto.
Qed.

Lemma active_quiet t : forall open,
  forallb quiet t = true ->
  (List.length (active t open) <= List.length open)%nat.
Proof.
  induction t as [|e t IH]; intros open H; cbn [active]; [lia|].
  cbn in H. apply andb_prop in H as [He Ht].
  destruct e; try discriminate; try (now apply IH).
  etransitivity; [apply IH; assumption|].
  clear. induction open as [|x open IH]; cbn; [lia|].
  destruct (Nat.eq_dec c x); cbn; lia.
Qed.

Lemma firstn_quiet k t : forallb quiet t = true -> forallb quiet (firstn k t) = true.
Proof.
  revert k. induction t as [|e t IH]; intros [|k] H; cbn in *; auto.
  apply andb_prop in H as [-> H]. cbn. auto.
Qed.

Lemma active_app t1 t2 open : active (t1 ++ t2) open = active t2 (active t1 open).
Proof.
  revert open. induction t1 as [|e t1 IH]; intros open; [reflexivity|].
  destruct e as [| c [err|] | | | | | | |]; cbn; auto.
Qed.

(** At most one connection is open at any time of a run that starts with
    [head] (which leaves at most one connection open) and goes on without
    accepting. *)
Lemma active_prefix head rest k :
  (forall j, List.length (active (firstn j head) []) <= 1)%nat ->
  forallb quiet rest = true ->
  (List.length (active (firstn k (head ++ rest)) []) <= 1)%nat.
Proof.
  intros Hh Hr. rewrite firstn_app, active_app.
  etransitivity; [apply active_quiet, firstn_quiet, Hr | apply Hh].
Qed.

(** * Phases of the echo server *)

Lemma phase_of_app t1 t2 :
  phase_of (t1 ++ t2) = fold_left phase_step t2 (phase_of t1).
Proof. unfold phase_of. apply fold_left_app. Qed.

Lemma phase_quiet l : forall p,
  forallb quiet l = true -> p = Echoing \/ p = Closed ->
  fold_left phase_step l p = Echoing \/ fold_left phase_step l p = Closed.
Proof.
  induction l as [|e l IH]; intros p H Hp; cbn [fold_left]; [exact Hp|].
  cbn in H. apply andb_prop in H as [He Hl]. apply IH; [exact Hl|].
  destruct e as [|? ?|? ? ?|? ? [?|]|? ? [?|]| | | |]; try discriminate; cbn; auto.
Qed.

Lemma echo_session_split addr s e :
  echo_session addr s e = echo_head addr ++ echo_rest s e.
Proof. reflexivity. Qed.

Lemma quiet_echo_rest s e : forallb quiet (echo_rest s e) = true.
Proof.
  unfold echo_rest. rewrite forallb_app, quiet_echo_events. reflexivity.
Qed.

Lemma echo_head_prefix addr pre mid :
  echo_head addr = pre ++ mid -> phase_of pre <> Echoing.
Proof.
  unfold echo_head.
  destruct pre as [|e1 [|e2 [|e3 [|e4 [|e5 pre]]]]]; cbn [app];
    intros [= ]; subst; cbn; discriminate.
Qed.

Lemma echo_phase addr s e pre mid post :
  echo_session addr s e = pre ++ mid ++ post ->
  phase_of pre = Echoing ->
  phase_of (pre ++ mid) = Echoing \/ phase_of (pre ++ mid) = Closed.
Proof.
  rewrite echo_session_split. intros H Hp. symmetry in H.
  apply app_eq_app in H as [l [[-> H]|[H _]]].
  - rewrite phase_of_app. apply phase_quiet; [|now left].
    pose proof (quiet_echo_rest s e) as Q. rewrite H in Q.
    rewrite !forallb_app in Q.
    apply andb_prop in Q as [_ Q]. now apply andb_prop in Q as [Q _].
  - exfalso. now apply (echo_head_prefix addr pre l).
Qed.

Lemma echo_phase_end addr s e : phase_of (echo_session addr s e) = Closed.
Proof.
  unfold echo_session.
  change [EvReadString 0 (snd (lines s)) (Some e); EvClose 0; EvCloseListener]
    with ([EvReadString 0 (snd (lines s)) (Some e); EvClose 0] ++ [EvCloseListener]).
  rewrite !app_assoc, phase_of_app. reflexivity.
Qed.

(* ===================================================================== *)
(** * The echo flow *)
(* ===================================================================== *)

Lemma deliver_all got ls : deliver [] got ls = ([], got ++ ls).
Proof.
  revert got. induction ls as [|l ls IH]; intros got; cbn.
  - now rewrite app_nil_r.
  - rewrite IH, <- app_assoc. reflexivity.
Qed.

(** C2.  For a line [L] without a newline, an echo server that receives
    [L] followed by a newline (in any number of chunks) calls [Write]
    exactly once, with [L] and the newline; when the write goes through,
    that is what the peer gets, and an echo client whose peer sends it
    reads back [L] and the newline without error and prints it. *)
Theorem C2_echo_line (L : bytes) (env envc : Env) (p pc : Peer) :
  ~ In newline L ->
  listen_result env = None -> accept_result env 0 = inr p ->
  List.concat (peer_sends p) = L ++ [newline] ->
  peer_acks p = [] ->
  dial_result envc = inr pc ->
  peer_sends pc = delivered (conn_state 0 (snd (run (echo_server_main env)))) ->
  writes (trace (snd (run (echo_server_main env)))) = [L ++ [newline]] /\
  delivered (conn_state 0 (snd (run (echo_server_main env))))
  = [L ++ [newline]] /\
  fst (run (echo_client_main envc)) = Ok tt /\
  In (EvReadString 0 (L ++ [newline]) None)
     (trace (snd (run (echo_client_main envc)))) /\
  prints (trace (snd (run (echo_client_main envc))))
  = [B "Received: " ++ L ++ [newline]].
Proof.
  intros HL H1 H2 Hs Ha Hd Hp.
  rewrite (echo_server_run env p H1 H2) in *. cbn [snd trace] in *.
  rewrite writes_echo_session, Hs, (lines_single L HL) in *.
  rewrite Ha, deliver_all in Hp |- *. cbn in Hp |- *.
  split; [reflexivity|]. split; [reflexivity|].
  destruct (echo_client_run envc pc Hd) as (w & -> & Ht). cbn [fst snd].
  rewrite Ht, Hp. cbn [List.concat]. rewrite app_nil_r.
  rewrite (cut_single L [] HL). repeat split; cbn; auto.
Qed.

Lemma C2_witness :
  writes (trace (snd (run (echo_server_main
     (one_peer [B "Hello local server!" ++ [newline]] [])))))
  = [B "Hello local server!" ++ [newline]] /\
  prints (trace (snd (run (echo_client_main
     (one_peer [B "Hello local server!" ++ [newline]] [])))))
  = [B "Received: " ++ B "Hello local server!" ++ [newline]].
Proof.
  pose proof (C2_echo_line (B "Hello local server!")
    (one_peer [B "Hello local server!" ++ [newline]] [])
    (one_peer [B "Hello local server!" ++ [newline]] [])
    (mkPeer (B "127.0.0.1:40000") [B "Hello local server!" ++ [newline]] EOF [])
    (mkPeer (B "127.0.0.1:5000") [B "Hello local server!" ++ [newline]] EOF []))
    as H.
  assert (N : ~ In newline (B "Hello local server!")).
  { intros HIn. cbn in HIn.
    repeat (destruct HIn as [HIn|HIn]; [discriminate HIn|]). exact HIn. }
  assert (D : [B "Hello local server!" ++ [newline]]
              = delivered (conn_state 0 (snd (run (echo_server_main
                  (one_peer [B "Hello local server!" ++ [newline]] []))))))
    by (vm_compute; reflexivity).
  destruct (H N eq_refl eq_refl eq_refl eq_refl eq_refl D)
    as (Hw & _ & _ & _ & Hp). split; [exact Hw | exact Hp].
Defined.

(** C3 (as stated, refuted).  When the peer sends bytes without a newline
    and closes, the line-read of the echo client fails with [EOF], yet
    the response is those bytes, not the empty string. *)
Lemma C3_counterexample :
  let t := trace (snd (run (echo_client_main (one_peer [B "abc"] [])))) in
  In (EvReadString 0 (B "abc") (Some EOF)) t /\
  prints t = [B "Received: abc"] /\
  B "abc" <> [].
Proof.
  vm_compute. split; [|split; [reflexivity | discriminate]].
  do 2 right. left. reflexivity.
Qed.

(** C3 (amended).  In the echo client, when the line-read fails (the peer's
    bytes end, with whatever error, before a newline shows up), the
    response is the bytes received before the failure (the empty string
    when there are none), the read error is dropped, and the client prints
    the response and returns normally, closing the connection. *)
Theorem C3_read_failure_keeps_partial_data (env : Env) (p : Peer) :
  dial_result env = inr p ->
  ~ In newline (List.concat (peer_sends p)) ->
  fst (run (echo_client_main env)) = Ok tt /\
  trace (snd (run (echo_client_main env)))
  = [EvDial host 0 None;
     EvWrite 0 (B "Hello local server!" ++ [newline]);
     EvReadString 0 (List.concat (peer_sends p)) (Some (peer_end p));
     EvPrint (B "Received: " ++ List.concat (peer_sends p));
     EvClose 0] /\
  (peer_sends p = [] ->
   prints (trace (snd (run (echo_client_main env)))) = [B "Received: "]).
Proof.
  intros Hd Hn. destruct (echo_client_run env p Hd) as (w & -> & Ht).
  apply cut_none_lines in Hn. rewrite Hn in Ht. cbn [fst snd].
  rewrite Ht. repeat split. intros ->. reflexivity.
Qed.

Lemma C3_witness :
  fst (run (echo_client_main (one_peer [B "abc"] []))) = Ok tt /\
  trace (snd (run (echo_client_main (one_peer [B "abc"] []))))
  = [EvDial host 0 None;
     EvWrite 0 (B "Hello local server!" ++ [newline]);
     EvReadString 0 (B "abc") (Some EOF);
     EvPrint (B "Received: " ++ B "abc");
     EvClose 0].
Proof.
  assert (N : ~ In newline (List.concat [B "abc"])).
  { intros HIn. cbn in HIn.
    repeat (destruct HIn as [HIn|HIn]; [discriminate HIn|]). exact HIn. }
  destruct (C3_read_failure_keeps_partial_data (one_peer [B "abc"] [])
              (mkPeer (B "127.0.0.1:5000") [B "abc"] EOF []) eq_refl N)
    as (H1 & H2 & _).
  split; [exact H1 | exact H2].
Defined.

(** C8.  Whatever error ends the peer's stream (end-of-stream included,
    also after bytes that no newline terminates), the echo server's loop
    ends at that failed read, the function returns normally, and the
    connection and then the listener are closed.  From the moment the
    server is [Echoing], every later moment of the run is [Echoing] or
    [Closed] (so never [Listening] again), and the run ends [Closed]. *)
Theorem C8_echo_read_failure_closes (env : Env) (p : Peer) :
  listen_result env = None -> accept_result env 0 = inr p ->
  let t := trace (snd (run (echo_server_main env))) in
  let s := List.concat (peer_sends p) in
  fst (run (echo_server_main env)) = Ok tt /\
  t = echo_head (peer_addr p)
      ++ echo_events 0 (fst (lines s))
      ++ [EvReadString 0 (snd (lines s)) (Some (peer_end p));
          EvClose 0; EvCloseListener] /\
  phase_of t = Closed /\
  (forall pre mid post,
     t = pre ++ mid ++ post -> phase_of pre = Echoing ->
     (phase_of (pre ++ mid) = Echoing \/ phase_of (pre ++ mid) = Closed) /\
     phase_of (pre ++ mid) <> Listening).
Proof.
  intros H1 H2 t s. unfold t. rewrite (echo_server_run env p H1 H2).
  cbn [fst snd trace]. split; [reflexivity|]. split; [reflexivity|].
  split; [apply echo_phase_end|].
  intros pre mid post Ht Hp.
  pose proof (echo_phase _ _ _ _ _ _ Ht Hp) as H.
  split; [exact H|]. destruct H as [-> | ->]; discriminate.
Qed.

Lemma C8_witness :
  fst (run (echo_server_main (one_peer [B "one" ++ [newline]; B "tw"] [])))
  = Ok tt /\
  phase_of (trace (snd (run (echo_server_main
              (one_peer [B "one" ++ [newline]; B "tw"] []))))) = Closed.
Proof.
  destruct (C8_echo_read_failure_closes
              (one_peer [B "one" ++ [newline]; B "tw"] [])
              (mkPeer (B "127.0.0.1:40000") [B "one" ++ [newline]; B "tw"]
                      EOF [])
              eq_refl eq_refl) as (H1 & _ & H3 & _).
  split; [exact H1 | exact H3].
Defined.

(** C9.  Two runs of the echo server whose peers differ only in the
    results of the writes end the same way and show the same events: the
    same lines read, printed and written back, up to the read error that
    ends the session.  A failed write neither ends the loop nor prints
    anything. *)
Theorem C9_write_errors_ignored (env1 env2 : Env) (p1 p2 : Peer) :
  listen_result env1 = None -> listen_result env2 = None ->
  accept_result env1 0 = inr p1 -> accept_result env2 0 = inr p2 ->
  peer_addr p1 = peer_addr p2 -> peer_sends p1 = peer_sends p2 ->
  peer_end p1 = peer_end p2 ->
  fst (run (echo_server_main env1)) = Ok tt /\
  fst (run (echo_server_main env2)) = Ok tt /\
  trace (snd (run (echo_server_main env1)))
  = trace (snd (run (echo_server_main env2))) /\
  writes (trace (snd (run (echo_server_main env1))))
  = fst (lines (List.concat (peer_sends p1))).
Proof.
  intros L1 L2 A1 A2 Ha Hs He.
  rewrite (echo_server_run env1 p1 L1 A1), (echo_server_run env2 p2 L2 A2).
  cbn [fst snd trace]. rewrite Ha, Hs, He, writes_echo_session. auto.
Qed.

Lemma C9_witness :
  trace (snd (run (echo_server_main
     (one_peer [B "a" ++ [newline]; B "b" ++ [newline]] []))))
  = trace (snd (run (echo_server_main
     (one_peer [B "a" ++ [newline]; B "b" ++ [newline]]
               [Some (OpError "write: broken pipe")])))).
Proof.
  destruct (C9_write_errors_ignored
    (one_peer [B "a" ++ [newline]; B "b" ++ [newline]] [])
    (one_peer [B "a" ++ [newline]; B "b" ++ [newline]]
              [Some (OpError "write: broken pipe")])
    (mkPeer (B "127.0.0.1:40000") [B "a" ++ [newline]; B "b" ++ [newline]]
            EOF [])
    (mkPeer (B "127.0.0.1:40000") [B "a" ++ [newline]; B "b" ++ [newline]]
            EOF [Some (OpError "write: broken pipe")])
    eq_refl eq_refl eq_refl eq_refl eq_refl eq_refl eq_refl)
    as (_ & _ & H & _).
  exact H.
Defined.

(** C10.  The echo server writes back, and prints, the newline-terminated
    lines of what it receives and nothing else: the bytes that follow the
    last newline, which the failing read returns along with the error, are
    neither printed nor written. *)
Theorem C10_partial_line_discarded (env : Env) (p : Peer) :
  listen_result env = None -> accept_result env 0 = inr p ->
  let t := trace (snd (run (echo_server_main env))) in
  let s := List.concat (peer_sends p) in
  writes t = fst (lines s) /\
  prints t = [B "Server listening on 127.0.0.1:5000" ++ [newline];
              B "Connected by " ++ peer_addr p ++ [newline]]
             ++ map (app (B "Received: ")) (fst (lines s)) /\
  Forall (fun l => exists l', l = l' ++ [newline] /\ ~ In newline l')
         (writes t) /\
  s = List.concat (writes t) ++ snd (lines s) /\
  ~ In newline (snd (lines s)) /\
  In (EvReadString 0 (snd (lines s)) (Some (peer_end p))) t.
Proof.
  intros H1 H2 t s. unfold t. rewrite (echo_server_run env p H1 H2).
  cbn [snd trace]. rewrite writes_echo_session, prints_echo_session.
  split; [reflexivity|]. split; [reflexivity|].
  split; [apply lines_terminated|].
  split; [symmetry; apply lines_concat|].
  split; [apply lines_partial|].
  unfold echo_session. rewrite !in_app_iff. right. right. now left.
Qed.

Lemma C10_witness :
  writes (trace (snd (run (echo_server_main
            (one_peer [B "one" ++ [newline] ++ B "tw"] [])))))
  = [B "one" ++ [newline]].
Proof.
  destruct (C10_partial_line_discarded
              (one_peer [B "one" ++ [newline] ++ B "tw"] [])
              (mkPeer (B "127.0.0.1:40000") [B "one" ++ [newline] ++ B "tw"]
                      EOF [])
              eq_refl eq_refl) as (H & _).
  exact H.
Defined.

(* ===================================================================== *)
(** * The JSON flow *)
(* ===================================================================== *)

Lemma make_length n : List.length (make n) = n.
Proof. apply repeat_length. Qed.

Lemma le_1024 n : (n <=? 1024)%nat = true -> (n <= 1024)%nat.
Proof. apply Nat.leb_le. Qed.

(** C1 (as stated, refuted).  A [Message] whose [User] is the single byte
    0xFF, which is not valid UTF-8, encodes to 26 bytes; decoding them
    gives a [User] of three bytes, U+FFFD, and the server prints that. *)
Lemma C1_counterexample :
  let m := mkMessage ["255"%char] [] in
  let m' := mkMessage ["239"%char; "191"%char; "189"%char] [] in
  (List.length (fst (Marshal m)) <=? 1024)%nat = true /\
  Unmarshal (fst (Marshal m)) zeroMessage = Ok (m', None) /\
  m' <> m /\
  prints (trace (snd (run (json_server_main
                             (one_peer [fst (Marshal m)] [])))))
  = [B "Server listening on 127.0.0.1:5000" ++ [newline];
     B "Connected by 127.0.0.1:40000" ++ [newline];
     B "Received JSON: " ++ format_plus_v m' ++ [newline]].
Proof.
  vm_compute. repeat split; discriminate.
Qed.

Section JSONClaims.
Context {tables : CaseTables}.

(** C1 (amended).  For every [Message] whose [User] and [Text] are valid
    UTF-8, encoding cannot fail and decoding the encoding gives the
    message back; when the encoding is at most 1024 bytes and arrives as
    one chunk, the server reads all of it in its single read, decodes that
    message and prints its two fields. *)
Theorem C1_roundtrip_valid_utf8 (m : Message) (env : Env) (p : Peer) :
  Valid (User m) = true -> Valid (Text m) = true ->
  (List.length (fst (Marshal m)) <= 1024)%nat ->
  listen_result env = None -> accept_result env 0 = inr p ->
  peer_sends p = [fst (Marshal m)] ->
  snd (Marshal m) = None /\
  Unmarshal (fst (Marshal m)) zeroMessage = Ok (m, None) /\
  fst (run (json_server_main env)) = Ok tt /\
  trace (snd (run (json_server_main env)))
  = json_session (peer_addr p) (fst (Marshal m))
      [EvPrint (B "Received JSON: " ++ format_plus_v m ++ [newline])].
Proof.
  intros V1 V2 Hl H1 H2 H3.
  pose proof (Unmarshal_Marshal m V1 V2) as R.
  change (mkMessage [] []) with zeroMessage in R.
  split; [reflexivity|]. split; [exact R|].
  unfold json_server_main.
  rewrite (json_server_run env (make 1024) p _ _ H1 H2 H3).
  rewrite make_length, firstn_all2 by exact Hl.
  rewrite R. cbn [fst snd trace json_result json_tail]. auto.
Qed.

(** C4.  When the client's encoding of a message is longer than 1024
    bytes, the server's read returns its first 1024 bytes and no error;
    they are not valid JSON (no proper prefix of an encoded message is),
    so decoding fails with a syntax error, the message stays as it was,
    nothing is printed about it and the server panics. *)
Theorem C4_oversized_payload_fails (m : Message) (env : Env) (p : Peer)
    (later : list bytes) :
  listen_result env = None -> accept_result env 0 = inr p ->
  peer_sends p = fst (Marshal m) :: later ->
  (1024 < List.length (fst (Marshal m)))%nat ->
  (forall n, (n < List.length (fst (Marshal m)))%nat ->
     exists c ctx,
     Unmarshal (firstn n (fst (Marshal m))) zeroMessage
     = Ok (zeroMessage, Some (SyntaxError c ctx))) /\
  exists c ctx,
    fst (run (json_server_main env))
    = Panic (PanicError (SyntaxError c ctx)) /\
    trace (snd (run (json_server_main env)))
    = json_session (peer_addr p) (firstn 1024 (fst (Marshal m))) [].
Proof.
  intros H1 H2 H3 Hl.
  assert (T : forall n, (n < List.length (fst (Marshal m)))%nat ->
     exists c ctx,
     Unmarshal (firstn n (fst (Marshal m))) zeroMessage
     = Ok (zeroMessage, Some (SyntaxError c ctx))).
  { intros n Hn. destruct (checkValid_truncated m n Hn) as (c & ctx & E).
    exists c, ctx. unfold Unmarshal. now rewrite E. }
  split; [exact T|].
  destruct (T 1024%nat Hl) as (c & ctx & E). exists c, ctx.
  unfold json_server_main.
  rewrite (json_server_run env (make 1024) p _ _ H1 H2 H3).
  rewrite make_length, E. cbn [fst snd trace json_result json_tail]. auto.
Qed.

Lemma format_plus_v_bytes (m : Message) :
  B "Received JSON: " ++ format_plus_v m ++ [newline]
  = B "Received JSON: {User:" ++ User m ++ B " Text:" ++ Text m ++ B "}"
      ++ [newline].
Proof.
  unfold format_plus_v. rewrite <- !app_assoc. reflexivity.
Qed.

(** C5.  The JSON server calls [Read] at most once, and exactly once when
    a connection is accepted.  What it decodes is the bytes that read
    returned, at most the first 1024 of the chunk that arrived; the rest
    of the buffer plays no part: started with any 1024 bytes in the buffer
    instead of zeroes, the server runs the same.  When decoding succeeds
    the server prints [Received JSON: {User:] the decoded user [ Text:]
    the decoded text [}] and a newline; when the bytes read are the
    encoding of a message of valid UTF-8, the user and the text printed
    are those of that message. *)
Theorem C5_single_read_decodes_received (env : Env) (buf : bytes) :
  List.length buf = 1024%nat ->
  run (json_server env buf) = run (json_server_main env) /\
  (count is_read (trace (snd (run (json_server_main env)))) <= 1)%nat /\
  (forall p chunk later,
     listen_result env = None -> accept_result env 0 = inr p ->
     peer_sends p = chunk :: later ->
     let data := firstn 1024 chunk in
     count is_read (trace (snd (run (json_server_main env)))) = 1%nat /\
     In (EvRead 0 data None) (trace (snd (run (json_server_main env)))) /\
     fst (run (json_server_main env))
     = json_result (Unmarshal data zeroMessage) /\
     trace (snd (run (json_server_main env)))
     = json_session (peer_addr p) data
         (json_tail (Unmarshal data zeroMessage)) /\
     (forall msg, Unmarshal data zeroMessage = Ok (msg, None) ->
        prints (trace (snd (run (json_server_main env))))
        = [B "Server listening on 127.0.0.1:5000" ++ [newline];
           B "Connected by " ++ peer_addr p ++ [newline];
           B "Received JSON: {User:" ++ User msg ++ B " Text:" ++ Text msg
             ++ B "}" ++ [newline]]) /\
     (forall m, Valid (User m) = true -> Valid (Text m) = true ->
        data = fst (Marshal m) ->
        fst (run (json_server_main env)) = Ok tt /\
        prints (trace (snd (run (json_server_main env))))
        = [B "Server listening on 127.0.0.1:5000" ++ [newline];
           B "Connected by " ++ peer_addr p ++ [newline];
           B "Received JSON: {User:" ++ User m ++ B " Text:" ++ Text m
             ++ B "}" ++ [newline]])).
Proof.
  intros Hb. unfold json_server_main.
  destruct (listen_result env) as [e|] eqn:L.
  { rewrite !(json_server_listen_error env _ e L).
    split; [reflexivity|]. split; [cbn; lia|]. discriminate. }
  destruct (accept_result env 0) as [e|p] eqn:A.
  { rewrite !(json_server_accept_error env _ e L A).
    split; [reflexivity|]. split; [cbn; lia|]. discriminate. }
  destruct (peer_sends p) as [|chunk later] eqn:S.
  { rewrite !(json_server_read_error env _ p L A S).
    split; [reflexivity|]. split; [cbn; lia|].
    intros p' chunk later _ [= <-] S'. congruence. }
  rewrite !(json_server_run env _ p chunk later L A S).
  rewrite Hb, make_length.
  assert (C : count is_read
                (json_session (peer_addr p) (firstn 1024 chunk)
                   (json_tail (Unmarshal (firstn 1024 chunk) zeroMessage)))
              = 1%nat).
  { unfold json_session, json_tail.
    destruct (Unmarshal (firstn 1024 chunk) zeroMessage) as [[msg [e|]]|v|];
      reflexivity. }
  assert (P : forall msg,
            Unmarshal (firstn 1024 chunk) zeroMessage = Ok (msg, None) ->
            prints (json_session (peer_addr p) (firstn 1024 chunk)
                      (json_tail (Unmarshal (firstn 1024 chunk) zeroMessage)))
            = [B "Server listening on 127.0.0.1:5000" ++ [newline];
               B "Connected by " ++ peer_addr p ++ [newline];
               B "Received JSON: {User:" ++ User msg ++ B " Text:"
                 ++ Text msg ++ B "}" ++ [newline]]).
  { intros msg ->. rewrite <- format_plus_v_bytes. reflexivity. }
  split; [reflexivity|]. cbn [fst snd trace]. split; [rewrite C; lia|].
  intros p' chunk' later' _ [= <-] S'. rewrite S in S'.
  injection S' as <- <-. cbn zeta.
  split; [exact C|].
  split; [unfold json_session; cbn; tauto|].
  split; [reflexivity|]. split; [reflexivity|].
  split; [exact P|].
  intros m V1 V2 E.
  pose proof (Unmarshal_Marshal m V1 V2) as R.
  change (mkMessage [] []) with zeroMessage in R. rewrite <- E in R.
  split; [now rewrite R | exact (P m R)].
Qed.

Lemma active_head_le (head : list event) :
  (forall j, (j <= List.length head)%nat ->
     (List.length (active (firstn j head) []) <= 1)%nat) ->
  forall j, (List.length (active (firstn j head) []) <= 1)%nat.
Proof.
  intros H j. destruct (Nat.le_gt_cases j (List.length head)) as [Hj|Hj].
  - now apply H.
  - rewrite firstn_all2 by lia. rewrite <- (firstn_all head). now apply H.
Qed.

Ltac head_active :=
  apply active_head_le; cbn [List.length]; intros j Hj;
  do 9 (try (destruct j as [|j]; [cbn; lia|])); exfalso; lia.

Lemma echo_session_active addr s e k :
  (List.length (active (firstn k (echo_session addr s e)) []) <= 1)%nat.
Proof.
  rewrite echo_session_split. apply active_prefix.
  - unfold echo_head. head_active.
  - apply quiet_echo_rest.
Qed.

Lemma json_session_active addr data r k :
  (List.length (active (firstn k (json_session addr data (json_tail r))) [])
   <= 1)%nat.
Proof.
  unfold json_session.
  apply active_prefix; [head_active|].
  rewrite forallb_app. apply andb_true_intro. split; [|reflexivity].
  unfold json_tail. destruct r as [[msg [e|]]|v|]; reflexivity.
Qed.

Lemma json_session_accepts addr data r :
  count is_accept (json_session addr data (json_tail r)) = 1%nat.
Proof.
  unfold json_session, json_tail. destruct r as [[msg [e|]]|v|]; reflexivity.
Qed.

Lemma echo_session_accepts addr s e :
  count is_accept (echo_session addr s e) = 1%nat.
Proof.
  rewrite echo_session_split, count_app.
  rewrite (count_accept_quiet _ (quiet_echo_rest s e)). reflexivity.
Qed.

(** C6.  In every run, each of the two servers calls [Accept] at most
    once (exactly once when it could listen), and at every moment of the
    run at most one accepted connection is not yet closed.  The echo
    server that accepted a connection writes back every newline-terminated
    line that arrives on it, the second and later ones like the first,
    all on that connection. *)
Theorem C6_single_accept (env : Env) (buf : bytes) :
  let te := trace (snd (run (echo_server_main env))) in
  let tj := trace (snd (run (json_server env buf))) in
  (count is_accept te <= 1)%nat /\ (count is_accept tj <= 1)%nat /\
  (forall k, (List.length (active (firstn k te) []) <= 1)%nat) /\
  (forall k, (List.length (active (firstn k tj) []) <= 1)%nat) /\
  (listen_result env = None ->
   count is_accept te = 1%nat /\ count is_accept tj = 1%nat) /\
  (forall p, listen_result env = None -> accept_result env 0 = inr p ->
   te = echo_head (peer_addr p)
        ++ echo_events 0 (fst (lines (List.concat (peer_sends p))))
        ++ [EvReadString 0 (snd (lines (List.concat (peer_sends p))))
                         (Some (peer_end p));
            EvClose 0; EvCloseListener] /\
   writes te = fst (lines (List.concat (peer_sends p)))).
Proof.
  intros te tj. unfold te, tj.
  destruct (listen_result env) as [e|] eqn:L.
  { rewrite (echo_server_listen_error env e L),
            (json_server_listen_error env buf e L). cbn [snd trace].
    repeat split; try discriminate; try (cbn; lia).
    all: intros k; head_active. }
  destruct (accept_result env 0) as [e|p] eqn:A.
  { rewrite (echo_server_accept_error env e L A),
            (json_server_accept_error env buf e L A). cbn [snd trace].
    repeat split; try discriminate; try (cbn; lia).
    all: intros k; head_active. }
  rewrite (echo_server_run env p L A). cbn [snd trace].
  assert (J : exists data r,
             trace (snd (run (json_server env buf)))
             = json_session (peer_addr p) data (json_tail r) \/
             trace (snd (run (json_server env buf)))
             = [EvListen host None;
                EvPrint (B "Server listening on 127.0.0.1:5000" ++ [newline]);
                EvAccept 0 None;
                EvPrint (B "Connected by " ++ peer_addr p ++ [newline]);
                EvRead 0 [] (Some (peer_end p));
                EvClose 0; EvCloseListener]).
  { destruct (peer_sends p) as [|chunk later] eqn:S.
    - exists [], OutOfFuel. right.
      now rewrite (json_server_read_error env buf p L A S).
    - eexists _, _. left.
      now rewrite (json_server_run env buf p chunk later L A S). }
  destruct J as (data & r & [-> | ->]).
  - rewrite echo_session_accepts, json_session_accepts, writes_echo_session.
    repeat split; try lia.
    + intros k. apply echo_session_active.
    + intros k. apply json_session_active.
    + injection H0 as <-. reflexivity.
    + injection H0 as <-. reflexivity.
  - rewrite echo_session_accepts, writes_echo_session.
    repeat split; try (cbn; lia).
    + intros k. apply echo_session_active.
    + intros k. head_active.
    + injection H0 as <-. reflexivity.
    + injection H0 as <-. reflexivity.
Qed.

(** C7.  In the JSON server an error of [Accept], of [Read] or of
    [json.Unmarshal] is passed to [panic]: the run ends in that panic,
    after the deferred closes; nothing is read after a failed accept,
    nothing is decoded after a failed read, nothing is printed about the
    message after a failed decode, and no call is made a second time. *)
Theorem C7_json_errors_fatal (env : Env) (buf : bytes) :
  listen_result env = None ->
  let r := run (json_server env buf) in
  (forall e, accept_result env 0 = inl e ->
     fst r = Panic (PanicError e) /\
     trace (snd r)
     = [EvListen host None;
        EvPrint (B "Server listening on 127.0.0.1:5000" ++ [newline]);
        EvAccept 0 (Some e); EvCloseListener]) /\
  (forall p, accept_result env 0 = inr p -> peer_sends p = [] ->
     fst r = Panic (PanicError (peer_end p)) /\
     trace (snd r)
     = [EvListen host None;
        EvPrint (B "Server listening on 127.0.0.1:5000" ++ [newline]);
        EvAccept 0 None;
        EvPrint (B "Connected by " ++ peer_addr p ++ [newline]);
        EvRead 0 [] (Some (peer_end p));
        EvClose 0; EvCloseListener]) /\
  (forall p chunk later msg e,
     accept_result env 0 = inr p -> peer_sends p = chunk :: later ->
     Unmarshal (firstn (List.length buf) chunk) zeroMessage
     = Ok (msg, Some e) ->
     fst r = Panic (PanicError e) /\
     trace (snd r)
     = json_session (peer_addr p) (firstn (List.length buf) chunk) []).
Proof.
  intros L r. unfold r. repeat split.
  - now rewrite (json_server_accept_error env buf e L H).
  - now rewrite (json_server_accept_error env buf e L H).
  - now rewrite (json_server_read_error env buf p L H H0).
  - now rewrite (json_server_read_error env buf p L H H0).
  - rewrite (json_server_run env buf p chunk later L H H0). cbn zeta.
    now rewrite H1.
  - rewrite (json_server_run env buf p chunk later L H H0). cbn zeta.
    now rewrite H1.
Qed.

End JSONClaims.

Lemma C1_witness :
  Unmarshal (fst (Marshal (mkMessage (B "Alice") (B "Hello server!"))))
            zeroMessage
  = Ok (mkMessage (B "Alice") (B "Hello server!"), None) /\
  fst (run (json_server_main
        (one_peer [fst (Marshal (mkMessage (B "Alice") (B "Hello server!")))]
                  []))) = Ok tt.
Proof.
  assert (L : (List.length (fst (Marshal (mkMessage (B "Alice")
                 (B "Hello server!")))) <= 1024)%nat)
    by (apply le_1024; vm_compute; reflexivity).
  assert (V1 : Valid (B "Alice") = true) by (vm_compute; reflexivity).
  assert (V2 : Valid (B "Hello server!") = true) by (vm_compute; reflexivity).
  destruct (C1_roundtrip_valid_utf8
    (mkMessage (B "Alice") (B "Hello server!"))
    (one_peer [fst (Marshal (mkMessage (B "Alice") (B "Hello server!")))] [])
    (mkPeer (B "127.0.0.1:40000")
            [fst (Marshal (mkMessage (B "Alice") (B "Hello server!")))]
            EOF [])
    V1 V2 L eq_refl eq_refl eq_refl)
    as (_ & H2 & H3 & _).
  split; [exact H2 | exact H3].
Defined.

Lemma C4_witness :
  exists c ctx,
    fst (run (json_server_main (one_peer [fst (Marshal long_message)] [])))
    = Panic (PanicError (SyntaxError c ctx)).
Proof.
  assert (L : (1024 < List.length (fst (Marshal long_message)))%nat)
    by (apply Nat.ltb_lt; vm_compute; reflexivity).
  destruct (C4_oversized_payload_fails long_message
    (one_peer [fst (Marshal long_message)] [])
    (mkPeer (B "127.0.0.1:40000") [fst (Marshal long_message)] EOF [])
    [] eq_refl eq_refl eq_refl L)
    as (_ & c & ctx & H & _).
  exists c, ctx. exact H.
Defined.

Lemma C5_witness :
  prints (trace (snd (run (json_server
     (one_peer [fst (Marshal (mkMessage (B "Alice") (B "Hello server!")))] [])
     (repeat "x"%char 1024)))))
  = [B "Server listening on 127.0.0.1:5000" ++ [newline];
     B "Connected by 127.0.0.1:40000" ++ [newline];
     B "Received JSON: {User:Alice Text:Hello server!}" ++ [newline]].
Proof.
  assert (V1 : Valid (B "Alice") = true) by (vm_compute; reflexivity).
  assert (V2 : Valid (B "Hello server!") = true) by (vm_compute; reflexivity).
  assert (D : firstn 1024 (fst (Marshal (mkMessage (B "Alice")
                                                   (B "Hello server!"))))
              = fst (Marshal (mkMessage (B "Alice") (B "Hello server!"))))
    by (vm_compute; reflexivity).
  destruct (C5_single_read_decodes_received
    (one_peer [fst (Marshal (mkMessage (B "Alice") (B "Hello server!")))] [])
    (repeat "x"%char 1024) (repeat_length _ _)) as (H & _ & K).
  destruct (K (mkPeer (B "127.0.0.1:40000")
                 [fst (Marshal (mkMessage (B "Alice") (B "Hello server!")))]
                 EOF [])
              _ [] eq_refl eq_refl eq_refl) as (_ & _ & _ & _ & _ & Q).
  destruct (Q (mkMessage (B "Alice") (B "Hello server!")) V1 V2 D)
    as (_ & Hp).
  rewrite H. exact Hp.
Defined.

Lemma C6_witness :
  count is_accept (trace (snd (run (echo_server_main
     (one_peer [B "a" ++ [newline]; B "b" ++ [newline]] []))))) = 1%nat /\
  writes (trace (snd (run (echo_server_main
     (one_peer [B "a" ++ [newline]; B "b" ++ [newline]] [])))))
  = [B "a" ++ [newline]; B "b" ++ [newline]].
Proof.
  destruct (C6_single_accept
              (one_peer [B "a" ++ [newline]; B "b" ++ [newline]] [])
              (make 1024)) as (_ & _ & _ & _ & H5 & H6).
  destruct (H5 eq_refl) as (Ha & _).
  destruct (H6 (mkPeer (B "127.0.0.1:40000")
                       [B "a" ++ [newline]; B "b" ++ [newline]] EOF [])
               eq_refl eq_refl) as (_ & Hw).
  split; [exact Ha | exact Hw].
Defined.

Lemma C7_witness :
  fst (run (json_server
              (mkEnv None (fun _ => inl (OpError "accept")) (inl EOF))
              (make 1024)))
  = Panic (PanicError (OpError "accept")) /\
  fst (run (json_server (one_peer [] []) (make 1024)))
  = Panic (PanicError EOF) /\
  fst (run (json_server (one_peer [B "{"] []) (make 1024)))
  = Panic (PanicError (SyntaxError None "unexpected end of JSON input")).
Proof.
  destruct (C7_json_errors_fatal
              (mkEnv None (fun _ => inl (OpError "accept")) (inl EOF))
              (make 1024) eq_refl) as (H1 & _ & _).
  destruct (C7_json_errors_fatal (one_peer [] []) (make 1024) eq_refl)
    as (_ & H2 & _).
  destruct (C7_json_errors_fatal (one_peer [B "{"] []) (make 1024) eq_refl)
    as (_ & _ & H3).
  assert (U : Unmarshal (firstn (List.length (make 1024)) (B "{")) zeroMessage
              = Ok (zeroMessage,
                    Some (SyntaxError None "unexpected end of JSON input")))
    by (vm_compute; reflexivity).
  split; [exact (proj1 (H1 _ eq_refl))|].
  split; [exact (proj1 (H2 (mkPeer (B "127.0.0.1:40000") [] EOF [])
                           eq_refl eq_refl))|].
  exact (proj1 (H3 (mkPeer (B "127.0.0.1:40000") [B "{"] EOF []) (B "{") []
                   _ _ eq_refl eq_refl U)).
Defined.
(* ===================================================================== *)
(** * Further properties of the four programs *)
(* ===================================================================== *)

(** ** The clients *)

Lemma json_client_dial_error env msg e :
  dial_result env = inl e ->
  run (json_client env msg)
  = (Panic (PanicError e), mkWorld [] 0 [EvDial host 0 (Some e)]).
Proof.
  intros H. unfold run, json_client, Dial, bindM, log, ret, start.
  rewrite H. reflexivity.
Qed.

(** The run of the JSON client once it is connected, by the result of its
    write. *)
Lemma json_client_run env msg p :
  dial_result env = inr p ->
  run (json_client env msg)
  = match peer_acks p with
    | Some e :: later =>
        (Panic (PanicError e),
         mkWorld [conn1 (peer_addr p) (peer_sends p) (peer_end p) later []] 0
           [EvDial host 0 None; EvWrite 0 (fst (Marshal msg)); EvClose 0])
    | acks =>
        (Ok tt,
         mkWorld [conn1 (peer_addr p) (peer_sends p) (peer_end p) (tl acks)
                        [fst (Marshal msg)]] 0
           [EvDial host 0 None; EvWrite 0 (fst (Marshal msg));
            EvPrint (B "JSON sent!" ++ [newline]); EvClose 0])
    end.
Proof.
  intros H. unfold run, json_client, Dial, defer, bindM, start. rewrite H.
  unfold Marshal, open_conn, log, ret, Write, conn_state, set_conn, bindM.
  cbn -[structEncoder].
  destruct (peer_acks p) as [|[e|] later]; reflexivity.
Qed.

(** X1.  A client whose [Dial] fails panics with the error of [Dial]: it
    has written nothing, printed nothing and closed nothing, the echo
    client and the JSON client (whatever its message) alike. *)
Theorem X1_dial_failure_is_fatal (env : Env) (msg : Message) (e : error) :
  dial_result env = inl e ->
  run (echo_client_main env)
  = (Panic (PanicError e), mkWorld [] 0 [EvDial host 0 (Some e)]) /\
  run (json_client env msg)
  = (Panic (PanicError e), mkWorld [] 0 [EvDial host 0 (Some e)]).
Proof.
  intros H. split.
  - now apply echo_client_dial_error.
  - now apply json_client_dial_error.
Qed.

Lemma X1_witness :
  fst (run (json_client_main
              (mkEnv None (fun _ => inl EOF)
                     (inl (OpError "connection refused")))))
  = Panic (PanicError (OpError "connection refused")).
Proof.
  destruct (X1_dial_failure_is_fatal
              (mkEnv None (fun _ => inl EOF)
                     (inl (OpError "connection refused")))
              (mkMessage (B "Alice") (B "Hello server!"))
              (OpError "connection refused") eq_refl) as (_ & H).
  unfold json_client_main. rewrite H. reflexivity.
Defined.

(** X2.  A connected JSON client calls [Write] exactly once, with the
    encoding of its message, which is a valid JSON text.  When the write
    succeeds the peer has got the encoding, the client prints
    [JSON sent!] and returns; when it fails the client panics with the
    error of the write and prints nothing.  Either way the connection is
    closed last. *)
Theorem X2_json_client_sends_encoding (env : Env) (msg : Message) (p : Peer) :
  dial_result env = inr p ->
  let r := run (json_client env msg) in
  writes (trace (snd r)) = [fst (Marshal msg)] /\
  checkValid (fst (Marshal msg)) = None /\
  List.last (trace (snd r)) EvCloseListener = EvClose 0 /\
  (forall e later, peer_acks p = Some e :: later ->
     fst r = Panic (PanicError e) /\ prints (trace (snd r)) = [] /\
     delivered (conn_state 0 (snd r)) = []) /\
  ((forall e later, peer_acks p <> Some e :: later) ->
     fst r = Ok tt /\
     prints (trace (snd r)) = [B "JSON sent!" ++ [newline]] /\
     delivered (conn_state 0 (snd r)) = [fst (Marshal msg)]).
Proof.
  intros H r. unfold r. rewrite (json_client_run env msg p H).
  split; [destruct (peer_acks p) as [|[e|] later]; reflexivity|].
  split; [apply checkValid_Marshal|].
  split; [destruct (peer_acks p) as [|[e|] later]; reflexivity|].
  split.
  - intros e later ->. repeat split.
  - intros N. destruct (peer_acks p) as [|[e|] later]; try (repeat split; fail).
    now destruct (N e later).
Qed.

Lemma X2_witness :
  fst (run (json_client_main (one_peer [] []))) = Ok tt /\
  delivered (conn_state 0 (snd (run (json_client_main (one_peer [] [])))))
  = [B "{" ++ q "user" ++ B ":" ++ q "Alice" ++ B "," ++ q "text" ++ B ":"
       ++ q "Hello server!" ++ B "}"].
Proof.
  destruct (X2_json_client_sends_encoding (one_peer [] [])
              (mkMessage (B "Alice") (B "Hello server!"))
              (mkPeer (B "127.0.0.1:5000") [] EOF []) eq_refl)
    as (_ & _ & _ & _ & H).
  destruct H as (H1 & _ & H3); [discriminate|].
  split; [exact H1|]. unfold json_client_main. rewrite H3.
  vm_compute. reflexivity.
Defined.

(** X3.  The echo client reads one line and no more.  When the bytes the
    peer sends hold a newline, the response is the bytes up to and
    including the first newline: the client prints them after
    [Received: ], closes the connection and returns.  What follows the
    first newline, the way the bytes are split into chunks and the result
    of the client's own write change nothing. *)
Theorem X3_echo_client_first_line (env : Env) (p : Peer) (L rest : bytes) :
  dial_result env = inr p ->
  ~ In newline L ->
  List.concat (peer_sends p) = L ++ newline :: rest ->
  fst (run (echo_client_main env)) = Ok tt /\
  trace (snd (run (echo_client_main env)))
  = [EvDial host 0 None;
     EvWrite 0 (B "Hello local server!" ++ [newline]);
     EvReadString 0 (L ++ [newline]) None;
     EvPrint (B "Received: " ++ L ++ [newline]);
     EvClose 0].
Proof.
  intros Hd HL Hs. destruct (echo_client_run env p Hd) as (w & -> & Ht).
  rewrite Hs, (cut_single L rest HL) in Ht. split; [reflexivity | exact Ht].
Qed.

Lemma X3_witness :
  prints (trace (snd (run (echo_client_main
     (one_peer [B "ab"; B "c" ++ [newline] ++ B "de"; B "f" ++ [newline]]
               [Some (OpError "write: broken pipe")])))))
  = [B "Received: abc" ++ [newline]].
Proof.
  assert (N : ~ In newline (B "abc")).
  { intros HIn. cbn in HIn.
    repeat (destruct HIn as [HIn|HIn]; [discriminate HIn|]). exact HIn. }
  destruct (X3_echo_client_first_line
    (one_peer [B "ab"; B "c" ++ [newline] ++ B "de"; B "f" ++ [newline]]
              [Some (OpError "write: broken pipe")])
    (mkPeer (B "127.0.0.1:5000")
            [B "ab"; B "c" ++ [newline] ++ B "de"; B "f" ++ [newline]] EOF
            [Some (OpError "write: broken pipe")])
    (B "abc") (B "de" ++ B "f" ++ [newline]) eq_refl N eq_refl) as (_ & H).
  rewrite H. reflexivity.
Defined.

(** ** The servers *)

Section Servers.
Context {tables : CaseTables}.

(** X4.  A server that cannot listen panics with the error of [Listen]
    at once: it prints nothing, accepts nothing and, the deferred
    [ln.Close] not being registered yet, closes nothing.  This holds for
    the echo server and for the JSON server. *)
Theorem X4_listen_failure_is_fatal (env : Env) (buf : bytes) (e : error) :
  listen_result env = Some e ->
  run (echo_server_main env)
  = (Panic (PanicError e), mkWorld [] 0 [EvListen host (Some e)]) /\
  run (json_server env buf)
  = (Panic (PanicError e), mkWorld [] 0 [EvListen host (Some e)]).
Proof.
  intros H. split.
  - now apply echo_server_listen_error.
  - now apply json_server_listen_error.
Qed.

(** X5.  An echo server whose [Accept] fails panics with that error; it
    has printed only that it listens, has read and written nothing, and
    the deferred [ln.Close] has closed the listener. *)
Theorem X5_echo_accept_failure_is_fatal (env : Env) (e : error) :
  listen_result env = None -> accept_result env 0 = inl e ->
  let r := run (echo_server_main env) in
  fst r = Panic (PanicError e) /\
  trace (snd r)
  = [EvListen host None;
     EvPrint (B "Server listening on 127.0.0.1:5000" ++ [newline]);
     EvAccept 0 (Some e); EvCloseListener] /\
  listening (trace (snd r)) false = false.
Proof.
  intros L A r. unfold r. rewrite (echo_server_accept_error env e L A).
  repeat split.
Qed.

(** X6.  The JSON server reads once.  Two runs in which the first chunk
    to arrive has the same first 1024 bytes, from the same address, end
    the same way and show the same events, whatever else arrives: the
    rest of the first chunk and the later chunks are never read. *)
Theorem X6_json_server_first_chunk_only (env1 env2 : Env) (p1 p2 : Peer)
    (c1 c2 : bytes) (l1 l2 : list bytes) :
  listen_result env1 = None -> listen_result env2 = None ->
  accept_result env1 0 = inr p1 -> accept_result env2 0 = inr p2 ->
  peer_addr p1 = peer_addr p2 ->
  peer_sends p1 = c1 :: l1 -> peer_sends p2 = c2 :: l2 ->
  firstn 1024 c1 = firstn 1024 c2 ->
  fst (run (json_server_main env1)) = fst (run (json_server_main env2)) /\
  trace (snd (run (json_server_main env1)))
  = trace (snd (run (json_server_main env2))) /\
  count is_read (trace (snd (run (json_server_main env1)))) = 1%nat.
Proof.
  intros L1 L2 A1 A2 Ha S1 S2 Hc. unfold json_server_main.
  rewrite (json_server_run env1 _ p1 c1 l1 L1 A1 S1),
          (json_server_run env2 _ p2 c2 l2 L2 A2 S2).
  rewrite make_length, Hc, Ha. cbn [fst snd trace].
  repeat split.
  unfold json_session, json_tail.
  destruct (Unmarshal (firstn 1024 c2) zeroMessage) as [[msg [e|]]|v|];
    reflexivity.
Qed.

(** X7.  When only a part of the encoding of a message has arrived by the
    time the JSON server reads (the encoding is split over several
    chunks), the server does not wait for the rest: decoding the part
    fails with a syntax error, the server panics with it and prints no
    message. *)
Theorem X7_split_payload_fails (m : Message) (env : Env) (p : Peer)
    (n : nat) (later : list bytes) :
  listen_result env = None -> accept_result env 0 = inr p ->
  (n < List.length (fst (Marshal m)))%nat ->
  peer_sends p = firstn n (fst (Marshal m)) :: later ->
  exists c ctx,
    fst (run (json_server_main env))
    = Panic (PanicError (SyntaxError c ctx)) /\
    prints (trace (snd (run (json_server_main env))))
    = [B "Server listening on 127.0.0.1:5000" ++ [newline];
       B "Connected by " ++ peer_addr p ++ [newline]].
Proof.
  intros L A Hn S. unfold json_server_main.
  rewrite (json_server_run env _ p _ later L A S).
  rewrite make_length, firstn_firstn.
  destruct (checkValid_truncated m (Nat.min 1024 n)) as (c & ctx & E);
    [lia|].
  exists c, ctx. unfold Unmarshal. rewrite E. split; reflexivity.
Qed.

End Servers.

Lemma X4_witness :
  fst (run (json_server_main
              (mkEnv (Some (OpError "address already in use"))
                     (fun _ => inl EOF) (inl EOF))))
  = Panic (PanicError (OpError "address already in use")).
Proof.
  destruct (X4_listen_failure_is_fatal
              (mkEnv (Some (OpError "address already in use"))
                     (fun _ => inl EOF) (inl EOF))
              (make 1024) (OpError "address already in use") eq_refl)
    as (_ & H).
  unfold json_server_main. rewrite H. reflexivity.
Defined.

Lemma X5_witness :
  fst (run (echo_server_main
              (mkEnv None (fun _ => inl (OpError "accept")) (inl EOF))))
  = Panic (PanicError (OpError "accept")).
Proof.
  destruct (X5_echo_accept_failure_is_fatal
              (mkEnv None (fun _ => inl (OpError "accept")) (inl EOF))
              (OpError "accept") eq_refl eq_refl) as (H & _).
  exact H.
Defined.

Lemma X6_witness :
  trace (snd (run (json_server_main (one_peer [B "{}"] []))))
  = trace (snd (run (json_server_main (one_peer [B "{}"; B "1"] [])))).
Proof.
  destruct (X6_json_server_first_chunk_only
    (one_peer [B "{}"] []) (one_peer [B "{}"; B "1"] [])
    (mkPeer (B "127.0.0.1:40000") [B "{}"] EOF [])
    (mkPeer (B "127.0.0.1:40000") [B "{}"; B "1"] EOF [])
    (B "{}") (B "{}") [] [B "1"]
    eq_refl eq_refl eq_refl eq_refl eq_refl eq_refl eq_refl eq_refl)
    as (_ & H & _).
  exact H.
Defined.

Lemma X7_witness :
  exists c ctx,
    fst (run (json_server_main
       (one_peer [firstn 20 (fst (Marshal (mkMessage (B "Alice")
                                                     (B "Hello server!"))));
                  skipn 20 (fst (Marshal (mkMessage (B "Alice")
                                                    (B "Hello server!"))))]
                 [])))
    = Panic (PanicError (SyntaxError c ctx)).
Proof.
  assert (L : (20 < List.length (fst (Marshal (mkMessage (B "Alice")
                                        (B "Hello server!")))))%nat)
    by (apply Nat.ltb_lt; vm_compute; reflexivity).
  destruct (X7_split_payload_fails
    (mkMessage (B "Alice") (B "Hello server!"))
    (one_peer [firstn 20 (fst (Marshal (mkMessage (B "Alice")
                                                  (B "Hello server!"))));
               skipn 20 (fst (Marshal (mkMessage (B "Alice")
                                                 (B "Hello server!"))))] [])
    (mkPeer (B "127.0.0.1:40000")
       [firstn 20 (fst (Marshal (mkMessage (B "Alice") (B "Hello server!"))));
        skipn 20 (fst (Marshal (mkMessage (B "Alice") (B "Hello server!"))))]
       EOF [])
    20%nat _ eq_refl eq_refl L eq_refl) as (c & ctx & H & _).
  exists c, ctx. exact H.
Defined.

(** ** The echo server on a whole stream *)

Lemma deliver_all_ok ls : forall acks got,
  Forall (fun a => a = None) acks ->
  snd (deliver acks got ls) = got ++ ls.
Proof.
  induction ls as [|l ls IH]; intros acks got F.
  - cbn. now rewrite app_nil_r.
  - destruct F as [|a later -> F]; cbn [deliver tl].
    + rewrite (IH [] _ (Forall_nil _)), <- app_assoc. reflexivity.
    + rewrite (IH later _ F), <- app_assoc. reflexivity.
Qed.

Lemma lines_count s :
  List.length (fst (lines s)) = count_occ ascii_dec s newline.
Proof.
  induction s as [|b s IH]; [reflexivity|].
  cbn [lines count_occ]. destruct (lines s) as [ls partial].
  cbn [fst] in IH. destruct (beq b newline) eqn:E.
  - apply beq_eq in E. destruct (ascii_dec b newline) as [_|N];
      [|contradiction]. cbn. now rewrite IH.
  - apply beq_neq in E. destruct (ascii_dec b newline) as [Y|_];
      [contradiction|]. rewrite <- IH. now destruct ls.
Qed.

Lemma live_app t1 t2 open : live (t1 ++ t2) open = live t2 (live t1 open).
Proof.
  revert open. induction t1 as [|e t1 IH]; intros open; [reflexivity|].
  destruct e as [a err|c [err|]|a c [err|]|c d err|c l err|c d|c| |out];
    cbn; apply IH.
Qed.

Lemma live_echo_events c ls open : live (echo_events c ls) open = open.
Proof. induction ls as [|l ls IH]; cbn; auto. Qed.

Lemma listening_app t1 t2 l :
  listening (t1 ++ t2) l = listening t2 (listening t1 l).
Proof.
  revert l. induction t1 as [|e t1 IH]; intros l; [reflexivity|].
  destruct e as [a [err|]|c err|a c err|c d err|c ln err|c d|c| |out];
    cbn; apply IH.
Qed.

Lemma listening_echo_events c ls l : listening (echo_events c ls) l = l.
Proof. induction ls as [|x ls IH]; cbn; auto. Qed.

Lemma echo_session_closed addr s e :
  live (echo_session addr s e) [] = [] /\
  listening (echo_session addr s e) false = false.
Proof.
  unfold echo_session.
  rewrite !live_app, !listening_app, live_echo_events, listening_echo_events.
  split; reflexivity.
Qed.

(** X8.  The echo server sees a byte stream, not packets: two runs in
    which the same bytes arrive from the same address and end with the
    same error, split into chunks in any two ways, end the same way and
    show the same events; with the same results of the writes, the peer
    gets the same lines back. *)
Theorem X8_echo_chunking_irrelevant (env1 env2 : Env) (p1 p2 : Peer) :
  listen_result env1 = None -> listen_result env2 = None ->
  accept_result env1 0 = inr p1 -> accept_result env2 0 = inr p2 ->
  peer_addr p1 = peer_addr p2 -> peer_end p1 = peer_end p2 ->
  List.concat (peer_sends p1) = List.concat (peer_sends p2) ->
  fst (run (echo_server_main env1)) = fst (run (echo_server_main env2)) /\
  trace (snd (run (echo_server_main env1)))
  = trace (snd (run (echo_server_main env2))) /\
  (peer_acks p1 = peer_acks p2 ->
   delivered (conn_state 0 (snd (run (echo_server_main env1))))
   = delivered (conn_state 0 (snd (run (echo_server_main env2))))).
Proof.
  intros L1 L2 A1 A2 Ha He Hs.
  rewrite (echo_server_run env1 p1 L1 A1), (echo_server_run env2 p2 L2 A2).
  cbn [fst snd trace]. rewrite Ha, He, Hs.
  split; [reflexivity|]. split; [reflexivity|]. intros ->. reflexivity.
Qed.

Lemma X8_witness :
  trace (snd (run (echo_server_main
     (one_peer [B "a"; B "b" ++ [newline] ++ B "c"; [newline]] []))))
  = trace (snd (run (echo_server_main
     (one_peer [B "ab" ++ [newline]; B "c" ++ [newline]] [])))).
Proof.
  destruct (X8_echo_chunking_irrelevant
    (one_peer [B "a"; B "b" ++ [newline] ++ B "c"; [newline]] [])
    (one_peer [B "ab" ++ [newline]; B "c" ++ [newline]] [])
    (mkPeer (B "127.0.0.1:40000")
            [B "a"; B "b" ++ [newline] ++ B "c"; [newline]] EOF [])
    (mkPeer (B "127.0.0.1:40000")
            [B "ab" ++ [newline]; B "c" ++ [newline]] EOF [])
    eq_refl eq_refl eq_refl eq_refl eq_refl eq_refl eq_refl)
    as (_ & H & _).
  exact H.
Defined.

(** X9.  The echo server answers once for each newline: in a run that
    accepted a connection, the number of [Write] calls, and the number
    of [Received: ] lines printed, is the number of newline bytes that
    arrived. *)
Theorem X9_one_echo_per_newline (env : Env) (p : Peer) :
  listen_result env = None -> accept_result env 0 = inr p ->
  let t := trace (snd (run (echo_server_main env))) in
  List.length (writes t)
  = count_occ ascii_dec (List.concat (peer_sends p)) newline /\
  List.length (prints t)
  = (2 + count_occ ascii_dec (List.concat (peer_sends p)) newline)%nat.
Proof.
  intros L A t. unfold t. rewrite (echo_server_run env p L A).
  cbn [snd trace]. rewrite writes_echo_session, prints_echo_session.
  rewrite length_app, length_map. rewrite <- !lines_count.
  split; reflexivity.
Qed.

Lemma X9_witness :
  List.length (writes (trace (snd (run (echo_server_main
     (one_peer [B "a"; B "b" ++ [newline] ++ B "c"; [newline]; B "d"]
               []))))))
  = 2%nat.
Proof.
  destruct (X9_one_echo_per_newline
    (one_peer [B "a"; B "b" ++ [newline] ++ B "c"; [newline]; B "d"] [])
    (mkPeer (B "127.0.0.1:40000")
            [B "a"; B "b" ++ [newline] ++ B "c"; [newline]; B "d"] EOF [])
    eq_refl eq_refl) as (H & _).
  rewrite H. reflexivity.
Defined.

(** X10.  When every write of the echo server succeeds, its peer gets
    back the stream it sent, up to the last newline: the lines written
    that went through are all the complete lines, in the order they
    arrived, and together with the unterminated rest they make up the
    bytes that arrived. *)
Theorem X10_echo_returns_stream (env : Env) (p : Peer) :
  listen_result env = None -> accept_result env 0 = inr p ->
  Forall (fun a => a = None) (peer_acks p) ->
  let s := List.concat (peer_sends p) in
  let got := delivered (conn_state 0 (snd (run (echo_server_main env)))) in
  got = fst (lines s) /\
  List.concat got ++ snd (lines s) = s /\
  ~ In newline (snd (lines s)).
Proof.
  intros L A F s got. subst got. rewrite (echo_server_run env p L A).
  cbn [snd conn_state conns nth conn1 delivered].
  rewrite (deliver_all_ok _ _ _ F). cbn [app]. fold s.
  split; [reflexivity|]. split; [apply lines_concat | apply lines_partial].
Qed.

Lemma X10_witness :
  delivered (conn_state 0 (snd (run (echo_server_main
     (one_peer [B "a" ++ [newline] ++ B "b"; B "b" ++ [newline] ++ B "c"]
               [None; None])))))
  = [B "a" ++ [newline]; B "bb" ++ [newline]].
Proof.
  destruct (X10_echo_returns_stream
    (one_peer [B "a" ++ [newline] ++ B "b"; B "b" ++ [newline] ++ B "c"]
              [None; None])
    (mkPeer (B "127.0.0.1:40000")
       [B "a" ++ [newline] ++ B "b"; B "b" ++ [newline] ++ B "c"] EOF
       [None; None])
    eq_refl eq_refl
    (Forall_cons _ eq_refl (Forall_cons _ eq_refl (Forall_nil _))))
    as (H & _).
  rewrite H. reflexivity.
Defined.

(** ** Deferred closes *)

(** X11.  None of the four programs leaves anything open: at the end of
    every run, also one that ends in a panic, every connection that was
    accepted or dialled has been closed, and so has the listener. *)
Theorem X11_everything_opened_is_closed {tables : CaseTables}
    (env : Env) (msg : Message) (buf : bytes) :
  let closed (r : res unit * World) :=
    live (trace (snd r)) [] = [] /\ listening (trace (snd r)) false = false in
  closed (run (echo_server_main env)) /\
  closed (run (echo_client_main env)) /\
  closed (run (json_client env msg)) /\
  closed (run (json_server env buf)).
Proof.
  intros closed. unfold closed. repeat apply conj.
  1,2: destruct (listen_result env) as [e|] eqn:L;
       [rewrite (echo_server_listen_error env e L); reflexivity|];
       destruct (accept_result env 0) as [e|p] eqn:A;
       [rewrite (echo_server_accept_error env e L A); reflexivity|];
       rewrite (echo_server_run env p L A); apply echo_session_closed.
  1,2: destruct (dial_result env) as [e|p] eqn:D;
       [rewrite (echo_client_dial_error env e D); reflexivity|];
       destruct (echo_client_run env p D) as (w & -> & Ht);
       cbn [snd]; rewrite Ht;
       destruct (cut newline (List.concat (peer_sends p))) as [[l a]|];
       reflexivity.
  1,2: destruct (dial_result env) as [e|p] eqn:D;
       [rewrite (json_client_dial_error env msg e D); reflexivity|];
       rewrite (json_client_run env msg p D);
       destruct (peer_acks p) as [|[e|] later]; reflexivity.
  1,2: destruct (listen_result env) as [e|] eqn:L;
       [rewrite (json_server_listen_error env buf e L); reflexivity|];
       destruct (accept_result env 0) as [e|p] eqn:A;
       [rewrite (json_server_accept_error env buf e L A); reflexivity|];
       destruct (peer_sends p) as [|chunk later] eqn:S;
       [rewrite (json_server_read_error env buf p L A S); reflexivity|];
       rewrite (json_server_run env buf p chunk later L A S);
       cbn [snd trace]; unfold json_session, json_tail;
       destruct (Unmarshal _ zeroMessage) as [[m' [e|]]|v|]; reflexivity.
Qed.

(** ** The encoding of a message *)






Lemma skipn_firstn_app (A : Type) (n : nat) (p o : list A) :
  (n <= List.length p)%nat -> skipn n (firstn n p ++ o) = o.
Proof.
  intros H. rewrite skipn_app, length_firstn, skipn_firstn_comm.
  replace (n - n)%nat with 0%nat by lia.
  replace (n - Nat.min n (List.length p))%nat with 0%nat by lia.
  reflexivity.
Qed.


Lemma escape_length b :
  (2 <= List.length (escape b) <= 6)%nat.
Proof. byte_cases b; cbn; lia. Qed.


Lemma encoded_length s o :
  encoded s o ->
  (List.length s <= List.length o <= 6 * List.length s)%nat.
Proof.
  induction 1 as [|b s o S _ IH|b s o A S _ IH|b s o A D _ IH
                 |p r n o R _ _ IH|p r n o R N N1 N2 _ IH].
  - cbn. lia.
  - cbn [List.length]. lia.
  - rewrite length_app. pose proof (escape_length b). cbn [List.length]. lia.
  - rewrite length_app. cbn [List.length B list_ascii_of_string]. lia.
  - destruct (rune_at_size _ _ _ R) as (Hn & Hp).
    rewrite length_skipn in IH. rewrite !length_app.
    cbn [List.length B list_ascii_of_string]. lia.
  - destruct (rune_at_size _ _ _ R) as (Hn & Hp).
    rewrite length_skipn in IH. rewrite length_app, length_firstn. lia.
Qed.


(** X13.  The size of the encoding: the 21 bytes of braces, quotes, field
    names, colons and comma, and for each byte of the two strings at
    least one byte and at most six. *)
Theorem X13_encoding_size (m : Message) :
  let k := (List.length (User m) + List.length (Text m))%nat in
  overhead = 21%nat /\
  (overhead + k <= List.length (fst (Marshal m)) <= overhead + 6 * k)%nat.
Proof.
  intros k. split; [reflexivity|]. rewrite Marshal_shape.
  pose proof (encoded_length _ _ (encoded_appendString (User m))) as L1.
  pose proof (encoded_length _ _ (encoded_appendString (Text m))) as L2.
  rewrite !length_app. change overhead with 21%nat.
  change (List.length seg0) with 9%nat.
  change (List.length seg1) with 10%nat.
  change (List.length seg2) with 2%nat. lia.
Qed.

(** X14.  On messages whose strings are valid UTF-8, encoding is
    injective: two such messages with the same encoding are the same
    message. *)
Theorem X14_encoding_injective (m1 m2 : Message) :
  Valid (User m1) = true -> Valid (Text m1) = true ->
  Valid (User m2) = true -> Valid (Text m2) = true ->
  fst (Marshal m1) = fst (Marshal m2) -> m1 = m2.
Proof.
  intros U1 T1 U2 T2 E.
  pose proof (Unmarshal_Marshal m1 U1 T1) as R1.
  pose proof (Unmarshal_Marshal m2 U2 T2) as R2.
  rewrite E in R1. rewrite R1 in R2. now injection R2.
Qed.

Lemma X14_witness :
  mkMessage (B "Alice") (B "Hello server!")
  = mkMessage (B "Ali" ++ B "ce") (B "Hello" ++ B " server!").
Proof.
  assert (V1 : Valid (B "Alice") = true) by (vm_compute; reflexivity).
  assert (V2 : Valid (B "Hello server!") = true) by (vm_compute; reflexivity).
  exact (X14_encoding_injective (mkMessage (B "Alice") (B "Hello server!"))
           (mkMessage (B "Ali" ++ B "ce") (B "Hello" ++ B " server!"))
           V1 V2 V1 V2 eq_refl).
Defined.

(** ** The JSON client and the JSON server together *)

Section Together.
Context {tables : CaseTables}.

(** X15.  A message of valid UTF-8 whose two strings have at most 167
    bytes together always gets through: when the JSON client's write
    succeeds and what it wrote arrives at the JSON server as one chunk,
    the client prints [JSON sent!] and returns, and the server decodes
    the client's message, prints [Received JSON: {User:] its user
    [ Text:] its text [}] and returns. *)
Theorem X15_small_message_gets_through (m : Message) (envc envs : Env)
    (pc ps : Peer) :
  Valid (User m) = true -> Valid (Text m) = true ->
  (List.length (User m) + List.length (Text m) <= 167)%nat ->
  dial_result envc = inr pc -> peer_acks pc = [] ->
  listen_result envs = None -> accept_result envs 0 = inr ps ->
  peer_sends ps = delivered (conn_state 0 (snd (run (json_client envc m)))) ->
  fst (run (json_client envc m)) = Ok tt /\
  prints (trace (snd (run (json_client envc m))))
  = [B "JSON sent!" ++ [newline]] /\
  fst (run (json_server_main envs)) = Ok tt /\
  prints (trace (snd (run (json_server_main envs))))
  = [B "Server listening on 127.0.0.1:5000" ++ [newline];
     B "Connected by " ++ peer_addr ps ++ [newline];
     B "Received JSON: {User:" ++ User m ++ B " Text:" ++ Text m ++ B "}"
       ++ [newline]].
Proof.
  intros V1 V2 Hk D Hw L A S.
  rewrite (json_client_run envc m pc D), Hw in S |- *.
  cbn [fst snd conn_state conns nth conn1 delivered] in S |- *.
  split; [reflexivity|]. split; [reflexivity|]. unfold json_server_main.
  rewrite (json_server_run envs _ ps _ _ L A S).
  pose proof (encoded_length _ _ (encoded_appendString (User m))) as L1.
  pose proof (encoded_length _ _ (encoded_appendString (Text m))) as L2.
  assert (Hl : (List.length (fst (Marshal m)) <= 1024)%nat).
  { rewrite Marshal_shape, !length_app.
    change (List.length seg0) with 9%nat.
    change (List.length seg1) with 10%nat.
    change (List.length seg2) with 2%nat. lia. }
  rewrite make_length, firstn_all2 by exact Hl.
  pose proof (Unmarshal_Marshal m V1 V2) as R.
  change (mkMessage [] []) with zeroMessage in R. rewrite R.
  split; [reflexivity|]. rewrite <- format_plus_v_bytes. reflexivity.
Qed.

(** X16.  A message whose two strings have more than 1003 bytes together
    never gets through: its encoding is longer than the server's buffer,
    so the JSON server that receives it panics with a syntax error
    whatever the strings are. *)
Theorem X16_large_message_fails (m : Message) (env : Env) (p : Peer)
    (later : list bytes) :
  (1003 < List.length (User m) + List.length (Text m))%nat ->
  listen_result env = None -> accept_result env 0 = inr p ->
  peer_sends p = fst (Marshal m) :: later ->
  exists c ctx,
    fst (run (json_server_main env))
    = Panic (PanicError (SyntaxError c ctx)).
Proof.
  intros Hk L A S.
  pose proof (encoded_length _ _ (encoded_appendString (User m))) as L1.
  pose proof (encoded_length _ _ (encoded_appendString (Text m))) as L2.
  assert (Hl : (1024 < List.length (fst (Marshal m)))%nat).
  { rewrite Marshal_shape, !length_app.
    change (List.length seg0) with 9%nat.
    change (List.length seg1) with 10%nat.
    change (List.length seg2) with 2%nat. lia. }
  destruct (checkValid_truncated m 1024 Hl) as (c & ctx & E).
  exists c, ctx. unfold json_server_main.
  rewrite (json_server_run env _ p _ later L A S), make_length.
  unfold Unmarshal. rewrite E. reflexivity.
Qed.

End Together.

Lemma X15_witness :
  prints (trace (snd (run (json_client_main (one_peer [] [])))))
  = [B "JSON sent!" ++ [newline]] /\
  prints (trace (snd (run (json_server_main
    (one_peer (delivered (conn_state 0 (snd (run (json_client_main
                                                   (one_peer [] []))))))
              [])))))
  = [B "Server listening on 127.0.0.1:5000" ++ [newline];
     B "Connected by 127.0.0.1:40000" ++ [newline];
     B "Received JSON: {User:Alice Text:Hello server!}" ++ [newline]].
Proof.
  assert (V1 : Valid (B "Alice") = true) by (vm_compute; reflexivity).
  assert (V2 : Valid (B "Hello server!") = true) by (vm_compute; reflexivity).
  assert (K : (List.length (B "Alice") + List.length (B "Hello server!")
               <= 167)%nat) by (cbn; lia).
  destruct (X15_small_message_gets_through
    (mkMessage (B "Alice") (B "Hello server!"))
    (one_peer [] [])
    (one_peer (delivered (conn_state 0 (snd (run (json_client_main
                                                   (one_peer [] []))))))
              [])
    (mkPeer (B "127.0.0.1:5000") [] EOF [])
    (mkPeer (B "127.0.0.1:40000")
       (delivered (conn_state 0 (snd (run (json_client_main
                                             (one_peer [] [])))))) EOF [])
    V1 V2 K eq_refl eq_refl eq_refl eq_refl eq_refl) as (_ & Hc & _ & H).
  split; [exact Hc | exact H].
Defined.

Lemma X16_witness :
  exists c ctx,
    fst (run (json_server_main (one_peer [fst (Marshal long_message)] [])))
    = Panic (PanicError (SyntaxError c ctx)).
Proof.
  assert (K : (1003 < List.length (User long_message)
                      + List.length (Text long_message))%nat)
    by (apply Nat.ltb_lt; vm_compute; reflexivity).
  exact (X16_large_message_fails long_message
           (one_peer [fst (Marshal long_message)] [])
           (mkPeer (B "127.0.0.1:40000") [fst (Marshal long_message)] EOF [])
           [] K eq_refl eq_refl eq_refl).
Defined.

(** ** The round trip of any message *)

Lemma coerce_rune p r n :
  rune_at p r n -> coerce p = firstn n p ++ coerce (skipn n p).
Proof.
  intros R. destruct p as [|b rest]; [inversion R|].
  rewrite coerce_equation_2.
  destruct (Z.ltb_spec (code b) RuneSelf) as [Hlt|Hge].
  - inversion R; subst; unfold RuneSelf in *; try lia. reflexivity.
  - pose proof (rune_at_multi _ _ _ _ R Hge) as Hn.
    rewrite (DecodeRune_sound R).
    replace ((n =? 1)%nat) with false by (symmetry; apply Nat.eqb_neq; lia).
    rewrite andb_false_r. now rewrite (skipn_pred _ n b rest) by lia.
Qed.

Lemma unquote_replacement o :
  unquote_loop (B "\ufffd" ++ o)
  = option_map (app (EncodeRune RuneError)) (unquote_loop o).
Proof.
  cbn [B list_ascii_of_string app]. now apply unquote_loop_u.
Qed.

Lemma unquote_encoded_coerce s o :
  encoded s o -> unquote_loop o = Some (coerce s).
Proof.
  induction 1 as [|b s o S _ IH|b s o A S _ IH|b s o A D _ IH
                 |p r n o R E _ IH|p r n o R N N1 N2 _ IH].
  - now rewrite unquote_loop_equation_1, coerce_equation_1.
  - destruct (safe_facts b S) as (H1 & H2 & H3 & H4).
    rewrite coerce_equation_2, H4.
    rewrite unquote_loop_equation_2, H1, H2, H3, H4. cbn [orb].
    now rewrite IH.
  - rewrite (unquote_escape b o A S), IH, coerce_equation_2.
    apply Z.ltb_lt in A. now rewrite A.
  - rewrite unquote_replacement, IH, coerce_equation_2, D.
    apply Z.ltb_ge in A. now rewrite A.
  - rewrite (unquote_separator r o E), IH, (EncodeRune_rune_at R).
    now rewrite (coerce_rune _ _ _ R).
  - rewrite (unquote_rune _ _ _ o R N), IH.
    now rewrite (coerce_rune _ _ _ R).
Qed.

Lemma coerce_valid : forall s, Valid s = true -> coerce s = s.
Proof.
  apply (bytes_suffix_ind (fun s => Valid s = true -> coerce s = s)).
  - intros _. apply coerce_equation_1.
  - intros b rest IH V. rewrite Valid_equation_2 in V.
    rewrite coerce_equation_2.
    destruct (code b <? RuneSelf) eqn:E.
    + f_equal. exact (IH 0%nat V).
    + destruct (DecodeRune (b :: rest)) as [r size] eqn:D.
      destruct ((r =? RuneError) && (size =? 1)%nat) eqn:T;
        [discriminate V|].
      destruct (DecodeRune_complete _ _ D) as [R | [-> ->]];
        [|discriminate T].
      destruct (rune_at_size _ _ _ R) as (Hn & _).
      rewrite (IH _ V), (skipn_pred _ size b rest) by lia.
      apply firstn_skipn.
Qed.

Lemma rune_at_replacement o :
  rune_at (EncodeRune RuneError ++ o) RuneError 3.
Proof.
  change (EncodeRune RuneError) with ["239"; "191"; "189"]%char.
  cbn [app].
  change RuneError
    with ((code "239" - 0xE0) * 4096 + (code "191" - 0x80) * 64
          + (code "189" - 0x80)).
  apply rune_at3; unfold cont; cbn; lia.
Qed.

Lemma Valid_coerce : forall s, Valid (coerce s) = true.
Proof.
  apply (bytes_suffix_ind (fun s => Valid (coerce s) = true)).
  - now rewrite coerce_equation_1, Valid_equation_1.
  - intros b rest IH. rewrite coerce_equation_2.
    destruct (code b <? RuneSelf) eqn:E.
    + rewrite Valid_equation_2, E. exact (IH 0%nat).
    + destruct (DecodeRune (b :: rest)) as [r size] eqn:D.
      destruct ((r =? RuneError) && (size =? 1)%nat) eqn:T.
      * rewrite (Valid_rune_at _ _ _ (rune_at_replacement _)).
        exact (IH 0%nat).
      * destruct (DecodeRune_complete _ _ D) as [R | [-> ->]];
          [|discriminate T].
        destruct (rune_at_size _ _ _ R) as (Hn & Hl).
        rewrite (Valid_rune_at _ _ _ (rune_at_app _ _ _ _ R)).
        rewrite skipn_firstn_app by exact Hl. apply IH.
Qed.

Section AnyMessage.
Context {tables : CaseTables}.

Lemma Unmarshal_Marshal_coerce m :
  Unmarshal (fst (Marshal m)) zeroMessage
  = Ok (mkMessage (coerce (User m)) (coerce (Text m)), None).
Proof.
  unfold Unmarshal. rewrite checkValid_Marshal.
  rewrite Marshal_shape.
  pose proof (encoded_appendString (User m)) as E1.
  pose proof (encoded_appendString (Text m)) as E2.
  pose proof (encoded_body _ _ E1) as B1.
  pose proof (encoded_body _ _ E2) as B2.
  apply unquote_encoded_coerce in E1.
  apply unquote_encoded_coerce in E2.
  set (b1 := appendString_loop true (User m)) in *.
  set (b2 := appendString_loop true (Text m)) in *.
  set (u := coerce (User m)) in *. set (t := coerce (Text m)) in *.
  unfold seg0. cbn [B list_ascii_of_string app List.length Nat.add].
  unfold unmarshal, init, zeroMessage.
  cbn -[b1 b2 u t unquoteBytes lookup].
  change [dquote; "u"; "s"; "e"; "r"; dquote]%char
    with (dquote :: B "user" ++ [dquote]).
  rewrite unquote_key_user, lookup_user.
  cbn -[b1 b2 u t unquoteBytes lookup].
  rewrite (rescanLiteral_string b1 _ _ _ _ _ B1).
  cbn -[b1 b2 u t unquoteBytes lookup].
  rewrite unquoteBytes_quoted, E1.
  cbn -[b1 b2 u t unquoteBytes lookup].
  change [dquote; "t"; "e"; "x"; "t"; dquote]%char
    with (dquote :: B "text" ++ [dquote]).
  rewrite unquote_key_text, lookup_text.
  cbn -[b1 b2 u t unquoteBytes lookup].
  rewrite (rescanLiteral_string b2 _ _ _ _ _ B2).
  cbn -[b1 b2 u t unquoteBytes lookup].
  rewrite unquoteBytes_quoted, E2.
  reflexivity.
Qed.

(** X17.  What comes out of the round trip for any message.  Decoding the
    encoding of a message never fails; each of the two strings comes back
    with every byte that is not part of well-formed UTF-8 replaced by
    U+FFFD, so it comes back valid UTF-8, and unchanged when it was valid.
    A JSON server that receives the encoding whole, in at most 1024
    bytes, prints [Received JSON: {User:], the user so replaced,
    [ Text:], the text so replaced, [}] and a newline, and returns. *)
Theorem X17_roundtrip_coerces_to_utf8 (m : Message) :
  let m' := mkMessage (coerce (User m)) (coerce (Text m)) in
  Unmarshal (fst (Marshal m)) zeroMessage = Ok (m', None) /\
  Valid (User m') = true /\ Valid (Text m') = true /\
  (Valid (User m) = true -> User m' = User m) /\
  (Valid (Text m) = true -> Text m' = Text m) /\
  (forall env p,
     listen_result env = None -> accept_result env 0 = inr p ->
     peer_sends p = [fst (Marshal m)] ->
     (List.length (fst (Marshal m)) <= 1024)%nat ->
     fst (run (json_server_main env)) = Ok tt /\
     prints (trace (snd (run (json_server_main env))))
     = [B "Server listening on 127.0.0.1:5000" ++ [newline];
        B "Connected by " ++ peer_addr p ++ [newline];
        B "Received JSON: {User:" ++ coerce (User m) ++ B " Text:"
          ++ coerce (Text m) ++ B "}" ++ [newline]]).
Proof.
  intros m'. pose proof (Unmarshal_Marshal_coerce m) as R. fold m' in R.
  split; [exact R|].
  split; [apply Valid_coerce|]. split; [apply Valid_coerce|].
  split; [apply coerce_valid|]. split; [apply coerce_valid|].
  intros env p L A S Hl. unfold json_server_main.
  rewrite (json_server_run env _ p _ _ L A S).
  rewrite make_length, firstn_all2 by exact Hl.
  rewrite R. split; [reflexivity|].
  change (coerce (User m)) with (User m').
  change (coerce (Text m)) with (Text m').
  rewrite <- format_plus_v_bytes. reflexivity.
Qed.

End AnyMessage.

Lemma X17_witness :
  prints (trace (snd (run (json_server_main
     (one_peer [fst (Marshal (mkMessage ["255"%char] (B "ok")))] [])))))
  = [B "Server listening on 127.0.0.1:5000" ++ [newline];
     B "Connected by 127.0.0.1:40000" ++ [newline];
     B "Received JSON: {User:" ++ ["239"; "191"; "189"]%char
       ++ B " Text:ok}" ++ [newline]].
Proof.
  assert (L : (List.length (fst (Marshal (mkMessage ["255"%char] (B "ok"))))
               <= 1024)%nat) by (apply le_1024; vm_compute; reflexivity).
  assert (C1 : coerce ["255"%char] = ["239"; "191"; "189"]%char)
    by (vm_compute; reflexivity).
  assert (C2 : coerce (B "ok") = B "ok") by (vm_compute; reflexivity).
  destruct (X17_roundtrip_coerces_to_utf8 (mkMessage ["255"%char] (B "ok")))
    as (_ & _ & _ & _ & _ & H).
  destruct (H (one_peer [fst (Marshal (mkMessage ["255"%char] (B "ok")))] [])
              (mkPeer (B "127.0.0.1:40000")
                 [fst (Marshal (mkMessage ["255"%char] (B "ok")))] EOF [])
              eq_refl eq_refl eq_refl L) as (_ & Hp).
  cbn [User Text] in Hp. rewrite C1, C2 in Hp. exact Hp.
Defined.
